(** * VPU cost model: sanitation rewrites, predictor range check, batched
    inference, power-factor table, power model, registry of preprocessors
    and SHAVE element-wise kernels.

    Shallow embedding of [include/vpu_cost_model.h], [include/vpu/power.h],
    [include/inference/preprop_factory.h] and
    [include/vpu/shave/elementwise.h].  C++ [float] is IEEE-754 binary32,
    modelled with the parametric specification of the Standard Library
    ([SpecFloat], precision 24, exponent bound 128); unsigned integers are
    [Z] with the wrap-around written out. *)

From Stdlib Require Import ZArith Bool Lia String.
From Stdlib Require Import Floats.SpecFloat.
From stdpp Require Import base option list gmap.

Local Open Scope Z_scope.

(** ** binary32 arithmetic *)

Module F32.

Definition prec : Z := 24.
Definition emax : Z := 128.

Abbreviation float := spec_float.

#[global] Instance float_eq_dec : EqDecision float.
Proof. solve_decision. Defined.

(** A datum of the format: canonical mantissa and bounded exponent. *)
Definition valid (f : float) : bool := valid_binary prec emax f.

Definition is_nan (f : float) : bool :=
  match f with S754_nan => true | _ => false end.

(** [(float)n] for an unsigned integer [n], round to nearest even. *)
Definition of_uint (n : Z) : float := binary_normalize prec emax n 0 false.

Definition add : float -> float -> float := SFadd prec emax.
Definition sub : float -> float -> float := SFsub prec emax.
Definition mul : float -> float -> float := SFmul prec emax.
Definition div : float -> float -> float := SFdiv prec emax.

(** C++ [a < b], [a <= b], [a > b], [a >= b]: false on NaN. *)
Definition lt (a b : float) : bool := SFltb a b.
Definition le (a b : float) : bool := SFleb a b.
Definition gt (a b : float) : bool := SFltb b a.
Definition ge (a b : float) : bool := SFleb b a.

(** A decimal literal [num/den] written with suffix [f]: the binary32
    number nearest to it ([num] and [den] are exact in binary32). *)
Definition dec (num den : Z) : float := div (of_uint num) (of_uint den).

Definition zero : float := S754_zero false.
Definition one : float := of_uint 1.

(** [std::min(a, b)] is [(b < a) ? b : a]. *)
Definition min (a b : float) : float := if lt b a then b else a.

(** The integer [ceil(f)] of a finite number; [None] on NaN and
    infinities.  [m * 2^e] with [e < 0] is [m / 2^(-e)]. *)
Definition Zceil (f : float) : option Z :=
  match f with
  | S754_zero _ => Some 0
  | S754_finite s m e =>
      if 0 <=? e then Some (if s then - (Zpos m * 2 ^ e) else Zpos m * 2 ^ e)
      else
        let d := 2 ^ (- e) in
        let q := Zpos m / d in
        let r := Zpos m mod d in
        Some (if s then - q else if r =? 0 then q else q + 1)
  | _ => None
  end.

(** The integer [round(f)]: nearest, halves away from zero. *)
Definition Zround (f : float) : option Z :=
  match f with
  | S754_zero _ => Some 0
  | S754_finite s m e =>
      if 0 <=? e then Some (if s then - (Zpos m * 2 ^ e) else Zpos m * 2 ^ e)
      else
        let d := 2 ^ (- e) in
        let q := Zpos m / d in
        let r := Zpos m mod d in
        let n := if d <=? 2 * r then q + 1 else q in
        Some (if s then - n else n)
  | _ => None
  end.

(** [static_cast<unsigned int>] of an integral float value: defined
    only when the value is representable on 32 bits. *)
Definition to_uint32 (n : option Z) : option Z :=
  match n with
  | Some z => if (0 <=? z) && (z <? 2 ^ 32) then Some z else None
  | None => None
  end.

End F32.

Abbreviation float := spec_float.

(** Arithmetic on [unsigned int]. *)
Definition wrap32 (z : Z) : Z := z mod 2 ^ 32.

(** ** Types of [vpu/types.h] *)

(** Modelled from the spec: [vpu/types.h] is not in the tree.  Devices in
    declaration order; the code compares them by their underlying value. *)
Inductive VPUDevice := VPU_2_0 | VPU_2_1 | VPU_2_7 | VPU_4_0 | VPU_Unknown.

Definition VPUDevice_value (d : VPUDevice) : Z :=
  match d with
  | VPU_2_0 => 0 | VPU_2_1 => 1 | VPU_2_7 => 2 | VPU_4_0 => 3 | VPU_Unknown => 4
  end.

(** Modelled from the spec: the operations of a DPU workload. *)
Inductive Operation :=
  | CONVOLUTION | DW_CONVOLUTION | ELTWISE | MAXPOOL | AVEPOOL
  | CM_CONVOLUTION | OP_Invalid.

(** Modelled from the spec: element types of a tensor. *)
Inductive DataType := UINT8 | INT8 | FLOAT16 | BFLOAT16.

(** Modelled from the spec: the execution modes of the DPU. *)
Inductive ExecutionMode :=
  | VECTOR | MATRIX | VECTOR_FP16 | CUBOID_16x16 | CUBOID_8x16 | CUBOID_4x16.

#[global] Instance VPUDevice_eq_dec : EqDecision VPUDevice.
Proof. solve_decision. Defined.
#[global] Instance Operation_eq_dec : EqDecision Operation.
Proof. solve_decision. Defined.
#[global] Instance DataType_eq_dec : EqDecision DataType.
Proof. solve_decision. Defined.
#[global] Instance ExecutionMode_eq_dec : EqDecision ExecutionMode.
Proof. solve_decision. Defined.

(** Modelled from the spec: a tensor is its shape [(x, y, channels, batch)]
    (unsigned), its element type and its sparsity flag. *)
Record VPUTensor := mkTensor {
  t_x : Z;
  t_y : Z;
  t_channels : Z;
  t_b : Z;
  t_dtype : DataType;
  t_sparsity : bool
}.

(** [set_shape({x, y, c, b})] replaces the four dimensions. *)
Definition set_shape (t : VPUTensor) (x y c b : Z) : VPUTensor :=
  {| t_x := x; t_y := y; t_channels := c; t_b := b;
     t_dtype := t_dtype t; t_sparsity := t_sparsity t |}.

Definition dtype_bytes (d : DataType) : Z :=
  match d with UINT8 | INT8 => 1 | FLOAT16 | BFLOAT16 => 2 end.

(** [size()]: the byte size, [x * y * channels * batch * bytes(dtype)]. *)
Definition tensor_size (t : VPUTensor) : Z :=
  t_x t * t_y t * t_channels t * t_b t * dtype_bytes (t_dtype t).

(** Modelled from the spec: the workload record; [inputs[0]] and
    [outputs[0]] are the only tensors the code of the cost model reads. *)
Record DPUWorkload := mkWorkload {
  device : VPUDevice;
  op : Operation;
  inputs_0 : VPUTensor;
  outputs_0 : VPUTensor;
  kernels : Z * Z;
  strides : Z * Z;
  padding : Z * Z * Z * Z;
  execution_mode : ExecutionMode;
  output_write_tiles : Z
}.

Definition set_op (o : Operation) (w : DPUWorkload) : DPUWorkload :=
  {| device := device w; op := o; inputs_0 := inputs_0 w;
     outputs_0 := outputs_0 w; kernels := kernels w; strides := strides w;
     padding := padding w; execution_mode := execution_mode w;
     output_write_tiles := output_write_tiles w |}.

Definition set_inputs_0 (t : VPUTensor) (w : DPUWorkload) : DPUWorkload :=
  {| device := device w; op := op w; inputs_0 := t;
     outputs_0 := outputs_0 w; kernels := kernels w; strides := strides w;
     padding := padding w; execution_mode := execution_mode w;
     output_write_tiles := output_write_tiles w |}.

(** ** Rewrites of [VPUCostModel] applied before the device sanitizer *)

Module Rewrites.

Definition is_channels_preserving (o : Operation) : bool :=
  bool_decide (o = ELTWISE) || bool_decide (o = DW_CONVOLUTION) ||
  bool_decide (o = MAXPOOL) || bool_decide (o = AVEPOOL).

(** [channels_preserving_operations_consistency_check] *)
Definition channels_preserving_operations_consistency_check
    (workload : DPUWorkload) : DPUWorkload :=
  if is_channels_preserving (op workload) then
    if negb (t_channels (inputs_0 workload) =? t_channels (outputs_0 workload))
    then
      set_inputs_0
        (set_shape (inputs_0 workload)
           (t_x (inputs_0 workload)) (t_y (inputs_0 workload))
           (t_channels (outputs_0 workload)) (t_b (inputs_0 workload)))
        workload
    else workload
  else workload.

(** [avgpool_replace_by] *)
Definition avgpool_replace_by (workload : DPUWorkload) : DPUWorkload :=
  if bool_decide (op workload = AVEPOOL) then set_op DW_CONVOLUTION workload
  else workload.

(** [compressConv_replace_by_CM_CONV_VPU27] *)
Definition compressConv_replace_by_CM_CONV_VPU27
    (workload : DPUWorkload) : DPUWorkload :=
  if VPUDevice_value VPU_2_7 <=? VPUDevice_value (device workload) then
    if bool_decide (op workload = CONVOLUTION) &&
       ((1 <? t_channels (inputs_0 workload)) &&
        (t_channels (inputs_0 workload) <? 16))
    then set_op CM_CONVOLUTION workload
    else workload
  else workload.

(** The workload after the two operation rewrites, which is what the
    channel check looks at. *)
Definition rewritten (workload : DPUWorkload) : DPUWorkload :=
  compressConv_replace_by_CM_CONV_VPU27 (avgpool_replace_by workload).

(** The three rewrites in the order [sanitize_workload] applies them. *)
Definition presanitize (workload : DPUWorkload) : DPUWorkload :=
  channels_preserving_operations_consistency_check (rewritten workload).

End Rewrites.

(** ** Collaborators of the cost model that live outside the tree *)

(** Modelled from the spec: [vpu/cycles_interface_types.h] is not in the
    tree.  [CyclesInterfaceType] is a 32-bit unsigned counter whose high
    values are reserved for error codes; the code of the cost model uses
    [NO_ERROR], [ERROR_INVALID_OUTPUT_RANGE] and [isErrorCode]. *)
Record Cycles := mkCycles {
  NO_ERROR : Z;
  ERROR_INVALID_OUTPUT_RANGE : Z;
  isErrorCode : Z -> bool
}.

(** Modelled from the spec: [SanityReport] is [{value, info}] and
    [is_usable()] holds iff [value == NO_ERROR]. *)
Record SanityReport := mkReport {
  value : Z;
  info : string
}.

Definition is_usable (c : Cycles) (r : SanityReport) : bool :=
  value r =? NO_ERROR c.

(** [DPU_OperationSanitizer]: [check_and_sanitize(wl, result)] may change
    the workload in place and fills the report. *)
Record DPU_OperationSanitizer := mkSanitizer {
  check_and_sanitize : DPUWorkload -> DPUWorkload * SanityReport
}.

(** [Runtime]: the loaded network.  [predict] consumes a flat buffer of
    descriptors and yields one value per descriptor;
    [model_batch_size] is [input_tensors()[0]->shape()[0]]. *)
Record Runtime := mkRuntime {
  initialized : bool;
  model_batch_size : nat;
  predict : list float -> list float
}.

(** [Preprocessing<float>]: the descriptor of one workload and its width. *)
Record Preprocessing := mkPreprocessing {
  transform : DPUWorkload -> list float;
  output_size : nat
}.

(** The least multiple of [pad] that is at least [n]. *)
Definition padded_count (pad n : nat) : nat :=
  (Nat.div (n + pad - 1) pad * pad)%nat.

(** Modelled from the spec: [transform(batch, batch_size)] concatenates the
    descriptors and pads with zeros to a multiple of [batch_size]
    workloads ([inference/preprocessing.h] is not in the tree). *)
Definition transform_batch (p : Preprocessing) (workloads : list DPUWorkload)
    (pad : nat) : list float :=
  let n := length workloads in
  concat (map (transform p) workloads) ++
  replicate ((padded_count pad n - n) * output_size p)%nat F32.zero.

(** The same buffer seen as a list of descriptors, the zero padding last. *)
Definition all_descriptors (p : Preprocessing) (workloads : list DPUWorkload)
    (pad : nat) : list (list float) :=
  map (transform p) workloads ++
  replicate (padded_count pad (length workloads) - length workloads)
            (replicate (output_size p) F32.zero).

(** [VPUNNPerformanceModel], the base class with the analytic estimators. *)
Record VPUNNPerformanceModel := mkPerformance {
  DPUTheoreticalCycles : DPUWorkload -> Z;
  DPU_Power_IdealCycles : DPUWorkload -> Z;
  DPU_Efficency_IdealCycles : DPUWorkload -> Z
}.

(** The two queries [VPUCostModel] makes to its [power_factor_lut]. *)
Record PowerFactorQueries := mkPowerQueries {
  getOperationAndPowerVirusAdjustementFactor : DPUWorkload -> float;
  get_PowerVirus_exceed_factor : VPUDevice -> float
}.

(** ** The LRU cache *)

(** Modelled from the spec: a bounded map from descriptor to value, most
    recent entry first ([core/cache.h] is not in the tree).  [add] of a
    present key replaces its value and refreshes it; a full cache drops
    its oldest entry. *)
Record LRUCache := mkCache {
  capacity : nat;
  entries : list (list float * float)
}.

Definition cache_get (c : LRUCache) (k : list float) : option float :=
  snd <$> find (fun e => bool_decide (e.1 = k)) (entries c).

Definition cache_add (c : LRUCache) (k : list float) (v : float) : LRUCache :=
  {| capacity := capacity c;
     entries := take (capacity c)
                  ((k, v) :: filter (fun e => e.1 <> k) (entries c)) |}.

(** ** The cost model *)

Record VPUCostModel := mkCostModel {
  cycles_codes : Cycles;
  sanitizer : DPU_OperationSanitizer;
  vpunn_runtime : Runtime;
  preprocessing : Preprocessing;
  performance : VPUNNPerformanceModel;
  power_factor_lut : PowerFactorQueries
}.

(** The mutable members: the cache, the results buffer of the batched
    path, and the log of the buffers handed to the network. *)
Record ModelState := mkState {
  cache : LRUCache;
  workloads_results_buffer : list float;
  inferences : list (list float)
}.

(** State passing; [None] is undefined behaviour of the C++ program (an
    access past the end of a buffer, a cast of an unrepresentable value)
    or a loop that does not end. *)
Definition M (A : Type) : Type := ModelState -> option (A * ModelState).

Definition ret {A} (a : A) : M A := fun st => Some (a, st).
Definition bind {A B} (m : M A) (k : A -> M B) : M B :=
  fun st => match m st with Some (a, st') => k a st' | None => None end.
Definition lift {A} (o : option A) : M A :=
  fun st => match o with Some a => Some (a, st) | None => None end.

Declare Scope model_scope.
Delimit Scope model_scope with model.
Notation "'run' x ':=' m 'in' k" := (bind m (fun x => k))
  (at level 10, x name, m at level 100, k at level 200, only parsing)
  : model_scope.

Module CostModel.
Local Open Scope model_scope.

Definition high_threshold : float := F32.of_uint 4000000000.
Definition low_threshold : float := F32.zero.
Definition default_NN_output : float := SFopp F32.one.

(** [is_NN_value_invalid] *)
Definition is_NN_value_invalid (nn_output_cycles : float) : bool :=
  F32.gt nn_output_cycles high_threshold || F32.lt nn_output_cycles low_threshold.

(** [nn_initialized] *)
Definition nn_initialized (m : VPUCostModel) : bool :=
  initialized (vpunn_runtime m).

(** [sanitize_workload]: the workload as changed, the report, and whether
    the report is usable. *)
Definition sanitize_workload (m : VPUCostModel) (workload : DPUWorkload)
    : DPUWorkload * SanityReport * bool :=
  let workload := Rewrites.avgpool_replace_by workload in
  let workload := Rewrites.compressConv_replace_by_CM_CONV_VPU27 workload in
  let workload :=
    Rewrites.channels_preserving_operations_consistency_check workload in
  let '(workload, result) := check_and_sanitize (sanitizer m) workload in
  (workload, result, is_usable (cycles_codes m) result).

(** [run_NN(const DPUWorkload&)]: through the cache. *)
Definition run_NN (m : VPUCostModel) (workload : DPUWorkload) : M float :=
  fun st =>
    let vector := transform (preprocessing m) workload in
    match cache_get (cache st) vector with
    | None =>
        match predict (vpunn_runtime m) vector !! 0%nat with
        | Some infered_value =>
            Some (infered_value,
                  {| cache := cache_add (cache st) vector infered_value;
                     workloads_results_buffer := workloads_results_buffer st;
                     inferences := inferences st ++ [vector] |})
        | None => None
        end
    | Some cached_value => Some (cached_value, st)
    end.

(** [static_cast<CyclesInterfaceType>(ceil(x))] *)
Definition ceil_cycles (x : float) : option Z := F32.to_uint32 (F32.Zceil x).

(** [DPU_and_sanitize]: the cycles, the sanitized workload and the text. *)
Definition DPU_and_sanitize (m : VPUCostModel) (wl : DPUWorkload)
    : M (Z * DPUWorkload * string) :=
  let is_inference_posible := nn_initialized m in
  let '(wl, problems, is_inference_relevant) := sanitize_workload m wl in
  let cycles := value problems in
  if is_inference_relevant then
    if is_inference_posible then
      (run nn_output_cycles := run_NN m wl in
       if is_NN_value_invalid nn_output_cycles then
         ret (ERROR_INVALID_OUTPUT_RANGE (cycles_codes m), wl, info problems)
       else
         (run cycles := lift (ceil_cycles nn_output_cycles) in
          ret (cycles, wl, info problems)))
    else
      ret (wrap32 (DPUTheoreticalCycles (performance m) wl), wl, info problems)
  else ret (cycles, wl, info problems).

(** [DPU(DPUWorkload)] *)
Definition DPU (m : VPUCostModel) (wl : DPUWorkload) : M Z :=
  run r := DPU_and_sanitize m wl in ret (r.1.1).

(** The inner loop of the batched [run_NN]:
    [workloads_results_buffer[idx] = hw_overhead_arr[idx - wl_idx]]. *)
Fixpoint fill_results (hw_overhead_arr : list float) (wl_idx : nat)
    (idxs : list nat) (buffer : list float) : option (list float) :=
  match idxs with
  | [] => Some buffer
  | idx :: rest =>
      match hw_overhead_arr !! (idx - wl_idx)%nat with
      | Some v => fill_results hw_overhead_arr wl_idx rest (<[idx := v]> buffer)
      | None => None
      end
  end.

(** The outer loop of the batched [run_NN], [wl_idx += model_batch_size]
    until [wl_idx >= workloads.size()]; [fuel] bounds the iterations. *)
Fixpoint run_NN_loop (m : VPUCostModel) (n : nat) (vector : list float)
    (fuel : nat) (wl_idx : nat) : M unit :=
  match fuel with
  | O => fun _ => None
  | S fuel' =>
      if (wl_idx <? n)%nat then
        fun st =>
          let model_batch_size := model_batch_size (vpunn_runtime m) in
          let descriptor_size := output_size (preprocessing m) in
          let inputs_to_process_in_batch :=
            (descriptor_size * model_batch_size)%nat in
          let slice :=
            take inputs_to_process_in_batch
                 (drop (wl_idx * descriptor_size)%nat vector) in
          if (length slice <? inputs_to_process_in_batch)%nat then None
          else
            let hw_overhead_arr := predict (vpunn_runtime m) slice in
            let complete_batch_end_idx := (wl_idx + model_batch_size)%nat in
            let end_idx :=
              if (n <? complete_batch_end_idx)%nat then n
              else complete_batch_end_idx in
            match fill_results hw_overhead_arr wl_idx
                    (seq wl_idx (end_idx - wl_idx))
                    (workloads_results_buffer st) with
            | Some buffer =>
                run_NN_loop m n vector fuel' (wl_idx + model_batch_size)%nat
                  {| cache := cache st;
                     workloads_results_buffer := buffer;
                     inferences := inferences st ++ [slice] |}
            | None => None
            end
      else ret tt
  end.

(** [run_NN(const std::vector<DPUWorkload>&)]: not through the cache. *)
Definition run_NN_batch (m : VPUCostModel) (workloads : list DPUWorkload)
    : M (list float) :=
  fun st =>
    let n := length workloads in
    let st :=
      {| cache := cache st;
         workloads_results_buffer :=
           resize n F32.zero (workloads_results_buffer st);
         inferences := inferences st |} in
    if negb (nn_initialized m) then
      let st :=
        {| cache := cache st;
           workloads_results_buffer := replicate n default_NN_output;
           inferences := inferences st |} in
      Some (workloads_results_buffer st, st)
    else
      let vector :=
        transform_batch (preprocessing m) workloads
          (model_batch_size (vpunn_runtime m)) in
      match run_NN_loop m n vector (S n) 0%nat st with
      | Some (_, st') => Some (workloads_results_buffer st', st')
      | None => None
      end.

(** The decision taken for one element of the batch. *)
Definition decide_one (m : VPUCostModel) (wl : DPUWorkload)
    (is_inference_relevant : bool) (problems : SanityReport)
    (NN_results : list float) (idx : nat) : option Z :=
  let theoretical_cycles := DPUTheoreticalCycles (performance m) wl in
  let cycles := value problems in
  if is_inference_relevant then
    if nn_initialized m then
      match NN_results !! idx with
      | Some nn_output_cycles =>
          if is_NN_value_invalid nn_output_cycles then
            Some (ERROR_INVALID_OUTPUT_RANGE (cycles_codes m))
          else ceil_cycles nn_output_cycles
      | None => None
      end
    else Some (wrap32 theoretical_cycles)
  else Some cycles.

(** The decision at index [idx], from [workloads[idx]] and
    [sanitization_results[idx]]. *)
Definition decide_at (m : VPUCostModel) (workloads : list DPUWorkload)
    (sanitization_results : list (bool * SanityReport))
    (NN_results : list float) (idx : nat) : option Z :=
  match workloads !! idx, sanitization_results !! idx with
  | Some wl, Some sanity => decide_one m wl sanity.1 sanity.2 NN_results idx
  | _, _ => None
  end.

(** The last loop of the batched [DPU]: one decision per index, written
    to [cycles_vector[idx]]. *)
Fixpoint decide_cycles (m : VPUCostModel) (workloads : list DPUWorkload)
    (sanitization_results : list (bool * SanityReport))
    (NN_results : list float) (idxs : list nat) (cycles_vector : list Z)
    : option (list Z) :=
  match idxs with
  | [] => Some cycles_vector
  | idx :: rest =>
      match decide_at m workloads sanitization_results NN_results idx with
      | Some cycles =>
          decide_cycles m workloads sanitization_results NN_results rest
            (<[idx := cycles]> cycles_vector)
      | None => None
      end
  end.

(** [DPU(std::vector<DPUWorkload>)] *)
Definition DPU_batch (m : VPUCostModel) (workloads : list DPUWorkload)
    : M (list Z) :=
  let number_of_workloads := length workloads in
  let cycles_vector := replicate number_of_workloads 0 in
  let sanitized := map (sanitize_workload m) workloads in
  let workloads := map (fun r => r.1.1) sanitized in
  let sanitization_results := map (fun r => (r.2, r.1.2)) sanitized in
  run NN_results := run_NN_batch m workloads in
  lift (decide_cycles m workloads sanitization_results NN_results
          (seq 0 (length workloads)) cycles_vector).

(** The network answers each descriptor of a buffer by one function [nn]
    of that descriptor alone. *)
Definition deterministic_predictor (m : VPUCostModel)
    (nn : list float -> float) : Prop :=
  forall descriptors : list (list float),
    Forall (fun d => length d = output_size (preprocessing m)) descriptors ->
    predict (vpunn_runtime m) (concat descriptors) = map nn descriptors.

(** Every cached value is the answer of the network on its key: what
    holds of a cache only [run_NN] has written to. *)
Definition cache_consistent (nn : list float -> float) (st : ModelState)
    : Prop :=
  forall d v, cache_get (cache st) d = Some v -> v = nn d.

(** The answers of [nn] on the descriptors of a list of workloads. *)
Definition network_answers (m : VPUCostModel) (nn : list float -> float)
    (workloads : list DPUWorkload) : list float :=
  map (fun wl => nn (transform (preprocessing m) wl)) workloads.

(** [relative_mac_hw_utilization] *)
Definition relative_mac_hw_utilization (m : VPUCostModel) (real_cycles : Z)
    (ideal_cycles : Z) : float :=
  if negb (isErrorCode (cycles_codes m) real_cycles) &&
     negb (real_cycles =? 0)
  then F32.div (F32.of_uint ideal_cycles) (F32.of_uint real_cycles)
  else F32.zero.

(** [mac_hw_utilization] *)
Definition mac_hw_utilization (m : VPUCostModel) (wl : DPUWorkload)
    (CalculateCycles : DPUWorkload -> Z) : M float :=
  run r := DPU_and_sanitize m wl in
  let nn_output_cycles := r.1.1 in
  let w := r.1.2 in
  let ideal_cycles := CalculateCycles w in
  ret (relative_mac_hw_utilization m nn_output_cycles ideal_cycles).

Definition power_mac_hw_utilization (m : VPUCostModel) (wl : DPUWorkload)
    : M float :=
  mac_hw_utilization m wl (DPU_Power_IdealCycles (performance m)).

Definition efficiency_mac_hw_utilization (m : VPUCostModel)
    (wl : DPUWorkload) : M float :=
  mac_hw_utilization m wl (DPU_Efficency_IdealCycles (performance m)).

(** [DPU_AgnosticActivityFactor_formula] *)
Definition DPU_AgnosticActivityFactor_formula (power_factor_value : float)
    (reference_hw_util : float) (sparse_correction_factor_experimental : float)
    : float :=
  F32.mul (F32.mul reference_hw_util power_factor_value)
          sparse_correction_factor_experimental.

(** [DPU_AgnosticActivityFactor], the correction factor defaulted to 1. *)
Definition DPU_AgnosticActivityFactor (m : VPUCostModel) (wl : DPUWorkload)
    (reference_hw_util : float) : float :=
  let power_factor_value :=
    getOperationAndPowerVirusAdjustementFactor (power_factor_lut m) wl in
  DPU_AgnosticActivityFactor_formula power_factor_value reference_hw_util
    F32.one.

(** [DPU_PowerActivityFactor] *)
Definition DPU_PowerActivityFactor (m : VPUCostModel) (wl : DPUWorkload)
    : M float :=
  run mac_utilization_rate := power_mac_hw_utilization m wl in
  let rough_powerVirus_relative_af :=
    DPU_AgnosticActivityFactor m wl mac_utilization_rate in
  let maximum_acepted_af :=
    get_PowerVirus_exceed_factor (power_factor_lut m) (device wl) in
  ret (F32.min rough_powerVirus_relative_af maximum_acepted_af).

(** [DPU_EfficiencyActivityFactor] *)
Definition DPU_EfficiencyActivityFactor (m : VPUCostModel) (wl : DPUWorkload)
    : M float :=
  run mac_utilization_rate := efficiency_mac_hw_utilization m wl in
  ret (DPU_AgnosticActivityFactor m wl mac_utilization_rate).

End CostModel.

(** ** The power-factor table of [vpu/power.h] *)

(** A call either returns or raises; [std::map::at] raises
    [std::out_of_range] on a missing key. *)
Inductive exception := std_out_of_range.

Inductive result (A : Type) :=
  | Returns (a : A)
  | Raises (e : exception).
Arguments Returns {A} a.
Arguments Raises {A} e.

Module Power.

(** [std::map<unsigned int, float>]: the entries in increasing key order,
    as the iterator visits them. *)
Definition table_t := list (Z * float).
Definition lut_t := list (Operation * table_t).

(** [table.at(key)] *)
Fixpoint table_at (table : table_t) (key : Z) : result float :=
  match table with
  | [] => Raises std_out_of_range
  | (k, v) :: rest => if k =? key then Returns v else table_at rest key
  end.

(** [initialize_pf_lut]: [{log2(input_channels): power_factor}] per
    operation, for VPU 2.0 and VPU 2.7. *)
Definition vpu_2_0_values : lut_t :=
  [ (CONVOLUTION,
      [ (4, F32.dec 87 100); (5, F32.dec 92 100); (6, F32.one);
        (7, F32.dec 95 100); (8, F32.dec 86 100); (9, F32.dec 87 100) ]);
    (DW_CONVOLUTION, [ (6, F32.dec 584 100) ]);
    (AVEPOOL, [ (6, F32.dec 3260 100) ]);
    (MAXPOOL, [ (6, F32.dec 529 100) ]);
    (ELTWISE, [ (7, F32.dec 23271 100) ]) ].

Definition vpu_2_7_values : lut_t :=
  [ (CONVOLUTION,
      [ (4, F32.dec 197 100); (7, F32.dec 120 100); (8, F32.dec 108 100);
        (9, F32.dec 107 100); (10, F32.dec 101 100); (11, F32.dec 97 100) ]);
    (DW_CONVOLUTION, [ (6, F32.dec 143 100) ]);
    (AVEPOOL, [ (6, F32.dec 29 100) ]);
    (MAXPOOL, [ (6, F32.dec 115 100) ]);
    (ELTWISE, [ (8, F32.dec 11 100) ]) ].

Definition pf_lut : list (VPUDevice * lut_t) :=
  [ (VPU_2_0, vpu_2_0_values); (VPU_2_7, vpu_2_7_values) ].

(** The members set by the constructor. *)
Record VPUPowerFactorLUT := mkLUT {
  input_ch : Z;
  op_type : Operation;
  vpu_device : VPUDevice
}.

(** [getScaledValue] *)
Definition getScaledValue (value : float) (fp_comp : bool)
    (device : VPUDevice) : float :=
  if bool_decide (device = VPU_2_0) && fp_comp then
    F32.mul value (F32.dec 87 100)
  else if bool_decide (device = VPU_2_7) && negb fp_comp then
    F32.mul value (F32.dec 79 100)
  else value.

(** [(unsigned int)ceil(log2(8192))] *)
Definition max_ch_log2 : Z := 13.

(** The loop of [getValueInterpolation] over the entries of the table. *)
Fixpoint neighbours (input_ch_log2 : float) (table : table_t)
    (smaller greater : Z) : Z * Z :=
  match table with
  | [] => (smaller, greater)
  | (first, _) :: rest =>
      let smaller :=
        if F32.le (F32.of_uint first) input_ch_log2 && (smaller <? first)
        then first else smaller in
      let greater :=
        if F32.ge (F32.of_uint first) input_ch_log2 && (first <? greater)
        then first else greater in
      if smaller =? greater then (smaller, greater)
      else neighbours input_ch_log2 rest smaller greater
  end.

(** Keys strictly increasing from [lo] on and below [max_ch_log2]: the
    order in which a [std::map] is visited, and the range of the keys
    [initialize_pf_lut] uses. *)
Fixpoint increasing (lo : Z) (table : table_t) : Prop :=
  match table with
  | [] => True
  | (k, _) :: rest => lo < k /\ k < max_ch_log2 /\ increasing k rest
  end.

Definition result_bind {A B} (r : result A) (k : A -> result B) : result B :=
  match r with Returns a => k a | Raises e => Raises e end.

Section WithLog2.

(** [log2] of the C library on [float]. *)
Variable log2f : float -> float.

(** [getValueInterpolation] *)
Definition getValueInterpolation (lut : VPUPowerFactorLUT) (table : table_t)
    : result float :=
  let input_ch_log2 := log2f (F32.of_uint (input_ch lut)) in
  let '(smaller, greater) := neighbours input_ch_log2 table 0 max_ch_log2 in
  let interval := F32.of_uint (wrap32 (greater - smaller)) in
  if F32.gt interval F32.zero then
    result_bind (table_at table smaller) (fun at_smaller =>
    result_bind (table_at table greater) (fun at_greater =>
      Returns
        (F32.add
           (F32.mul (F32.div (F32.sub (F32.of_uint greater) input_ch_log2)
                       interval) at_smaller)
           (F32.mul (F32.div (F32.sub input_ch_log2 (F32.of_uint smaller))
                       interval) at_greater))))
  else table_at table smaller.

(** The first loop of [getValue]: the table of the last matching device,
    the empty vector when there is none. *)
Fixpoint find_device_table (l : list (VPUDevice * lut_t)) (d : VPUDevice)
    (device_table : lut_t) : lut_t :=
  match l with
  | [] => device_table
  | (d', t) :: rest =>
      find_device_table rest d (if bool_decide (d' = d) then t else device_table)
  end.

(** The second loop of [getValue]: every entry of the operation sets
    [pf_value]. *)
Fixpoint scan_operations (lut : VPUPowerFactorLUT) (fp_comp : bool)
    (device_table : lut_t) (pf_value : float) : result float :=
  match device_table with
  | [] => Returns pf_value
  | (operation, op_values_map) :: rest =>
      if bool_decide (operation = op_type lut) then
        result_bind (getValueInterpolation lut op_values_map) (fun v =>
          scan_operations lut fp_comp rest
            (getScaledValue v fp_comp (vpu_device lut)))
      else scan_operations lut fp_comp rest pf_value
  end.

(** [getValue] *)
Definition getValue (lut : VPUPowerFactorLUT) (fp_comp : bool)
    : result float :=
  let device_table := find_device_table pf_lut (vpu_device lut) [] in
  scan_operations lut fp_comp device_table F32.zero.

End WithLog2.

End Power.

(** ** SHAVE element-wise kernels of [vpu/shave/elementwise.h] *)

Module Shave.

(** [SHVElementwise<efficiency, latency>]: the template arguments and the
    members of [SWOperation]. *)
Record SHVElementwise := mkSHV {
  efficiency : Z;
  latency : Z;
  sw_device : VPUDevice;
  inputs : list VPUTensor;
  outputs : list VPUTensor
}.

(** The constructor: [SWOperation(device, inputs, {output})]. *)
Definition SHVElementwise_new (efficiency latency : Z) (device : VPUDevice)
    (inputs : list VPUTensor) (output : VPUTensor) : SHVElementwise :=
  {| efficiency := efficiency; latency := latency; sw_device := device;
     inputs := inputs; outputs := [output] |}.

(** [getKernelEfficiency] *)
Definition getKernelEfficiency (k : SHVElementwise) : float :=
  F32.div (F32.of_uint (efficiency k)) (F32.of_uint 1000).

(** [getLatency] *)
Definition getLatency (k : SHVElementwise) : Z := latency k.

(** [static_cast<unsigned int>(round(x))] *)
Definition round_cycles (x : float) : option Z := F32.to_uint32 (F32.Zround x).

(** [cycles] *)
Definition cycles (k : SHVElementwise) : option Z :=
  match outputs k !! 0%nat with
  | Some output =>
      let size := F32.of_uint (tensor_size output) in
      match round_cycles (F32.div size (getKernelEfficiency k)) with
      | Some c => Some (wrap32 (c + getLatency k))
      | None => None
      end
  | None => None
  end.

(** The cost as the specification words it: the ceiling of the byte size
    over the efficiency, plus the latency. *)
Definition cycles_spec (k : SHVElementwise) : option Z :=
  match outputs k !! 0%nat with
  | Some output =>
      let size := F32.of_uint (tensor_size output) in
      match F32.to_uint32 (F32.Zceil (F32.div size (getKernelEfficiency k))) with
      | Some c => Some (wrap32 (c + getLatency k))
      | None => None
      end
  | None => None
  end.

End Shave.

(** ** A small concrete cost model for the worked examples *)

Module Demo.

Definition tensor (channels : Z) : VPUTensor :=
  mkTensor 1 1 channels 1 UINT8 false.

Definition workload (d : VPUDevice) (o : Operation) (ic oc : Z) : DPUWorkload :=
  mkWorkload d o (tensor ic) (tensor oc) (1, 1) (1, 1) (0, 0, 0, 0)
    CUBOID_16x16 1.

(** Error codes at the top of the 32-bit range. *)
Definition codes : Cycles :=
  mkCycles 0 4294967292 (fun v => 4294966295 <? v).

(** A sanitizer that only rejects the invalid operation. *)
Definition the_sanitizer : DPU_OperationSanitizer :=
  mkSanitizer (fun wl =>
    (wl, if bool_decide (op wl = OP_Invalid)
         then mkReport 4294967293 "operation not supported"
         else mkReport 0 "")).

(** Descriptors of width one: the input channel count. *)
Definition the_preprocessing : Preprocessing :=
  mkPreprocessing (fun wl => [F32.of_uint (t_channels (inputs_0 wl))]) 1.

(** A network that answers [out] on each descriptor, two per batch. *)
Definition runtime (init : bool) (out : float -> float) : Runtime :=
  mkRuntime init 2 (map out).

Definition the_performance : VPUNNPerformanceModel :=
  mkPerformance
    (fun wl => t_channels (inputs_0 wl) * t_channels (outputs_0 wl))
    (fun wl => t_channels (inputs_0 wl))
    (fun wl => t_channels (outputs_0 wl)).

Definition the_power : PowerFactorQueries :=
  mkPowerQueries (fun _ => F32.dec 92 100) (fun _ => F32.dec 13 10).

Definition model (init : bool) (out : float -> float) : VPUCostModel :=
  mkCostModel codes the_sanitizer (runtime init out) the_preprocessing
    the_performance the_power.

Definition state0 : ModelState := mkState (mkCache (Z.to_nat 16384) []) [] [].

(** The answer of [runtime init out] on one descriptor. *)
Definition answer (out : float -> float) (d : list float) : float :=
  match d with
  | x :: _ => out x
  | [] => out F32.zero
  end.

(** A stand-in for [log2]: exact on powers of two, linear in the
    mantissa in between. *)
Definition log2_linear (x : float) : float :=
  match x with
  | S754_finite false m e =>
      F32.add (F32.of_uint (e + 23))
              (F32.div (F32.of_uint (Zpos m - 8388608)) (F32.of_uint 8388608))
  | _ => S754_nan
  end.

End Demo.


(** ** Kinds of binary32 data *)

Module F32Class.

(** A zero or a finite non-zero datum: neither an infinity nor a NaN. *)
Definition is_number (f : float) : bool :=
  match f with S754_zero _ | S754_finite _ _ _ => true | _ => false end.

Definition is_zero (f : float) : bool :=
  match f with S754_zero _ => true | _ => false end.

End F32Class.

(** ** The whole-pack query and the energy of [VPUCostModel] *)

(** The two operation counters of the base class that only [DPUInfo]
    reads. *)
Record MACCounters := mkMACCounters {
  compute_HW_MAC_operations_cnt : DPUWorkload -> Z;
  compute_Ideal_MAC_operations_cnt : DPUWorkload -> Z
}.

(** [DPUInfoPack] *)
Record DPUInfoPack := mkInfoPack {
  DPUCycles : Z;
  errInfo : string;
  energy : float;
  power_activity_factor : float;
  power_mac_utilization : float;
  power_ideal_cycles : Z;
  sparse_mac_operations : Z;
  efficiency_activity_factor : float;
  efficiency_mac_utilization : float;
  efficiency_ideal_cycles : Z;
  dense_mac_operations : Z;
  hw_theoretical_cycles : Z
}.

Module CostModelInfo.
Import CostModel.
Local Open Scope model_scope.

(** [get_NN_Valid_interval] *)
Definition get_NN_Valid_interval : float * float :=
  (low_threshold, high_threshold).

(** [hw_utilization] *)
Definition hw_utilization (m : VPUCostModel) (wl : DPUWorkload) : M float :=
  power_mac_hw_utilization m wl.

(** [DPUActivityFactor] *)
Definition DPUActivityFactor (m : VPUCostModel) (wl : DPUWorkload) : M float :=
  DPU_PowerActivityFactor m wl.

(** [calculateEnergyFromAFandTime] *)
Definition calculateEnergyFromAFandTime (m : VPUCostModel)
    (activity_factor_powerVirus : float) (cycles : Z) : float :=
  let checked_cycles :=
    if isErrorCode (cycles_codes m) cycles then F32.zero
    else F32.of_uint cycles in
  F32.mul activity_factor_powerVirus checked_cycles.

(** [calculateEnergyFromIdealCycles] *)
Definition calculateEnergyFromIdealCycles (m : VPUCostModel)
    (wl : DPUWorkload) (reference_ideal_cycles : Z) : float :=
  let power_factor_value :=
    getOperationAndPowerVirusAdjustementFactor (power_factor_lut m) wl in
  F32.mul (F32.of_uint reference_ideal_cycles) power_factor_value.

(** [DPUEnergy] *)
Definition DPUEnergy (m : VPUCostModel) (wl : DPUWorkload) : float :=
  calculateEnergyFromIdealCycles m wl
    (DPU_Power_IdealCycles (performance m) wl).

(** [DPUInfo]: one call of [DPU_and_sanitize], everything else from the
    workload it leaves. *)
Definition DPUInfo (m : VPUCostModel) (counters : MACCounters)
    (workload : DPUWorkload) : M DPUInfoPack :=
  run r := DPU_and_sanitize m workload in
  let cycles := r.1.1 in
  let w := r.1.2 in
  let sparse := compute_HW_MAC_operations_cnt counters w in
  let power_ideal := DPU_Power_IdealCycles (performance m) w in
  let power_util := relative_mac_hw_utilization m cycles power_ideal in
  let rough_powerVirus_relative_af :=
    DPU_AgnosticActivityFactor m w power_util in
  let nominal_allowed_Virus_exceed_factor :=
    get_PowerVirus_exceed_factor (power_factor_lut m) (device w) in
  let restricted_powerVirus_relative_af :=
    F32.min rough_powerVirus_relative_af nominal_allowed_Virus_exceed_factor in
  let dense := compute_Ideal_MAC_operations_cnt counters w in
  let efficiency_ideal := DPU_Efficency_IdealCycles (performance m) w in
  let efficiency_util := relative_mac_hw_utilization m cycles efficiency_ideal in
  ret {| DPUCycles := cycles;
         errInfo := r.2;
         energy := calculateEnergyFromIdealCycles m w power_ideal;
         power_activity_factor := restricted_powerVirus_relative_af;
         power_mac_utilization := power_util;
         power_ideal_cycles := power_ideal;
         sparse_mac_operations := sparse;
         efficiency_activity_factor :=
           DPU_AgnosticActivityFactor m w efficiency_util;
         efficiency_mac_utilization := efficiency_util;
         efficiency_ideal_cycles := efficiency_ideal;
         dense_mac_operations := dense;
         hw_theoretical_cycles := DPUTheoreticalCycles (performance m) w |}.

End CostModelInfo.

(** ** The power model of [vpu/power.h] *)

Module PowerModel.

(** [DVFS]: a voltage in volt and a frequency in MHz. *)
Record DVFS := mkDVFS {
  voltage : float;
  frequency : float
}.

(** Modelled from the spec: the subsystems named by the switches of
    [getCDyn_*] and [getLeakage_*], and one for every other enumerator
    ([vpu/types.h] is not in the tree). *)
Inductive VPUSubsystem := VPU_DPU | VPU_DMA | VPU_SHV | VPU_other_subsystem.

(** Modelled from the spec: where a DMA reads and writes. *)
Inductive MemoryLocation := DRAM | CMX | UPA | CSRAM.

(** Modelled from the spec: the DMA transfer. *)
Record DMAWorkload := mkDMAWorkload {
  dma_device : VPUDevice;
  dma_input : VPUTensor;
  dma_output : VPUTensor;
  input_location : MemoryLocation;
  output_location : MemoryLocation;
  dma_output_write_tiles : Z
}.

(** [getValidDVFS]; a device outside the four gets the list [{{}}] of one
    value-initialized point. *)
Definition getValidDVFS (device : VPUDevice) : list DVFS :=
  match device with
  | VPU_2_0 => [ mkDVFS (F32.dec 8 10) (F32.of_uint 700) ]
  | VPU_2_1 => [ mkDVFS (F32.dec 8 10) (F32.of_uint 850) ]
  | VPU_2_7 =>
      [ mkDVFS (F32.dec 6 10) (F32.of_uint 850);
        mkDVFS (F32.dec 75 100) (F32.of_uint 1100);
        mkDVFS (F32.dec 9 10) (F32.of_uint 1300) ]
  | VPU_4_0 =>
      [ mkDVFS (F32.dec 55 100) (F32.of_uint 950);
        mkDVFS (F32.dec 65 100) (F32.of_uint 1550);
        mkDVFS (F32.dec 75 100) (F32.of_uint 1700);
        mkDVFS (F32.dec 85 100) (F32.of_uint 1850) ]
  | VPU_Unknown => [ mkDVFS F32.zero F32.zero ]
  end.

(** The loop of [std::max_element(first, last, comp)]: [largest] moves to
    an element only when [comp] puts the one it is at before that element. *)
Fixpoint max_element_from {A} (comp : A -> A -> bool) (largest : A)
    (l : list A) : A :=
  match l with
  | [] => largest
  | x :: rest => max_element_from comp (if comp largest x then x else largest) rest
  end.

(** [*std::max_element(...)]; on an empty range the iterator is [last] and
    reading it is undefined. *)
Definition max_element {A} (comp : A -> A -> bool) (l : list A) : option A :=
  match l with
  | [] => None
  | x :: rest => Some (max_element_from comp x rest)
  end.

(** [getDefaultDVFS] *)
Definition getDefaultDVFS (device : VPUDevice) : option DVFS :=
  let validDVFS := getValidDVFS device in
  max_element (fun a b => F32.lt (frequency a) (frequency b)) validDVFS.

(** [getDefaultVoltage] *)
Definition getDefaultVoltage (device : VPUDevice) : option float :=
  voltage <$> getDefaultDVFS device.

(** [DynamicPower(c_dyn, activity_factor, voltage, frequency)] *)
Definition DynamicPower (c_dyn activity_factor voltage frequency : float)
    : float :=
  F32.mul (F32.mul (F32.mul (F32.mul c_dyn frequency) voltage) voltage)
          activity_factor.

(** [DynamicPower(c_dyn, activity_factor, dvfs)] *)
Definition DynamicPower_at (c_dyn activity_factor : float) (dvfs : DVFS)
    : float :=
  DynamicPower c_dyn activity_factor (voltage dvfs) (frequency dvfs).

(** [getCDyn_2_0] .. [getCDyn_4_0]: every case returns 0. *)
Definition getCDyn_2_0 (hw : VPUSubsystem) : float :=
  match hw with
  | VPU_DPU => F32.zero | VPU_DMA => F32.zero | VPU_SHV => F32.zero
  | _ => F32.zero
  end.
Definition getCDyn_2_1 (hw : VPUSubsystem) : float :=
  match hw with
  | VPU_DPU => F32.zero | VPU_DMA => F32.zero | VPU_SHV => F32.zero
  | _ => F32.zero
  end.
Definition getCDyn_2_7 (hw : VPUSubsystem) : float :=
  match hw with
  | VPU_DPU => F32.zero | VPU_DMA => F32.zero | VPU_SHV => F32.zero
  | _ => F32.zero
  end.
Definition getCDyn_4_0 (hw : VPUSubsystem) : float :=
  match hw with
  | VPU_DPU => F32.zero | VPU_DMA => F32.zero | VPU_SHV => F32.zero
  | _ => F32.zero
  end.

(** [getCDyn] *)
Definition getCDyn (device : VPUDevice) (hw : VPUSubsystem) : float :=
  match device with
  | VPU_2_0 => getCDyn_2_0 hw
  | VPU_2_1 => getCDyn_2_1 hw
  | VPU_2_7 => getCDyn_2_7 hw
  | VPU_4_0 => getCDyn_4_0 hw
  | VPU_Unknown => F32.zero
  end.

(** [getLeakage_2_0] .. [getLeakage_4_0]: every case returns 0. *)
Definition getLeakage_2_0 (hw : VPUSubsystem) : float :=
  match hw with
  | VPU_DPU => F32.zero | VPU_DMA => F32.zero | VPU_SHV => F32.zero
  | _ => F32.zero
  end.
Definition getLeakage_2_1 (hw : VPUSubsystem) : float :=
  match hw with
  | VPU_DPU => F32.zero | VPU_DMA => F32.zero | VPU_SHV => F32.zero
  | _ => F32.zero
  end.
Definition getLeakage_2_7 (hw : VPUSubsystem) : float :=
  match hw with
  | VPU_DPU => F32.zero | VPU_DMA => F32.zero | VPU_SHV => F32.zero
  | _ => F32.zero
  end.
Definition getLeakage_4_0 (hw : VPUSubsystem) : float :=
  match hw with
  | VPU_DPU => F32.zero | VPU_DMA => F32.zero | VPU_SHV => F32.zero
  | _ => F32.zero
  end.

(** [getNominalLeakage] *)
Definition getNominalLeakage (device : VPUDevice) (hw : VPUSubsystem)
    : float :=
  match device with
  | VPU_2_0 => getLeakage_2_0 hw
  | VPU_2_1 => getLeakage_2_1 hw
  | VPU_2_7 => getLeakage_2_7 hw
  | VPU_4_0 => getLeakage_4_0 hw
  | VPU_Unknown => F32.zero
  end.

(** [DMAPower(DMAWorkload&, DVFS)] *)
Definition DMAPower_at (wl : DMAWorkload) (dvfs : DVFS) : float :=
  let activity_factor := F32.one in
  let c_dyn := getCDyn (dma_device wl) VPU_DMA in
  DynamicPower_at c_dyn activity_factor dvfs.

(** [DMAPower(DMAWorkload)] *)
Definition DMAPower (wl : DMAWorkload) : option float :=
  DMAPower_at wl <$> getDefaultDVFS (dma_device wl).

(** [StaticPower(device, hw, dvfs)] *)
Definition StaticPower_at (device : VPUDevice) (hw : VPUSubsystem)
    (dvfs : DVFS) : option float :=
  let nominal_leakage := getNominalLeakage device hw in
  match getDefaultVoltage device with
  | Some nominal_voltage =>
      Some (F32.div (F32.mul nominal_leakage (voltage dvfs)) nominal_voltage)
  | None => None
  end.

(** [StaticPower(device, hw)] *)
Definition StaticPower (device : VPUDevice) (hw : VPUSubsystem)
    : option float :=
  match getDefaultDVFS device with
  | Some dvfs => StaticPower_at device hw dvfs
  | None => None
  end.

End PowerModel.

(** ** The registry of preprocessors of [inference/preprop_factory.h] *)

(** What a call that may throw ends with, for the two kinds of exception
    of the constructor. *)
Inductive thrown := std_runtime_error | uncaught (e : exception).

Inductive attempt (A : Type) :=
  | Built (a : A)
  | Throws (e : thrown).
Arguments Built {A} a.
Arguments Throws {A} e.

Module Factory.

(** Modelled from the spec: a preprocessor and its interface version
    ([inference/preprocessing.h] is not in the tree). *)
Record PreprocessingObject := mkPreprocessingObject {
  getInterfaceVersion : Z;
  descriptor_builder : Preprocessing
}.

(** [RuntimeProcessingFactory]: its four preprocessors. *)
Record RuntimeProcessingFactory := mkFactory {
  pp_v00_latest : PreprocessingObject;
  pp_v01_base : PreprocessingObject;
  pp_v10 : PreprocessingObject;
  pp_v11 : PreprocessingObject
}.

(** [pp_map]: a [std::map] filled from the initializer list; of two
    entries with one key the first is kept. *)
Definition pp_map (factory : RuntimeProcessingFactory)
    : gmap Z PreprocessingObject :=
  list_to_map
    [ (getInterfaceVersion (pp_v00_latest factory), pp_v00_latest factory);
      (getInterfaceVersion (pp_v01_base factory), pp_v01_base factory);
      (getInterfaceVersion (pp_v10 factory), pp_v10 factory);
      (getInterfaceVersion (pp_v11 factory), pp_v11 factory) ].

(** [exists_preprocessing] *)
Definition exists_preprocessing (factory : RuntimeProcessingFactory)
    (input_version : Z) : bool :=
  match pp_map factory !! input_version with
  | Some _ => true
  | None => false
  end.

(** [make_preprocessing]; [pp_map.at] raises on a missing key as well. *)
Definition make_preprocessing (factory : RuntimeProcessingFactory)
    (version : Z) : result PreprocessingObject :=
  if exists_preprocessing factory version then
    match pp_map factory !! version with
    | Some preproc => Returns preproc
    | None => Raises std_out_of_range
    end
  else Raises std_out_of_range.

(** Modelled from the spec: what the cost model reads of [ModelVersion]. *)
Record ModelVersion := mkModelVersion {
  get_input_interface_version : Z;
  get_output_interface_version : Z;
  get_raw_name : string
}.

(** [init_preproc] *)
Definition init_preproc (factory : RuntimeProcessingFactory)
    (version_service : ModelVersion) : attempt PreprocessingObject :=
  let input_version := get_input_interface_version version_service in
  if exists_preprocessing factory input_version then
    match make_preprocessing factory input_version with
    | Returns preproc => Built preproc
    | Raises e => Throws (uncaught e)
    end
  else Throws std_runtime_error.

(** [check_post_config]; [is_output_supported] is the answer of
    [results_config]. *)
Definition check_post_config (is_output_supported : bool) (v : ModelVersion)
    : attempt unit :=
  let raw_name_intf := get_raw_name v in
  if bool_decide (raw_name_intf = "none"%string) then Built tt
  else if negb is_output_supported then Throws std_runtime_error
  else Built tt.

(** The part of the constructor of [VPUCostModel] that can throw: the
    member [preprocessing] is initialized by [init_preproc], then the body
    runs [check_post_config].  [PostProcessSupport] is a function of the
    output interface version. *)
Definition construct (factory : RuntimeProcessingFactory)
    (PostProcessSupport : Z -> bool) (model_version_info : ModelVersion)
    : attempt PreprocessingObject :=
  match init_preproc factory model_version_info with
  | Built preprocessing =>
      let results_config :=
        PostProcessSupport (get_output_interface_version model_version_info) in
      match check_post_config results_config model_version_info with
      | Built _ => Built preprocessing
      | Throws e => Throws e
      end
  | Throws e => Throws e
  end.

End Factory.

(** ** More of the concrete cost model of the worked examples *)

Module DemoInfo.

Definition the_counters : MACCounters :=
  mkMACCounters
    (fun wl => t_channels (inputs_0 wl))
    (fun wl => t_channels (inputs_0 wl) * t_channels (outputs_0 wl)).

(** A power factor that depends on the operation. *)
Definition power_by_op : PowerFactorQueries :=
  mkPowerQueries
    (fun wl => match op wl with
               | AVEPOOL => F32.dec 3260 100
               | DW_CONVOLUTION => F32.dec 584 100
               | _ => F32.one
               end)
    (fun _ => F32.dec 13 10).

Definition model_by_op (init : bool) (out : float -> float) : VPUCostModel :=
  mkCostModel Demo.codes Demo.the_sanitizer (Demo.runtime init out)
    Demo.the_preprocessing Demo.the_performance power_by_op.

End DemoInfo.
(** * Properties *)

(** ** binary32 *)

Module F32Facts.
Import F32.

Lemma digits2_pos_bounds (m : positive) :
  2 ^ (Zpos (digits2_pos m) - 1) <= Zpos m < 2 ^ Zpos (digits2_pos m).
Proof.
  induction m as [m IH | m IH |]; simpl digits2_pos.
  - rewrite Pos2Z.inj_succ.
    replace (Z.succ (Zpos (digits2_pos m)) - 1) with (Zpos (digits2_pos m)) by lia.
    rewrite Z.pow_succ_r by lia.
    assert (2 ^ Zpos (digits2_pos m) = 2 * 2 ^ (Zpos (digits2_pos m) - 1)).
    { rewrite <- Z.pow_succ_r by lia. f_equal. lia. }
    lia.
  - rewrite Pos2Z.inj_succ.
    replace (Z.succ (Zpos (digits2_pos m)) - 1) with (Zpos (digits2_pos m)) by lia.
    rewrite Z.pow_succ_r by lia.
    assert (2 ^ Zpos (digits2_pos m) = 2 * 2 ^ (Zpos (digits2_pos m) - 1)).
    { rewrite <- Z.pow_succ_r by lia. f_equal. lia. }
    lia.
  - simpl. lia.
Qed.

(** A valid finite number has at most 24 significant bits and an exponent
    between -149 and 104. *)
Lemma valid_finite_bounds s m e :
  valid (S754_finite s m e) = true ->
  Zpos m < 2 ^ 24 /\ -149 <= e <= 104.
Proof.
  unfold valid, valid_binary, bounded, canonical_mantissa, fexp, SpecFloat.emin,
    prec, emax.
  intros H. apply andb_true_iff in H as [Hc He].
  apply Z.eqb_eq in Hc. apply Z.leb_le in He.
  pose proof (digits2_pos_bounds m) as [_ Hm].
  assert (Hd : Zpos (digits2_pos m) <= 24) by lia.
  split; [|lia].
  eapply Z.lt_le_trans; [exact Hm|].
  apply Z.pow_le_mono_r; lia.
Qed.

(** [Zceil] is the ceiling: the least integer not below [m * 2^e]. *)
Lemma Zceil_pos_spec m e n :
  Zceil (S754_finite false m e) = Some n ->
  if 0 <=? e then n = Zpos m * 2 ^ e
  else (n - 1) * 2 ^ (- e) < Zpos m <= n * 2 ^ (- e).
Proof.
  unfold Zceil. destruct (Z.leb_spec 0 e) as [He | He].
  - intros [= <-]. reflexivity.
  - intros [= <-].
    assert (Hd : 0 < 2 ^ (- e)) by (apply Z.pow_pos_nonneg; lia).
    pose proof (Z.div_mod (Zpos m) (2 ^ (- e)) ltac:(lia)) as Hdm.
    pose proof (Z.mod_pos_bound (Zpos m) (2 ^ (- e)) Hd) as Hr.
    destruct (Z.eqb_spec (Zpos m mod 2 ^ (- e)) 0) as [Hz | Hz]; nia.
Qed.

(** [Zround] is within one half of [m * 2^e], the half going up. *)
Lemma Zround_pos_spec m e n :
  Zround (S754_finite false m e) = Some n ->
  if 0 <=? e then n = Zpos m * 2 ^ e
  else (2 * n - 1) * 2 ^ (- e) <= 2 * Zpos m < (2 * n + 1) * 2 ^ (- e).
Proof.
  unfold Zround. destruct (Z.leb_spec 0 e) as [He | He].
  - intros [= <-]. reflexivity.
  - intros [= <-].
    assert (Hd : 0 < 2 ^ (- e)) by (apply Z.pow_pos_nonneg; lia).
    pose proof (Z.div_mod (Zpos m) (2 ^ (- e)) ltac:(lia)) as Hdm.
    pose proof (Z.mod_pos_bound (Zpos m) (2 ^ (- e)) Hd) as Hr.
    destruct (Z.leb_spec (2 ^ (- e)) (2 * (Zpos m mod 2 ^ (- e)))); nia.
Qed.

(** Rounding to nearest and the ceiling differ by at most one, and agree
    exactly when the fractional part is zero or at least one half. *)
Lemma Zround_vs_Zceil_pos m e :
  exists n c,
    Zround (S754_finite false m e) = Some n /\
    Zceil (S754_finite false m e) = Some c /\
    (if (0 <=? e) ||
        (Zpos m mod 2 ^ (- e) =? 0) ||
        (2 ^ (- e) <=? 2 * (Zpos m mod 2 ^ (- e)))
     then n = c else n = c - 1).
Proof.
  unfold Zround, Zceil. destruct (Z.leb_spec 0 e) as [He | He].
  - eexists _, _. split; [reflexivity|]. split; reflexivity.
  - eexists _, _. split; [reflexivity|]. split; [reflexivity|].
    simpl orb.
    assert (Hd : 0 < 2 ^ (- e)) by (apply Z.pow_pos_nonneg; lia).
    destruct (Z.eqb_spec (Zpos m mod 2 ^ (- e)) 0) as [Hz | Hz]; simpl orb.
    + rewrite Hz. destruct (Z.leb_spec (2 ^ (- e)) (2 * 0)); lia.
    + destruct (Z.leb_spec (2 ^ (- e)) (2 * (Zpos m mod 2 ^ (- e)))); lia.
Qed.

Example literal_0_87 : dec 87 100 = S754_finite false 14596178 (-24).
Proof. reflexivity. Qed.

Example ceil_of_2_5 : Zceil (dec 25 10) = Some 3.
Proof. reflexivity. Qed.

Example ceil_of_minus_2_5 : Zceil (SFopp (dec 25 10)) = Some (-2).
Proof. reflexivity. Qed.

Example round_of_2_5 : Zround (dec 25 10) = Some 3.
Proof. reflexivity. Qed.

Example round_of_1_25 : Zround (dec 125 100) = Some 1.
Proof. reflexivity. Qed.

Example uint_2_pow_24_plus_1 : of_uint 16777217 = of_uint 16777216.
Proof. reflexivity. Qed.

End F32Facts.


(** ** The order of binary32 *)

Module F32Order.
Import F32.

Ltac cmp_cases :=
  repeat match goal with
  | H : context [Z.compare ?a ?b] |- _ =>
      destruct (Z.compare_spec a b); try discriminate H
  | |- context [Z.compare ?a ?b] =>
      destruct (Z.compare_spec a b)
  | H : context [Pos.compare_cont Eq ?a ?b] |- _ =>
      rewrite (Pos.compare_cont_spec a b Eq) in H; unfold Pos.switch_Eq in H
  | |- context [Pos.compare_cont Eq ?a ?b] =>
      rewrite (Pos.compare_cont_spec a b Eq); unfold Pos.switch_Eq
  | H : context [Pos.compare ?a ?b] |- _ =>
      destruct (Pos.compare_spec a b); try discriminate H
  | |- context [Pos.compare ?a ?b] =>
      destruct (Pos.compare_spec a b)
  end.

Ltac by_cases3 a b c :=
  unfold lt, le, gt, ge, SFltb, SFleb, SFcompare;
  destruct a as [[]|[]| |[] ? ?], b as [[]|[]| |[] ? ?],
    c as [[]|[]| |[] ? ?]; simpl; intros;
  try discriminate; try reflexivity;
  cmp_cases; simpl in *; try discriminate; try reflexivity; try lia.

Lemma lt_le_trans a b c : lt a b = true -> le b c = true -> lt a c = true.
Proof. by_cases3 a b c. Qed.

Lemma le_lt_trans a b c : le a b = true -> lt b c = true -> lt a c = true.
Proof. by_cases3 a b c. Qed.

Lemma lt_trans a b c : lt a b = true -> lt b c = true -> lt a c = true.
Proof. by_cases3 a b c. Qed.

Lemma lt_not_le a b : lt a b = true -> le b a = false.
Proof.
  intros H. destruct (le b a) eqn:Hle; [|reflexivity].
  pose proof (lt_le_trans a b a H Hle) as Haa. revert Haa. clear.
  unfold lt, SFltb, SFcompare. destruct a as [[]|[]| |[] ? ?]; simpl;
    try discriminate; cmp_cases; try discriminate; lia.
Qed.

Lemma lt_le a b : lt a b = true -> le a b = true.
Proof. unfold lt, le, SFltb, SFleb. destruct (SFcompare a b) as [[]|]; auto. Qed.

(** The conversion of the integers 0..13 is strictly increasing. *)
Local Abbreviation small := (map Z.of_nat (seq 0 14)).

Lemma small_In k : 0 <= k <= 13 -> In k small.
Proof.
  intros H. apply in_map_iff. exists (Z.to_nat k).
  split; [lia|]. apply in_seq. lia.
Qed.

Lemma of_uint_small_lt a b :
  0 <= a -> a < b -> b <= 13 -> lt (of_uint a) (of_uint b) = true.
Proof.
  intros Ha Hab Hb.
  assert (Hall : forallb (fun a => forallb (fun b =>
            implb (a <? b) (lt (of_uint a) (of_uint b))) small) small = true)
    by (vm_compute; reflexivity).
  rewrite forallb_forall in Hall.
  specialize (Hall a (small_In a ltac:(lia))).
  rewrite forallb_forall in Hall.
  specialize (Hall b (small_In b ltac:(lia))).
  rewrite (proj2 (Z.ltb_lt a b) Hab) in Hall. exact Hall.
Qed.

Lemma of_uint_small_le a b :
  0 <= a -> a <= b -> b <= 13 -> le (of_uint a) (of_uint b) = true.
Proof.
  intros Ha Hab Hb.
  assert (Hall : forallb (fun a => forallb (fun b =>
            implb (a <=? b) (le (of_uint a) (of_uint b))) small) small = true)
    by (vm_compute; reflexivity).
  rewrite forallb_forall in Hall.
  specialize (Hall a (small_In a ltac:(lia))).
  rewrite forallb_forall in Hall.
  specialize (Hall b (small_In b ltac:(lia))).
  rewrite (proj2 (Z.leb_le a b) Hab) in Hall. exact Hall.
Qed.

(** A key at or below a key that lies strictly below [x]. *)
Lemma key_below x s p :
  lt (of_uint s) x = true -> 0 <= p -> p <= s -> s <= 13 ->
  le (of_uint p) x = true /\ ge (of_uint p) x = false.
Proof.
  intros Hs H0 Hp H13.
  assert (Hlt : lt (of_uint p) x = true).
  { eapply le_lt_trans; [|exact Hs]. apply of_uint_small_le; lia. }
  split; [apply lt_le; exact Hlt|]. apply lt_not_le. exact Hlt.
Qed.

(** A key at or above a key that lies strictly above [x]. *)
Lemma key_above x g q :
  lt x (of_uint g) = true -> 0 <= g -> g <= q -> q <= 13 ->
  le (of_uint q) x = false /\ ge (of_uint q) x = true.
Proof.
  intros Hg H0 Hq H13.
  assert (Hlt : lt x (of_uint q) = true).
  { eapply lt_le_trans; [exact Hg|]. apply of_uint_small_le; lia. }
  split; [apply lt_not_le; exact Hlt|]. apply lt_le. exact Hlt.
Qed.

End F32Order.

(** ** Totality of the order of binary32 on numbers *)

Module F32Total.
Import F32 F32Order.

(** On numbers, [a < b] fails exactly when [b <= a]. *)
Lemma not_lt_le a b :
  is_nan a = false -> is_nan b = false -> lt a b = false -> le b a = true.
Proof.
  unfold lt, le, SFltb, SFleb, SFcompare, is_nan.
  destruct a as [[]|[]| |[] ma ea], b as [[]|[]| |[] mb eb]; simpl;
    intros; try discriminate; try reflexivity;
    cmp_cases; simpl in *; try discriminate; try reflexivity; try lia.
Qed.

(** Two finite non-zero data that compare equal are the same datum. *)
Lemma le_eq_or_lt s m e x :
  le (S754_finite s m e) x = true ->
  x = S754_finite s m e \/ lt (S754_finite s m e) x = true.
Proof.
  unfold lt, le, SFltb, SFleb, SFcompare.
  destruct s, x as [[]|[]| |[] mx ex]; simpl; intros; try discriminate;
    auto; cmp_cases; simpl in *; try discriminate; auto;
    left; repeat f_equal; lia.
Qed.

(** On numbers, [<=] is reflexive. *)
Lemma le_refl a : is_nan a = false -> le a a = true.
Proof.
  unfold le, SFleb, SFcompare, is_nan.
  destruct a as [[]|[]| |[] ma ea]; simpl; intros; try discriminate;
    try reflexivity; rewrite Z.compare_refl, ?Pos.compare_cont_refl;
    rewrite ?Pos.compare_refl; reflexivity.
Qed.

Lemma le_nan_r a : le a S754_nan = false.
Proof. destruct a as [[]|[]| |[] ? ?]; reflexivity. Qed.

Lemma le_nan_l a : le S754_nan a = false.
Proof. reflexivity. Qed.

Lemma le_not_nan a b : le a b = true -> is_nan a = false /\ is_nan b = false.
Proof.
  destruct a as [[]|[]| |[] ? ?], b as [[]|[]| |[] ? ?]; simpl; auto;
    discriminate.
Qed.

(** The conversion of a key 1..13 is a finite non-zero datum. *)
Lemma of_uint_small_finite k :
  0 < k <= 13 -> exists m e, of_uint k = S754_finite false m e.
Proof.
  intros Hk.
  assert (Hall : forallb (fun k =>
            match of_uint k with S754_finite false _ _ => true | _ => false end)
            (map Z.of_nat (seq 1 13)) = true) by (vm_compute; reflexivity).
  rewrite forallb_forall in Hall.
  specialize (Hall k). destruct (of_uint k) as [| | |[] m e].
  all: try (exfalso; cut (false = true); [discriminate|]; apply Hall;
            apply in_map_iff; exists (Z.to_nat k); split; [lia|];
            apply in_seq; lia).
  eauto.
Qed.

End F32Total.

(** ** Results of binary32 operations are data of the format *)

Module F32Valid.
Import F32 F32Facts.

Local Abbreviation fexp := (SpecFloat.fexp prec emax).
Local Abbreviation emin := (SpecFloat.emin prec emax).

Lemma fexp_mono a b : a <= b -> fexp a <= fexp b.
Proof. unfold SpecFloat.fexp. lia. Qed.

Lemma fexp_ge_emin a : emin <= fexp a.
Proof. unfold SpecFloat.fexp. lia. Qed.

Lemma Zdigits2_nonneg m : 0 <= Zdigits2 m.
Proof. destruct m; simpl; lia. Qed.

Lemma Zdigits2_bounds m :
  0 < m -> 2 ^ (Zdigits2 m - 1) <= m < 2 ^ Zdigits2 m.
Proof.
  destruct m as [|p|p]; try lia. intros _. apply digits2_pos_bounds.
Qed.

Lemma Zdigits2_pos m : 0 < m -> 0 < Zdigits2 m.
Proof. destruct m; simpl; lia. Qed.

(** The number of digits is the one exponent whose power of two bounds
    the number. *)
Lemma Zdigits2_unique m d :
  0 < m -> 2 ^ (d - 1) <= m < 2 ^ d -> Zdigits2 m = d.
Proof.
  intros Hm [Hlo Hhi]. pose proof (Zdigits2_bounds m Hm) as [Hlo' Hhi'].
  pose proof (Zdigits2_pos m Hm) as Hd.
  assert (Hd0 : 0 < d).
  { destruct (Z.lt_ge_cases 0 d) as [|Hneg]; [assumption|].
    destruct (Z.eq_dec d 0) as [-> | Hne]; [simpl in Hhi; lia|].
    rewrite (Z.pow_neg_r 2 d) in Hhi by lia. lia. }
  destruct (Z.lt_trichotomy (Zdigits2 m) d) as [Hlt | [Heq | Hgt]];
    [|assumption|].
  - assert (2 ^ Zdigits2 m <= 2 ^ (d - 1)) by (apply Z.pow_le_mono_r; lia).
    lia.
  - assert (2 ^ d <= 2 ^ (Zdigits2 m - 1)) by (apply Z.pow_le_mono_r; lia).
    lia.
Qed.

Lemma Zdigits2_mono a b : 0 <= a <= b -> Zdigits2 a <= Zdigits2 b.
Proof.
  intros [Ha Hab]. destruct (Z.eq_dec a 0) as [-> | Hne].
  - apply Zdigits2_nonneg.
  - pose proof (Zdigits2_bounds a ltac:(lia)) as [Hlo _].
    pose proof (Zdigits2_bounds b ltac:(lia)) as [_ Hhi].
    destruct (Z.le_gt_cases (Zdigits2 a) (Zdigits2 b)) as [|Hgt]; [assumption|].
    assert (2 ^ Zdigits2 b <= 2 ^ (Zdigits2 a - 1))
      by (apply Z.pow_le_mono_r; [lia|]; pose proof (Zdigits2_nonneg b); lia).
    lia.
Qed.

(** Digits of a quotient by a power of two. *)
Lemma Zdigits2_div_pow2 m n :
  0 <= m -> 0 <= n ->
  Zdigits2 (m / 2 ^ n) = Z.max (Zdigits2 m - n) 0.
Proof.
  intros Hm Hn.
  assert (Hp : 0 < 2 ^ n) by (apply Z.pow_pos_nonneg; lia).
  destruct (Z.eq_dec m 0) as [-> | Hne].
  - rewrite Z.div_0_l by lia. simpl. lia.
  - pose proof (Zdigits2_bounds m ltac:(lia)) as [Hlo Hhi].
    pose proof (Zdigits2_pos m ltac:(lia)) as Hd.
    destruct (Z.le_gt_cases (Zdigits2 m) n) as [Hle | Hgt].
    + assert (2 ^ Zdigits2 m <= 2 ^ n) by (apply Z.pow_le_mono_r; lia).
      rewrite Z.div_small by lia. simpl. lia.
    + rewrite Z.max_l by lia.
      assert (Hsplit : 2 ^ Zdigits2 m = 2 ^ (Zdigits2 m - n) * 2 ^ n).
      { rewrite <- Z.pow_add_r by lia. f_equal. lia. }
      assert (Hsplit' : 2 ^ (Zdigits2 m - 1) = 2 ^ (Zdigits2 m - n - 1) * 2 ^ n).
      { rewrite <- Z.pow_add_r by lia. f_equal. lia. }
      apply Zdigits2_unique.
      * apply Z.div_str_pos. split; [lia|].
        assert (2 ^ n <= 2 ^ (Zdigits2 m - 1)) by (apply Z.pow_le_mono_r; lia).
        lia.
      * split.
        -- apply Z.div_le_lower_bound; [lia|]. rewrite Z.mul_comm. lia.
        -- apply Z.div_lt_upper_bound; [lia|]. rewrite Z.mul_comm. lia.
Qed.

(** [shr_1] halves the mantissa; [iter_pos shr_1 n] divides it by [2^n]. *)
Lemma shr_1_m mrs : 0 <= shr_m mrs -> shr_m (shr_1 mrs) = shr_m mrs / 2.
Proof.
  destruct mrs as [m r s]. simpl. intros Hm.
  destruct m as [|[p|p|]|p]; simpl; try lia; try reflexivity.
  - apply (Z.div_unique _ 2 _ 1); lia.
  - apply (Z.div_unique _ 2 _ 0); lia.
Qed.

Lemma iter_shr_1_m n : forall mrs,
  0 <= shr_m mrs ->
  shr_m (SpecFloat.iter_pos shr_1 n mrs) = shr_m mrs / 2 ^ Zpos n.
Proof.
  assert (Hhalf : forall mrs, 0 <= shr_m mrs -> 0 <= shr_m (shr_1 mrs)).
  { intros mrs H. rewrite shr_1_m by assumption. apply Z.div_pos; lia. }
  induction n as [n IH | n IH |]; intros mrs Hm; simpl SpecFloat.iter_pos.
  - assert (H1 := Hhalf mrs Hm).
    assert (H2 : 0 <= shr_m (SpecFloat.iter_pos shr_1 n (shr_1 mrs))).
    { rewrite IH by assumption. apply Z.div_pos; [assumption|].
      apply Z.pow_pos_nonneg; lia. }
    rewrite IH by assumption. rewrite IH by assumption.
    rewrite shr_1_m by assumption.
    rewrite !Z.div_div by (try apply Z.pow_pos_nonneg; lia).
    f_equal.
    replace (Zpos n~1) with (1 + Zpos n + Zpos n) by lia.
    rewrite !Z.pow_add_r by lia. change (2 ^ 1) with 2. lia.
  - assert (H2 : 0 <= shr_m (SpecFloat.iter_pos shr_1 n mrs)).
    { rewrite IH by assumption. apply Z.div_pos; [assumption|].
      apply Z.pow_pos_nonneg; lia. }
    rewrite IH by assumption. rewrite IH by assumption.
    rewrite !Z.div_div by (try apply Z.pow_pos_nonneg; lia).
    f_equal.
    replace (Zpos n~0) with (Zpos n + Zpos n) by lia.
    rewrite !Z.pow_add_r by lia. reflexivity.
  - rewrite shr_1_m by assumption. reflexivity.
Qed.

Lemma shr_record_of_loc_m m l : shr_m (shr_record_of_loc m l) = m.
Proof. destruct l as [|[]]; reflexivity. Qed.

(** A mantissa shifted to its exponent slot is canonical. *)
Lemma shr_fexp_canonical m e l :
  0 <= m -> e <= fexp (Zdigits2 m + e) ->
  let '(mrs, e') := shr_fexp prec emax m e l in
  0 <= shr_m mrs /\ fexp (Zdigits2 (shr_m mrs) + e') = e'.
Proof.
  intros Hm He. unfold shr_fexp, shr.
  destruct (fexp (Zdigits2 m + e) - e) as [|n|n] eqn:Hn; try lia.
  - rewrite shr_record_of_loc_m. split; [assumption | lia].
  - rewrite iter_shr_1_m by (rewrite shr_record_of_loc_m; assumption).
    rewrite shr_record_of_loc_m.
    split; [apply Z.div_pos; [assumption | apply Z.pow_pos_nonneg; lia]|].
    rewrite Zdigits2_div_pow2 by lia.
    pose proof (Zdigits2_nonneg m) as Hd.
    unfold SpecFloat.fexp in *. unfold SpecFloat.emin, prec, emax in *. lia.
Qed.

Lemma round_nearest_even_range m l :
  m <= round_nearest_even m l <= m + 1.
Proof.
  destruct l as [|[]]; simpl; try lia. destruct (Z.even m); lia.
Qed.

(** The rounding step of every operation yields a datum of the format. *)
Lemma binary_round_aux_valid s m e l :
  0 <= m -> e <= fexp (Zdigits2 m + e) ->
  valid (binary_round_aux prec emax s m e l) = true.
Proof.
  intros Hm He. unfold binary_round_aux.
  pose proof (shr_fexp_canonical m e l Hm He) as H1.
  destruct (shr_fexp prec emax m e l) as [mrs' e'].
  destruct H1 as [Hm' Hc'].
  pose proof (round_nearest_even_range (shr_m mrs') (loc_of_shr_record mrs'))
    as Hr.
  set (m1 := round_nearest_even (shr_m mrs') (loc_of_shr_record mrs')) in *.
  pose proof (shr_fexp_canonical m1 e' loc_Exact ltac:(lia)) as H2.
  destruct (shr_fexp prec emax m1 e' loc_Exact) as [mrs'' e''].
  destruct H2 as [Hm'' Hc''].
  { rewrite <- Hc' at 1. apply fexp_mono.
    pose proof (Zdigits2_mono (shr_m mrs') m1 ltac:(lia)). lia. }
  destruct (shr_m mrs'') as [|p|p] eqn:Hp; try reflexivity.
  destruct (Z.leb_spec e'' (emax - prec)) as [Hle | Hgt]; [|reflexivity].
  unfold valid, valid_binary, bounded, canonical_mantissa.
  simpl in Hc''. rewrite Hc'', Z.eqb_refl.
  apply Z.leb_le in Hle. rewrite Hle. reflexivity.
Qed.

Lemma Zdigits2_mul_pow2 m n :
  0 < m -> 0 <= n -> Zdigits2 (m * 2 ^ n) = Zdigits2 m + n.
Proof.
  intros Hm Hn. pose proof (Zdigits2_bounds m Hm) as [Hlo Hhi].
  pose proof (Zdigits2_pos m Hm) as Hd.
  assert (Hp : 0 < 2 ^ n) by (apply Z.pow_pos_nonneg; lia).
  apply Zdigits2_unique; [nia|].
  replace (Zdigits2 m + n - 1) with (Zdigits2 m - 1 + n) by lia.
  rewrite !Z.pow_add_r by lia. nia.
Qed.

Lemma Zdigits2_mul_ge a b :
  0 < a -> 0 < b -> Zdigits2 a + Zdigits2 b - 1 <= Zdigits2 (a * b).
Proof.
  intros Ha Hb.
  pose proof (Zdigits2_bounds a Ha) as [Hla _].
  pose proof (Zdigits2_bounds b Hb) as [Hlb _].
  pose proof (Zdigits2_bounds (a * b) ltac:(nia)) as [_ Hhab].
  pose proof (Zdigits2_pos a Ha). pose proof (Zdigits2_pos b Hb).
  destruct (Z.le_gt_cases (Zdigits2 a + Zdigits2 b - 1) (Zdigits2 (a * b)))
    as [|Hgt]; [assumption|].
  assert (Hpow : 2 ^ Zdigits2 (a * b) <= 2 ^ (Zdigits2 a - 1 + (Zdigits2 b - 1))).
  { apply Z.pow_le_mono_r; [lia|]. lia. }
  rewrite Z.pow_add_r in Hpow by lia.
  assert (0 < 2 ^ (Zdigits2 a - 1)) by (apply Z.pow_pos_nonneg; lia).
  assert (0 < 2 ^ (Zdigits2 b - 1)) by (apply Z.pow_pos_nonneg; lia).
  nia.
Qed.

Lemma Zdigits2_div_ge a b :
  0 < a -> 0 < b -> Zdigits2 a - Zdigits2 b <= Zdigits2 (a / b).
Proof.
  intros Ha Hb.
  pose proof (Zdigits2_bounds a Ha) as [Hla Hha].
  pose proof (Zdigits2_bounds b Hb) as [Hlb Hhb].
  pose proof (Zdigits2_pos a Ha). pose proof (Zdigits2_pos b Hb).
  destruct (Z.lt_ge_cases a b) as [Hab | Hab].
  - rewrite Z.div_small by lia. simpl.
    pose proof (Zdigits2_mono a b ltac:(lia)). lia.
  - assert (Hq : 0 < a / b) by (apply Z.div_str_pos; lia).
    pose proof (Zdigits2_bounds _ Hq) as [_ Hhq].
    pose proof (Zdigits2_pos _ Hq) as Hdq.
    destruct (Z.le_gt_cases (Zdigits2 a - Zdigits2 b) (Zdigits2 (a / b)))
      as [|Hgt]; [assumption|].
    assert (Hpow : 2 ^ Zdigits2 (a / b) <= 2 ^ (Zdigits2 a - Zdigits2 b - 1))
      by (apply Z.pow_le_mono_r; lia).
    assert (Hsplit : 2 ^ (Zdigits2 a - 1)
                     = 2 ^ (Zdigits2 a - Zdigits2 b - 1) * 2 ^ Zdigits2 b).
    { rewrite <- Z.pow_add_r by lia. f_equal. lia. }
    pose proof (Z.div_mod a b ltac:(lia)) as Hdm.
    pose proof (Z.mod_pos_bound a b Hb) as Hr.
    assert (0 < 2 ^ (Zdigits2 a - Zdigits2 b - 1))
      by (apply Z.pow_pos_nonneg; lia).
    nia.
Qed.

Lemma iter_xO_value p d : Zpos (Pos.iter xO p d) = Zpos p * 2 ^ Zpos d.
Proof.
  induction d as [|d IH] using Pos.peano_ind.
  - simpl. lia.
  - rewrite Pos.iter_succ, Pos2Z.inj_succ, Z.pow_succ_r by lia.
    rewrite Pos2Z.inj_xO, IH. lia.
Qed.

Lemma binary_round_valid s p e : valid (binary_round prec emax s p e) = true.
Proof.
  unfold binary_round, shl_align.
  destruct (fexp (Zpos (digits2_pos p) + e) - e) as [|d|d] eqn:Hd.
  - apply binary_round_aux_valid; [lia|]. simpl Zdigits2. lia.
  - apply binary_round_aux_valid; [lia|]. simpl Zdigits2. lia.
  - apply binary_round_aux_valid; [lia|].
    rewrite iter_xO_value, Zdigits2_mul_pow2 by lia. simpl Zdigits2.
    replace (Zpos (digits2_pos p) + Zpos d + fexp (Zpos (digits2_pos p) + e))
      with (Zpos (digits2_pos p) + e) by lia.
    lia.
Qed.

Lemma of_uint_valid z : valid (of_uint z) = true.
Proof.
  unfold of_uint, binary_normalize.
  destruct z; [reflexivity | apply binary_round_valid..].
Qed.

Lemma valid_canonical s m e :
  valid (S754_finite s m e) = true ->
  fexp (Zpos (digits2_pos m) + e) = e /\ e <= emax - prec.
Proof.
  unfold valid, valid_binary, bounded, canonical_mantissa.
  intros H. apply andb_true_iff in H as [Hc He].
  apply Z.eqb_eq in Hc. apply Z.leb_le in He. auto.
Qed.

Lemma mul_valid x y :
  valid x = true -> valid y = true -> valid (mul x y) = true.
Proof.
  destruct x as [sx | sx | | sx mx ex], y as [sy | sy | | sy my ey];
    try reflexivity.
  intros Hx Hy. apply (valid_canonical sx) in Hx as [Hx _].
  apply (valid_canonical sy) in Hy as [Hy _].
  unfold mul, SFmul. apply binary_round_aux_valid; [lia|].
  pose proof (Zdigits2_mul_ge (Zpos mx) (Zpos my) ltac:(lia) ltac:(lia)) as Hd.
  simpl Zdigits2 in Hd.
  change (Zpos mx * Zpos my) with (Zpos (mx * my)) in Hd.
  simpl Zdigits2.
  pose proof (Pos2Z.is_pos (digits2_pos mx)).
  pose proof (Pos2Z.is_pos (digits2_pos my)).
  unfold SpecFloat.fexp, SpecFloat.emin, prec, emax in *. lia.
Qed.

Lemma div_valid x y : valid (div x y) = true.
Proof.
  destruct x as [sx | sx | | sx mx ex], y as [sy | sy | | sy my ey];
    try reflexivity.
  unfold div, SFdiv, SFdiv_core_binary.
  set (d1 := Zdigits2 (Zpos mx)). set (d2 := Zdigits2 (Zpos my)).
  set (e' := Z.min (fexp (d1 + ex - (d2 + ey))) (ex - ey)).
  set (m' := match ex - ey - e' with
             | 0 => Zpos mx
             | Zpos _ => Z.shiftl (Zpos mx) (ex - ey - e')
             | Zneg _ => 0
             end).
  assert (Hm' : m' = Zpos mx * 2 ^ (ex - ey - e')).
  { unfold m'. destruct (ex - ey - e') as [|s|s] eqn:Hs.
    - simpl. lia.
    - rewrite Z.shiftl_mul_pow2 by lia. reflexivity.
    - unfold e' in Hs. lia. }
  assert (Hs : 0 <= ex - ey - e') by (unfold e'; lia).
  assert (Hp : 0 < 2 ^ (ex - ey - e')) by (apply Z.pow_pos_nonneg; lia).
  pose proof (Z_div_mod m' (Zpos my) ltac:(lia)) as Hdiv.
  unfold Z.div in *. 
  destruct (Z.div_eucl m' (Zpos my)) as [q r] eqn:Hqr.
  destruct Hdiv as [Hdiv Hr].
  assert (Hq : q = m' / Zpos my) by (unfold Z.div; rewrite Hqr; reflexivity).
  apply binary_round_aux_valid.
  - rewrite Hq. apply Z.div_pos; nia.
  - pose proof (Zdigits2_div_ge m' (Zpos my) ltac:(nia) ltac:(lia)) as Hd.
    rewrite <- Hq in Hd. rewrite Hm' in Hd at 1.
    rewrite Zdigits2_mul_pow2 in Hd by lia.
    fold d1 d2 in Hd.
    apply Z.le_trans with (fexp (d1 + ex - (d2 + ey))); [unfold e'; lia|].
    apply fexp_mono. lia.
Qed.

(** Multiplying a datum of the format by 1 changes nothing. *)
Lemma mul_one_r x : valid x = true -> mul x one = x.
Proof.
  change one with (S754_finite false 8388608 (-23)).
  destruct x as [sx | sx | | sx mx ex]; simpl;
    try (rewrite xorb_false_r; reflexivity); try reflexivity.
  intros Hx. apply (valid_canonical sx) in Hx as [Hc He].
  unfold mul, SFmul. rewrite xorb_false_r.
  unfold binary_round_aux, shr_fexp.
  rewrite (Pos.mul_comm mx 8388608).
  change (Zpos (8388608 * mx))
    with (Zpos mx~0~0~0~0~0~0~0~0~0~0~0~0~0~0~0~0~0~0~0~0~0~0~0).
  assert (Hd : Zdigits2 (Zpos mx~0~0~0~0~0~0~0~0~0~0~0~0~0~0~0~0~0~0~0~0~0~0~0)
               = Zpos (digits2_pos mx) + 23).
  { simpl. lia. }
  rewrite Hd.
  replace (Zpos (digits2_pos mx) + 23 + (ex + -23))
    with (Zpos (digits2_pos mx) + ex) by lia.
  rewrite Hc. replace (ex - (ex + -23)) with 23 by lia.
  cbn -[SpecFloat.fexp Z.add Z.sub].
  replace (ex + -23 + 23) with ex by lia.
  rewrite Hc, Z.sub_diag. cbn -[Z.leb Z.sub].
  apply Z.leb_le in He. rewrite He. reflexivity.
Qed.

End F32Valid.

(** ** The rewrites of [sanitize_workload] *)

Module RewritesFacts.
Import Rewrites CostModel.

Lemma set_op_op o w : op (set_op o w) = o.
Proof. reflexivity. Qed.

Lemma avgpool_other w : op w <> AVEPOOL -> avgpool_replace_by w = w.
Proof.
  intros H. unfold avgpool_replace_by.
  rewrite bool_decide_eq_false_2; auto.
Qed.

Lemma avgpool_hit w : op w = AVEPOOL -> avgpool_replace_by w = set_op DW_CONVOLUTION w.
Proof.
  intros H. unfold avgpool_replace_by.
  rewrite bool_decide_eq_true_2; auto.
Qed.

Lemma avgpool_never_gives_avepool w : op (avgpool_replace_by w) <> AVEPOOL.
Proof.
  unfold avgpool_replace_by. case_bool_decide; simpl; congruence.
Qed.

Lemma channels_check_op w :
  op (channels_preserving_operations_consistency_check w) = op w.
Proof.
  unfold channels_preserving_operations_consistency_check.
  destruct (is_channels_preserving (op w)); [|reflexivity].
  destruct (negb _); reflexivity.
Qed.

Lemma channels_check_outputs w :
  outputs_0 (channels_preserving_operations_consistency_check w) = outputs_0 w.
Proof.
  unfold channels_preserving_operations_consistency_check.
  destruct (is_channels_preserving (op w)); [|reflexivity].
  destruct (negb _); reflexivity.
Qed.

Lemma compress_device_channels w :
  inputs_0 (compressConv_replace_by_CM_CONV_VPU27 w) = inputs_0 w /\
  outputs_0 (compressConv_replace_by_CM_CONV_VPU27 w) = outputs_0 w /\
  device (compressConv_replace_by_CM_CONV_VPU27 w) = device w.
Proof.
  unfold compressConv_replace_by_CM_CONV_VPU27.
  destruct (_ <=? _); [|auto]. destruct (_ && _); auto.
Qed.

(** The report and the workload [sanitize_workload] returns are those of
    the device sanitizer run on the rewritten workload. *)
Lemma sanitize_workload_unfold m wl :
  sanitize_workload m wl =
  let r := check_and_sanitize (sanitizer m) (presanitize wl) in
  (r.1, r.2, is_usable (cycles_codes m) r.2).
Proof.
  unfold sanitize_workload, presanitize, rewritten.
  destruct (check_and_sanitize _ _); reflexivity.
Qed.

(** C3.  On a device at or above VPU 2.7, a CONVOLUTION with
    [1 < input channels < 16] leaves sanitization as CM_CONVOLUTION (the
    device sanitizer keeping the operation); on every other workload the
    rewrite [compressConv_replace_by_CM_CONV_VPU27] changes nothing. *)
Theorem compressed_conv_rewrite (m : VPUCostModel) (wl : DPUWorkload) :
  (forall w, op (check_and_sanitize (sanitizer m) w).1 = op w) ->
  (VPUDevice_value VPU_2_7 <= VPUDevice_value (device wl) ->
   op wl = CONVOLUTION ->
   1 < t_channels (inputs_0 wl) < 16 ->
   op (sanitize_workload m wl).1.1 = CM_CONVOLUTION) /\
  (~ (VPUDevice_value VPU_2_7 <= VPUDevice_value (device wl) /\
      op wl = CONVOLUTION /\ 1 < t_channels (inputs_0 wl) < 16) ->
   compressConv_replace_by_CM_CONV_VPU27 wl = wl).
Proof.
  intros Hkeep. split.
  - intros Hdev Hop Hc.
    rewrite sanitize_workload_unfold. simpl. rewrite Hkeep.
    unfold presanitize, rewritten. rewrite channels_check_op.
    rewrite avgpool_other by congruence.
    unfold compressConv_replace_by_CM_CONV_VPU27.
    rewrite (proj2 (Z.leb_le _ _) Hdev).
    rewrite bool_decide_eq_true_2 by assumption.
    rewrite (proj2 (Z.ltb_lt _ _) (proj1 Hc)).
    rewrite (proj2 (Z.ltb_lt _ _) (proj2 Hc)).
    reflexivity.
  - intros Hnot. unfold compressConv_replace_by_CM_CONV_VPU27.
    destruct (Z.leb_spec (VPUDevice_value VPU_2_7) (VPUDevice_value (device wl)));
      [|reflexivity].
    case_bool_decide; [|reflexivity].
    destruct (Z.ltb_spec 1 (t_channels (inputs_0 wl))); [|reflexivity].
    destruct (Z.ltb_spec (t_channels (inputs_0 wl)) 16); [|reflexivity].
    exfalso. apply Hnot. auto.
Qed.

Lemma compressed_conv_rewrite_witness :
  op (sanitize_workload (Demo.model true id) (Demo.workload VPU_2_7 CONVOLUTION 8 64)).1.1
    = CM_CONVOLUTION /\
  compressConv_replace_by_CM_CONV_VPU27 (Demo.workload VPU_2_0 CONVOLUTION 8 64)
    = Demo.workload VPU_2_0 CONVOLUTION 8 64.
Proof.
  pose proof (compressed_conv_rewrite (Demo.model true id)
                (Demo.workload VPU_2_7 CONVOLUTION 8 64)
                (fun w => eq_refl)) as [H1 _].
  pose proof (compressed_conv_rewrite (Demo.model true id)
                (Demo.workload VPU_2_0 CONVOLUTION 8 64)
                (fun w => eq_refl)) as [_ H2].
  split.
  - apply H1; simpl; [lia | reflexivity | lia].
  - apply H2. simpl. lia.
Defined.

Lemma channels_check_preserving w :
  is_channels_preserving (op w) = true ->
  let w' := channels_preserving_operations_consistency_check w in
  t_channels (inputs_0 w') = t_channels (outputs_0 w) /\
  t_x (inputs_0 w') = t_x (inputs_0 w) /\
  t_y (inputs_0 w') = t_y (inputs_0 w) /\
  t_b (inputs_0 w') = t_b (inputs_0 w).
Proof.
  intros Hp. unfold channels_preserving_operations_consistency_check.
  rewrite Hp.
  destruct (Z.eqb_spec (t_channels (inputs_0 w)) (t_channels (outputs_0 w)));
    simpl; auto.
Qed.

(** C4.  When the operation after the two operation rewrites is ELTWISE,
    DW_CONVOLUTION, MAXPOOL or AVEPOOL, the sanitized workload has equal
    input-0 and output-0 channel counts (the device sanitizer keeping the
    channel counts); the consistency check gets there by writing the output
    channel count into the input shape: the output tensor and the input
    [x], [y] and batch are as before. *)
Theorem channel_preserving_consistency (m : VPUCostModel) (wl : DPUWorkload) :
  (forall w,
     t_channels (inputs_0 (check_and_sanitize (sanitizer m) w).1)
       = t_channels (inputs_0 w) /\
     t_channels (outputs_0 (check_and_sanitize (sanitizer m) w).1)
       = t_channels (outputs_0 w)) ->
  is_channels_preserving (op (rewritten wl)) = true ->
  let checked := channels_preserving_operations_consistency_check (rewritten wl) in
  let sanitized := (sanitize_workload m wl).1.1 in
  t_channels (inputs_0 sanitized) = t_channels (outputs_0 sanitized) /\
  t_channels (inputs_0 checked) = t_channels (outputs_0 (rewritten wl)) /\
  outputs_0 checked = outputs_0 (rewritten wl) /\
  t_x (inputs_0 checked) = t_x (inputs_0 (rewritten wl)) /\
  t_y (inputs_0 checked) = t_y (inputs_0 (rewritten wl)) /\
  t_b (inputs_0 checked) = t_b (inputs_0 (rewritten wl)).
Proof.
  intros Hkeep Hp checked sanitized.
  destruct (channels_check_preserving _ Hp) as (Hc & Hx & Hy & Hb).
  fold checked in Hc, Hx, Hy, Hb.
  assert (Hout : outputs_0 checked = outputs_0 (rewritten wl))
    by apply channels_check_outputs.
  repeat split; try assumption.
  subst sanitized. rewrite sanitize_workload_unfold. simpl.
  destruct (Hkeep (presanitize wl)) as [Hi Ho]. rewrite Hi, Ho.
  change (presanitize wl) with checked. rewrite Hout. exact Hc.
Qed.

Lemma channel_preserving_consistency_witness :
  t_channels (inputs_0 (sanitize_workload (Demo.model true id)
                          (Demo.workload VPU_2_7 MAXPOOL 7 64)).1.1) = 64.
Proof.
  pose proof (channel_preserving_consistency (Demo.model true id)
                (Demo.workload VPU_2_7 MAXPOOL 7 64)
                (fun w => conj eq_refl eq_refl) eq_refl) as [H _].
  rewrite H. reflexivity.
Defined.

(** C8.  An AVEPOOL workload leaves sanitization as DW_CONVOLUTION (the
    device sanitizer keeping the operation); [avgpool_replace_by] writes
    only the operation field, and leaves every workload of another
    operation as it is. *)
Theorem avgpool_rewrite (m : VPUCostModel) (wl : DPUWorkload) :
  (forall w, op (check_and_sanitize (sanitizer m) w).1 = op w) ->
  (op wl = AVEPOOL ->
   op (sanitize_workload m wl).1.1 = DW_CONVOLUTION /\
   avgpool_replace_by wl = set_op DW_CONVOLUTION wl) /\
  (op wl <> AVEPOOL -> avgpool_replace_by wl = wl).
Proof.
  intros Hkeep. split.
  - intros Hop. split; [|apply avgpool_hit; assumption].
    rewrite sanitize_workload_unfold. simpl. rewrite Hkeep.
    unfold presanitize, rewritten. rewrite channels_check_op.
    rewrite (avgpool_hit _ Hop).
    unfold compressConv_replace_by_CM_CONV_VPU27.
    destruct (_ <=? _); [|reflexivity].
    rewrite set_op_op. rewrite bool_decide_eq_false_2 by discriminate.
    reflexivity.
  - apply avgpool_other.
Qed.

Lemma avgpool_rewrite_witness :
  op (sanitize_workload (Demo.model true id)
        (Demo.workload VPU_2_7 AVEPOOL 256 256)).1.1 = DW_CONVOLUTION /\
  avgpool_replace_by (Demo.workload VPU_2_7 MAXPOOL 256 256)
    = Demo.workload VPU_2_7 MAXPOOL 256 256.
Proof.
  pose proof (avgpool_rewrite (Demo.model true id)
                (Demo.workload VPU_2_7 AVEPOOL 256 256)
                (fun w => eq_refl)) as [H1 _].
  pose proof (avgpool_rewrite (Demo.model true id)
                (Demo.workload VPU_2_7 MAXPOOL 256 256)
                (fun w => eq_refl)) as [_ H2].
  split.
  - apply H1. reflexivity.
  - apply H2. discriminate.
Defined.

End RewritesFacts.

(** ** The single-workload path *)

Module SinglePathFacts.
Import F32 F32Facts CostModel RewritesFacts.

Lemma high_threshold_value : high_threshold = S754_finite false 15625000 8.
Proof. reflexivity. Qed.

(** A number of the format that passes [is_NN_value_invalid] has its
    ceiling between 0 and 4 000 000 000. *)
Lemma accepted_ceil (raw : float) :
  valid raw = true -> is_nan raw = false ->
  is_NN_value_invalid raw = false ->
  exists n, Zceil raw = Some n /\ 0 <= n <= 4000000000.
Proof.
  intros Hv Hn Hi. unfold is_NN_value_invalid in Hi.
  apply orb_false_iff in Hi as [Hhi Hlo].
  destruct raw as [s | s | | s m e]; try discriminate.
  - exists 0. split; [reflexivity | lia].
  - destruct s; discriminate.
  - destruct s; [discriminate|].
    apply valid_finite_bounds in Hv as [Hm He].
    rewrite high_threshold_value in Hhi.
    unfold gt, SFltb, SFcompare in Hhi.
    assert (Hp : 0 < 2 ^ 24) by (apply Z.pow_pos_nonneg; lia).
    unfold Zceil. destruct (Z.leb_spec 0 e) as [He0 | He0].
    + eexists. split; [reflexivity|].
      destruct (Z.compare_spec 8 e) as [He8 | He8 | He8]; try discriminate.
      * subst e. rewrite Pos.compare_cont_spec in Hhi.
        unfold Pos.switch_Eq in Hhi.
        assert (Hle : (m <= 15625000)%positive).
        { unfold Pos.le. rewrite Pos.compare_antisym.
          destruct (15625000 ?= m)%positive; simpl; congruence. }
        assert (Hz : Zpos m <= 15625000) by exact Hle.
        clear Hle Hhi Hm Hp. change (2 ^ 8) with 256.
        pose proof (Pos2Z.is_pos m). lia.
      * assert (2 ^ e <= 2 ^ 7) by (apply Z.pow_le_mono_r; lia).
        assert (0 < 2 ^ e) by (apply Z.pow_pos_nonneg; lia).
        change (2 ^ 7) with 128 in *. change (2 ^ 24) with 16777216 in *.
        nia.
    + assert (Hd : 0 < 2 ^ (- e)) by (apply Z.pow_pos_nonneg; lia).
      pose proof (Z.div_le_upper_bound (Zpos m) (2 ^ (- e)) (Zpos m) Hd
                    ltac:(nia)) as Hq.
      pose proof (Z.div_pos (Zpos m) (2 ^ (- e)) ltac:(lia) Hd) as Hq0.
      change (2 ^ 24) with 16777216 in *.
      eexists. split; [reflexivity|].
      destruct (_ =? 0); lia.
Qed.

Lemma DPU_unfold m wl st :
  DPU m wl st =
  let r := check_and_sanitize (sanitizer m) (Rewrites.presanitize wl) in
  if is_usable (cycles_codes m) r.2 then
    if nn_initialized m then
      match run_NN m r.1 st with
      | Some (nn_output_cycles, st') =>
          if is_NN_value_invalid nn_output_cycles then
            Some (ERROR_INVALID_OUTPUT_RANGE (cycles_codes m), st')
          else
            match ceil_cycles nn_output_cycles with
            | Some c => Some (c, st')
            | None => None
            end
      | None => None
      end
    else Some (wrap32 (DPUTheoreticalCycles (performance m) r.1), st)
  else Some (value r.2, st).
Proof.
  unfold DPU, DPU_and_sanitize. rewrite sanitize_workload_unfold. simpl.
  destruct (is_usable _ _); [|reflexivity].
  destruct (nn_initialized m); [|reflexivity].
  unfold bind. destruct (run_NN _ _ _) as [[x st']|]; [|reflexivity].
  destruct (is_NN_value_invalid x); [reflexivity|].
  unfold lift. destruct (ceil_cycles x); reflexivity.
Qed.

(** C1, as the code has it.  For a workload that passes sanitization with
    the network initialized, and a raw output [raw] of the format: when
    [raw] is a number, [DPU] answers [ERROR_INVALID_OUTPUT_RANGE] exactly
    when [raw < 0] or [raw > high_threshold], and otherwise answers
    [ceil(raw)], a count between 0 and 4 000 000 000.  Both ends of the
    interval are accepted: a raw output of 0 gives 0 cycles and a raw output
    of exactly 4 000 000 000 gives 4 000 000 000 cycles.  A NaN passes the
    range check and its conversion to a count is undefined.  (The error
    code lies above every accepted count.) *)
Theorem DPU_output_range (m : VPUCostModel) (wl : DPUWorkload)
    (st st' : ModelState) (raw : float) :
  let r := check_and_sanitize (sanitizer m) (Rewrites.presanitize wl) in
  let ERROR := ERROR_INVALID_OUTPUT_RANGE (cycles_codes m) in
  is_usable (cycles_codes m) r.2 = true ->
  nn_initialized m = true ->
  run_NN m r.1 st = Some (raw, st') ->
  valid raw = true ->
  4000000000 < ERROR ->
  (is_nan raw = false ->
   (DPU m wl st = Some (ERROR, st') <->
    F32.lt raw low_threshold = true \/ F32.gt raw high_threshold = true)) /\
  (is_nan raw = false ->
   F32.lt raw low_threshold = false -> F32.gt raw high_threshold = false ->
   exists n, Zceil raw = Some n /\ 0 <= n <= 4000000000 /\
             DPU m wl st = Some (n, st')) /\
  (raw = F32.zero -> DPU m wl st = Some (0, st')) /\
  (raw = high_threshold -> DPU m wl st = Some (4000000000, st')) /\
  (raw = S754_nan -> DPU m wl st = None).
Proof.
  intros r ERROR Hok Hinit Hrun Hv Herr.
  assert (Hdpu : DPU m wl st =
            if is_NN_value_invalid raw then Some (ERROR, st')
            else match ceil_cycles raw with
                 | Some c => Some (c, st') | None => None end).
  { rewrite DPU_unfold. fold r. cbv zeta. rewrite Hok, Hinit, Hrun.
    reflexivity. }
  assert (Hacc : is_nan raw = false -> is_NN_value_invalid raw = false ->
            exists n, Zceil raw = Some n /\ 0 <= n <= 4000000000 /\
                      DPU m wl st = Some (n, st')).
  { intros Hn Hi. destruct (accepted_ceil raw Hv Hn Hi) as (n & Hc & Hb).
    exists n. split; [assumption|]. split; [assumption|].
    rewrite Hdpu, Hi. unfold ceil_cycles, to_uint32. rewrite Hc.
    destruct (Z.leb_spec 0 n); [|lia].
    destruct (Z.ltb_spec n (2 ^ 32)); [reflexivity|].
    change (2 ^ 32) with 4294967296 in *. lia. }
  split; [|split; [|split; [|split]]].
  - intros Hn. split.
    + intros Heq.
      destruct (is_NN_value_invalid raw) eqn:Hi.
      * unfold is_NN_value_invalid in Hi. apply orb_true_iff in Hi. tauto.
      * destruct (Hacc Hn eq_refl) as (n & _ & Hb & Hd).
        rewrite Hd in Heq. injection Heq as Heq. lia.
    + intros Hor. rewrite Hdpu.
      unfold is_NN_value_invalid.
      destruct Hor as [-> | ->]; [rewrite orb_true_r | rewrite orb_true_l];
        reflexivity.
  - intros Hn Hlo Hhi.
    destruct (Hacc Hn) as (n & Hc & Hb & Hd).
    { unfold is_NN_value_invalid. rewrite Hlo, Hhi. reflexivity. }
    exists n. auto.
  - intros ->. rewrite Hdpu. reflexivity.
  - intros ->. rewrite Hdpu. reflexivity.
  - intros ->. rewrite Hdpu. reflexivity.
Qed.

Lemma DPU_output_range_witness :
  DPU (Demo.model true (fun _ => F32.dec 25 10))
      (Demo.workload VPU_2_7 CONVOLUTION 64 64) Demo.state0
  = Some (3, mkState
               (mkCache (Z.to_nat 16384) [([F32.of_uint 64], F32.dec 25 10)])
               [] [[F32.of_uint 64]]).
Proof.
  pose proof (DPU_output_range (Demo.model true (fun _ => F32.dec 25 10))
                (Demo.workload VPU_2_7 CONVOLUTION 64 64) Demo.state0
                (mkState
                   (mkCache (Z.to_nat 16384) [([F32.of_uint 64], F32.dec 25 10)])
                   [] [[F32.of_uint 64]])
                (F32.dec 25 10)
                eq_refl eq_refl eq_refl eq_refl eq_refl) as (_ & H & _).
  destruct (H eq_refl eq_refl eq_refl) as (n & Hc & _ & Hd).
  injection Hc as <-. exact Hd.
Defined.

(** Against C1 as worded, at the upper end: a raw output of exactly
    [high_threshold] is accepted and reported as 4 000 000 000 cycles. *)
Lemma DPU_accepts_high_threshold :
  (sanitize_workload (Demo.model true (fun _ => high_threshold))
     (Demo.workload VPU_2_7 CONVOLUTION 64 64)).2 = true /\
  nn_initialized (Demo.model true (fun _ => high_threshold)) = true /\
  fst <$> run_NN (Demo.model true (fun _ => high_threshold))
            (sanitize_workload (Demo.model true (fun _ => high_threshold))
               (Demo.workload VPU_2_7 CONVOLUTION 64 64)).1.1 Demo.state0
    = Some (F32.of_uint 4000000000) /\
  fst <$> DPU (Demo.model true (fun _ => high_threshold))
            (Demo.workload VPU_2_7 CONVOLUTION 64 64) Demo.state0
    = Some 4000000000 /\
  4000000000 <> ERROR_INVALID_OUTPUT_RANGE
                  (cycles_codes (Demo.model true (fun _ => high_threshold))).
Proof. repeat split. discriminate. Qed.

(** C9.  When the report of the sanitizer is not usable, [DPU] answers the
    value of the report and the state is untouched: nothing is added to the
    log of inferences or to the cache.  When the report is usable and the
    network is not initialized, [DPU] answers [DPUTheoreticalCycles] of the
    sanitized workload, converted to the 32-bit return type. *)
Theorem DPU_without_inference (m : VPUCostModel) (wl : DPUWorkload)
    (st : ModelState) :
  let r := check_and_sanitize (sanitizer m) (Rewrites.presanitize wl) in
  let theoretical := DPUTheoreticalCycles (performance m) r.1 in
  (is_usable (cycles_codes m) r.2 = false ->
   DPU m wl st = Some (value r.2, st)) /\
  (is_usable (cycles_codes m) r.2 = true -> nn_initialized m = false ->
   DPU m wl st = Some (wrap32 theoretical, st) /\
   (0 <= theoretical < 2 ^ 32 -> DPU m wl st = Some (theoretical, st))).
Proof.
  intros r theoretical. split.
  - intros Hbad. rewrite DPU_unfold. fold r. cbv zeta. rewrite Hbad.
    reflexivity.
  - intros Hok Hinit.
    assert (H : DPU m wl st = Some (wrap32 theoretical, st)).
    { rewrite DPU_unfold. fold r. cbv zeta. rewrite Hok, Hinit. reflexivity. }
    split; [exact H|].
    intros Hb. rewrite H. unfold wrap32. rewrite Z.mod_small by exact Hb.
    reflexivity.
Qed.

Lemma DPU_without_inference_witness :
  DPU (Demo.model true id) (Demo.workload VPU_2_7 OP_Invalid 64 64) Demo.state0
    = Some (4294967293, Demo.state0) /\
  DPU (Demo.model false id) (Demo.workload VPU_2_7 CONVOLUTION 64 64) Demo.state0
    = Some (4096, Demo.state0).
Proof.
  split.
  - exact (proj1 (DPU_without_inference (Demo.model true id)
                    (Demo.workload VPU_2_7 OP_Invalid 64 64) Demo.state0)
             eq_refl).
  - refine (proj2 (proj2 (DPU_without_inference (Demo.model false id)
                     (Demo.workload VPU_2_7 CONVOLUTION 64 64) Demo.state0)
              eq_refl eq_refl) _).
    simpl. lia.
Defined.

End SinglePathFacts.

(** ** The power-factor table *)

Module PowerFacts.
Import F32 F32Order Power.

Lemma increasing_In lo table k v :
  increasing lo table -> In (k, v) table -> lo < k < max_ch_log2.
Proof.
  revert lo. induction table as [|[p vp] rest IH]; intros lo Hinc Hin.
  - destruct Hin.
  - destruct Hinc as (Hlo & Hmax & Hrest). destruct Hin as [[= -> ->] | Hin].
    + lia.
    + specialize (IH p Hrest Hin). lia.
Qed.

Lemma table_at_absent_low lo table key :
  increasing lo table -> key <= lo -> table_at table key = Raises std_out_of_range.
Proof.
  revert lo. induction table as [|[p vp] rest IH]; intros lo Hinc Hle.
  - reflexivity.
  - destruct Hinc as (Hlo & Hmax & Hrest). simpl.
    destruct (Z.eqb_spec p key); [lia|]. apply (IH p Hrest). lia.
Qed.

Lemma table_at_absent_high lo table key :
  increasing lo table -> max_ch_log2 <= key ->
  table_at table key = Raises std_out_of_range.
Proof.
  revert lo. induction table as [|[p vp] rest IH]; intros lo Hinc Hle.
  - reflexivity.
  - destruct Hinc as (Hlo & Hmax & Hrest). simpl.
    destruct (Z.eqb_spec p key); [lia|]. apply (IH p Hrest). lia.
Qed.

Lemma table_at_In lo table k v :
  increasing lo table -> In (k, v) table -> table_at table k = Returns v.
Proof.
  revert lo. induction table as [|[p vp] rest IH]; intros lo Hinc Hin.
  - destruct Hin.
  - destruct Hinc as (Hlo & Hmax & Hrest). simpl.
    destruct Hin as [[= -> ->] | Hin].
    + rewrite Z.eqb_refl. reflexivity.
    + pose proof (increasing_In _ _ _ _ Hrest Hin).
      destruct (Z.eqb_spec p k); [lia|]. apply (IH p Hrest Hin).
Qed.

(** Once [greater] is a key above [x], the later keys change nothing. *)
Lemma neighbours_after x post : forall lo s g,
  increasing lo post -> lt x (of_uint g) = true ->
  0 <= g -> g <= lo -> s <> g ->
  neighbours x post s g = (s, g).
Proof.
  induction post as [|[q vq] rest IH]; intros lo s g Hinc Hx Hg0 Hg Hsg.
  - reflexivity.
  - destruct Hinc as (Hlo & Hmax & Hrest). unfold max_ch_log2 in Hmax.
    destruct (key_above x g q Hx) as [Hle _]; [lia..|].
    simpl. rewrite Hle. simpl.
    replace (q <? g) with false by (symmetry; apply Z.ltb_ge; lia).
    rewrite andb_false_r.
    destruct (Z.eqb_spec s g); [contradiction|].
    apply (IH q); auto; lia.
Qed.

(** [x] strictly between two adjacent keys [s] and [g]: they are found. *)
Lemma neighbours_between x s fs g fg post pre : forall lo cur,
  increasing lo (pre ++ (s, fs) :: (g, fg) :: post) ->
  0 <= lo -> cur <= lo ->
  lt (of_uint s) x = true -> lt x (of_uint g) = true ->
  neighbours x (pre ++ (s, fs) :: (g, fg) :: post) cur max_ch_log2 = (s, g).
Proof.
  unfold max_ch_log2.
  induction pre as [|[p vp] pre IH]; intros lo cur Hinc Hlo Hcur Hs Hg.
  - simpl in Hinc. destruct Hinc as (H1 & H2 & H3 & H4 & Hpost).
    unfold max_ch_log2 in *.
    destruct (key_below x s s Hs) as [Hle Hge]; [lia..|].
    destruct (key_above x g g Hg) as [Hle' Hge']; [lia..|].
    simpl. rewrite Hle, Hge, Hle', Hge'. simpl.
    replace (cur <? s) with true by (symmetry; apply Z.ltb_lt; lia).
    destruct (Z.eqb_spec s 13); [lia|].
    replace (g <? 13) with true by (symmetry; apply Z.ltb_lt; lia).
    destruct (Z.eqb_spec s g); [lia|].
    apply (neighbours_after x post g); auto; lia.
  - simpl in Hinc. destruct Hinc as (H1 & H2 & Hrest).
    unfold max_ch_log2 in *.
    assert (Hps : p < s).
    { apply (increasing_In _ _ s fs) in Hrest; [lia|].
      apply in_or_app. right. left. reflexivity. }
    assert (Hs13 : s < 13).
    { apply (increasing_In _ _ s fs) in Hrest; [unfold max_ch_log2 in *; lia|].
      apply in_or_app. right. left. reflexivity. }
    destruct (key_below x s p Hs) as [Hle Hge]; [lia..|].
    simpl. rewrite Hle, Hge. simpl.
    replace (cur <? p) with true by (symmetry; apply Z.ltb_lt; lia).
    destruct (Z.eqb_spec p 13); [lia|].
    apply (IH p p); auto; lia.
Qed.

(** [x] equal to the conversion of a key: both neighbours are that key. *)
Lemma neighbours_exact k v table : forall lo cur,
  increasing lo table -> 0 <= lo -> cur <= lo -> In (k, v) table ->
  neighbours (of_uint k) table cur max_ch_log2 = (k, k).
Proof.
  unfold max_ch_log2.
  induction table as [|[p vp] rest IH]; intros lo cur Hinc Hlo Hcur Hin.
  - destruct Hin.
  - destruct Hinc as (H1 & H2 & Hrest). unfold max_ch_log2 in *.
    destruct (Z.eq_dec p k) as [-> | Hne].
    + pose proof (of_uint_small_le k k ltac:(lia) ltac:(lia) ltac:(lia)) as Hkk.
      unfold le in Hkk. simpl. unfold ge, le. rewrite !Hkk. simpl.
      replace (cur <? k) with true by (symmetry; apply Z.ltb_lt; lia).
      replace (k <? 13) with true by (symmetry; apply Z.ltb_lt; lia).
      rewrite Z.eqb_refl. reflexivity.
    + destruct Hin as [[= ? ?] | Hin]; [contradiction|].
      pose proof (increasing_In _ _ _ _ Hrest Hin) as Hk.
      unfold max_ch_log2 in Hk.
      assert (Hpk : lt (of_uint p) (of_uint k) = true)
        by (apply of_uint_small_lt; lia).
      pose proof (lt_le _ _ Hpk) as Hple. pose proof (lt_not_le _ _ Hpk) as Hpge.
      unfold le in Hple, Hpge.
      simpl. unfold ge, le. rewrite Hple, Hpge. simpl.
      replace (cur <? p) with true by (symmetry; apply Z.ltb_lt; lia).
      destruct (Z.eqb_spec p 13); [lia|].
      apply (IH p p); auto; lia.
Qed.

(** [x] strictly below the first key: [smaller] stays 0. *)
Lemma neighbours_below x k v rest :
  increasing 0 ((k, v) :: rest) -> lt x (of_uint k) = true ->
  neighbours x ((k, v) :: rest) 0 max_ch_log2 = (0, k).
Proof.
  intros (H1 & H2 & Hrest) Hx. unfold max_ch_log2 in *.
  destruct (key_above x k k Hx) as [Hle Hge]; [lia..|].
  simpl. rewrite Hle, Hge. simpl.
  replace (k <? 13) with true by (symmetry; apply Z.ltb_lt; lia).
  destruct k as [|kp|kp]; [lia| |lia].
  apply (neighbours_after x rest (Zpos kp)); auto; lia.
Qed.

(** [x] strictly above the last key: [greater] stays [max_ch_log2]. *)
Lemma neighbours_above x k v pre : forall lo cur,
  increasing lo (pre ++ [(k, v)]) -> 0 <= lo -> cur <= lo ->
  lt (of_uint k) x = true ->
  neighbours x (pre ++ [(k, v)]) cur max_ch_log2 = (k, max_ch_log2).
Proof.
  unfold max_ch_log2.
  induction pre as [|[p vp] pre IH]; intros lo cur Hinc Hlo Hcur Hx.
  - destruct Hinc as (H1 & H2 & _). unfold max_ch_log2 in *.
    destruct (key_below x k k Hx) as [Hle Hge]; [lia..|].
    simpl. rewrite Hle, Hge. simpl.
    replace (cur <? k) with true by (symmetry; apply Z.ltb_lt; lia).
    destruct (Z.eqb_spec k 13); [lia|]. reflexivity.
  - simpl in Hinc. destruct Hinc as (H1 & H2 & Hrest).
    assert (Hk : p < k < max_ch_log2).
    { apply (increasing_In _ _ k v) in Hrest; [lia|].
      apply in_or_app. right. left. reflexivity. }
    unfold max_ch_log2 in *.
    destruct (key_below x k p Hx) as [Hle Hge]; [lia..|].
    simpl. rewrite Hle, Hge. simpl.
    replace (cur <? p) with true by (symmetry; apply Z.ltb_lt; lia).
    destruct (Z.eqb_spec p 13); [lia|].
    apply (IH p p); auto; lia.
Qed.

Example neighbours_of_5_5 :
  neighbours (dec 55 10) [(4, dec 87 100); (5, dec 92 100); (6, one)] 0 13
  = (5, 6).
Proof. reflexivity. Qed.

Example neighbours_of_3 :
  neighbours (of_uint 3) [(4, dec 87 100); (5, dec 92 100); (6, one)] 0 13
  = (0, 4).
Proof. reflexivity. Qed.

(** Every table of the constructor is a well-formed map. *)
Lemma pf_lut_increasing d tables o table :
  In (d, tables) pf_lut -> In (o, table) tables -> increasing 0 table.
Proof.
  unfold pf_lut, vpu_2_0_values, vpu_2_7_values. simpl.
  intros [[= <- <-] | [[= <- <-] | []]] Ho; simpl in Ho;
    repeat (destruct Ho as [[= <- <-] | Ho]; [simpl; unfold max_ch_log2; lia|]);
    destruct Ho.
Qed.

Section WithLog2.

Variable log2f : float -> float.

(** [getValue] on a device and an operation that have a table. *)
Lemma getValue_found lut fp_comp tables table :
  In (vpu_device lut, tables) pf_lut -> In (op_type lut, table) tables ->
  getValue log2f lut fp_comp =
  result_bind (getValueInterpolation log2f lut table)
    (fun v => Returns (getScaledValue v fp_comp (vpu_device lut))).
Proof.
  destruct lut as [ic o d]. unfold pf_lut, vpu_2_0_values, vpu_2_7_values.
  simpl.
  intros [[= <- <-] | [[= <- <-] | []]] Ho; simpl in Ho;
    repeat (destruct Ho as [[= <- <-] | Ho];
            [unfold getValue; simpl;
             destruct (getValueInterpolation _ _ _); reflexivity|]);
    destruct Ho.
Qed.

Lemma zero_lt_small d : 0 < d -> d <= 13 -> gt (of_uint d) zero = true.
Proof. intros. apply (of_uint_small_lt 0 d); lia. Qed.

Lemma wrap32_small d : 0 <= d <= 13 -> wrap32 d = d.
Proof. intros. unfold wrap32. apply Z.mod_small. lia. Qed.

Lemma interpolation_exact lut table k v :
  increasing 0 table -> In (k, v) table ->
  log2f (of_uint (input_ch lut)) = of_uint k ->
  getValueInterpolation log2f lut table = Returns v.
Proof.
  intros Hinc Hin Hx. unfold getValueInterpolation. rewrite Hx.
  rewrite (neighbours_exact k v table 0 0) by (auto; lia).
  rewrite Z.sub_diag. change (gt (of_uint (wrap32 0)) zero) with false.
  cbv iota. apply (table_at_In 0); assumption.
Qed.

Lemma interpolation_between lut pre s fs g fg post :
  let table := pre ++ (s, fs) :: (g, fg) :: post in
  let x := log2f (of_uint (input_ch lut)) in
  increasing 0 table ->
  lt (of_uint s) x = true -> lt x (of_uint g) = true ->
  getValueInterpolation log2f lut table =
  Returns (add (mul (div (sub (of_uint g) x) (of_uint (g - s))) fs)
               (mul (div (sub x (of_uint s)) (of_uint (g - s))) fg)).
Proof.
  intros table x Hinc Hs Hg. unfold getValueInterpolation. fold x.
  unfold table at 1.
  rewrite (neighbours_between x s fs g fg post pre 0 0) by (auto; lia).
  assert (Hsin : In (s, fs) table)
    by (apply in_or_app; right; left; reflexivity).
  assert (Hgin : In (g, fg) table)
    by (apply in_or_app; right; right; left; reflexivity).
  pose proof (increasing_In _ _ _ _ Hinc Hsin) as Hsr.
  pose proof (increasing_In _ _ _ _ Hinc Hgin) as Hgr.
  unfold max_ch_log2 in *.
  assert (Hsg : s < g).
  { assert (Hlt : lt (of_uint s) (of_uint g) = true)
      by (eapply lt_trans; eassumption).
    destruct (Z.lt_ge_cases s g) as [|Hge]; [assumption|].
    pose proof (of_uint_small_le g s ltac:(lia) ltac:(lia) ltac:(lia)) as Hle.
    rewrite (lt_not_le _ _ Hlt) in Hle. discriminate. }
  rewrite wrap32_small by lia.
  rewrite zero_lt_small by lia.
  rewrite (table_at_In 0 table s fs), (table_at_In 0 table g fg) by assumption.
  reflexivity.
Qed.

Lemma interpolation_below lut k v rest :
  let x := log2f (of_uint (input_ch lut)) in
  increasing 0 ((k, v) :: rest) -> lt x (of_uint k) = true ->
  getValueInterpolation log2f lut ((k, v) :: rest) = Raises std_out_of_range.
Proof.
  intros x Hinc Hx. unfold getValueInterpolation. fold x.
  rewrite (neighbours_below x k v rest) by assumption.
  pose proof (increasing_In 0 _ k v Hinc ltac:(left; reflexivity)) as Hk.
  unfold max_ch_log2 in Hk.
  rewrite Z.sub_0_r, wrap32_small by lia.
  rewrite zero_lt_small by lia.
  rewrite (table_at_absent_low 0) by (auto; lia). reflexivity.
Qed.

Lemma interpolation_above lut pre k v :
  let x := log2f (of_uint (input_ch lut)) in
  increasing 0 (pre ++ [(k, v)]) -> lt (of_uint k) x = true ->
  getValueInterpolation log2f lut (pre ++ [(k, v)]) = Raises std_out_of_range.
Proof.
  intros x Hinc Hx. unfold getValueInterpolation. fold x.
  rewrite (neighbours_above x k v pre 0 0) by (auto; lia).
  assert (Hin : In (k, v) (pre ++ [(k, v)]))
    by (apply in_or_app; right; left; reflexivity).
  pose proof (increasing_In 0 _ k v Hinc Hin) as Hk.
  unfold max_ch_log2 in *.
  rewrite wrap32_small by lia.
  rewrite zero_lt_small by lia.
  rewrite (table_at_In 0 _ k v) by assumption.
  rewrite (table_at_absent_high 0) by (auto; unfold max_ch_log2; lia).
  reflexivity.
Qed.

(** C6.  The power-factor lookup, with [x = log2(input_ch)]:
    - [x] equal to a key of the table of the device and operation: the
      entry, scaled;
    - [x] strictly between two adjacent keys [s] and [g]: the interpolation
      [(g - x) / (g - s) * f(s) + (x - s) / (g - s) * f(g)], evaluated in
      binary32 in that order, scaled;
    - no table for the device and operation: 0;
    - the scale multiplies by 0.87 on VPU 2.0 with floating-point compute,
      by 0.79 on VPU 2.7 with integer compute, and leaves the value as it is
      otherwise;
    - VPU 2.0, CONVOLUTION, 64 input channels, integer compute: exactly 1.0
      (for a [log2] that is exact on 64). *)
Theorem getValue_lookup (lut : VPUPowerFactorLUT) (fp_comp : bool) :
  let x := log2f (of_uint (input_ch lut)) in
  let d := vpu_device lut in
  (forall tables table k v,
     In (d, tables) pf_lut -> In (op_type lut, table) tables ->
     In (k, v) table -> x = of_uint k ->
     getValue log2f lut fp_comp = Returns (getScaledValue v fp_comp d)) /\
  (forall tables pre s fs g fg post,
     In (d, tables) pf_lut ->
     In (op_type lut, pre ++ (s, fs) :: (g, fg) :: post) tables ->
     lt (of_uint s) x = true -> lt x (of_uint g) = true ->
     getValue log2f lut fp_comp =
     Returns (getScaledValue
                (add (mul (div (sub (of_uint g) x) (of_uint (g - s))) fs)
                     (mul (div (sub x (of_uint s)) (of_uint (g - s))) fg))
                fp_comp d)) /\
  ((forall tables table,
      In (d, tables) pf_lut -> ~ In (op_type lut, table) tables) ->
   getValue log2f lut fp_comp = Returns zero) /\
  (forall v,
     getScaledValue v true VPU_2_0 = mul v (dec 87 100) /\
     getScaledValue v false VPU_2_7 = mul v (dec 79 100) /\
     (forall dev fp, ~ (dev = VPU_2_0 /\ fp = true) ->
                     ~ (dev = VPU_2_7 /\ fp = false) ->
                     getScaledValue v fp dev = v)) /\
  (log2f (of_uint 64) = of_uint 6 ->
   getValue log2f (mkLUT 64 CONVOLUTION VPU_2_0) false = Returns (of_uint 1)).
Proof.
  intros x d. split; [|split; [|split; [|split]]].
  - intros tables table k v Hd Ho Hk Hx.
    rewrite (getValue_found lut fp_comp tables table Hd Ho).
    rewrite (interpolation_exact lut table k v); auto.
    eapply pf_lut_increasing; eassumption.
  - intros tables pre s fs g fg post Hd Ho Hs Hg.
    rewrite (getValue_found lut fp_comp tables _ Hd Ho).
    rewrite interpolation_between; auto.
    eapply pf_lut_increasing; eassumption.
  - intros Hnone. subst d. destruct lut as [ic o dev].
    simpl in Hnone.
    destruct dev;
      try (unfold getValue; reflexivity);
      destruct o;
      try (unfold getValue; reflexivity);
      exfalso;
      first [ eapply Hnone; [left; reflexivity | simpl; eauto 10]
            | eapply Hnone; [right; left; reflexivity | simpl; eauto 10] ].
  - intros v. split; [reflexivity|]. split; [reflexivity|].
    intros dev fp H1 H2. unfold getScaledValue.
    destruct dev, fp; simpl; try reflexivity; exfalso; auto.
  - intros H64.
    rewrite (getValue_found (mkLUT 64 CONVOLUTION VPU_2_0) false
               vpu_2_0_values _ ltac:(left; reflexivity)
               ltac:(left; reflexivity)).
    rewrite (interpolation_exact _ _ 6 (one)).
    + reflexivity.
    + simpl. unfold max_ch_log2. lia.
    + simpl. auto.
    + exact H64.
Qed.

(** C10.  For a device and operation that have a table, a [log2] of the
    channel count strictly below the first key leaves [smaller] at 0, one
    strictly above the last key leaves [greater] at 13; neither is a key,
    and [getValue] raises [std::out_of_range] instead of returning a number.
    VPU 2.0, CONVOLUTION, 8 input channels is such an input (for a [log2]
    that is exact on 8). *)
Theorem getValue_outside_keys (lut : VPUPowerFactorLUT) (fp_comp : bool) :
  let x := log2f (of_uint (input_ch lut)) in
  (forall tables k v rest,
     In (vpu_device lut, tables) pf_lut ->
     In (op_type lut, (k, v) :: rest) tables ->
     lt x (of_uint k) = true ->
     neighbours x ((k, v) :: rest) 0 max_ch_log2 = (0, k) /\
     table_at ((k, v) :: rest) 0 = Raises std_out_of_range /\
     getValue log2f lut fp_comp = Raises std_out_of_range) /\
  (forall tables pre k v,
     In (vpu_device lut, tables) pf_lut ->
     In (op_type lut, pre ++ [(k, v)]) tables ->
     lt (of_uint k) x = true ->
     neighbours x (pre ++ [(k, v)]) 0 max_ch_log2 = (k, max_ch_log2) /\
     table_at (pre ++ [(k, v)]) max_ch_log2 = Raises std_out_of_range /\
     getValue log2f lut fp_comp = Raises std_out_of_range) /\
  (log2f (of_uint 8) = of_uint 3 ->
   getValue log2f (mkLUT 8 CONVOLUTION VPU_2_0) fp_comp
     = Raises std_out_of_range).
Proof.
  intros x. split; [|split].
  - intros tables k v rest Hd Ho Hx.
    pose proof (pf_lut_increasing _ _ _ _ Hd Ho) as Hinc.
    split; [apply neighbours_below; assumption|].
    split; [apply (table_at_absent_low 0); [assumption | lia]|].
    rewrite (getValue_found lut fp_comp tables _ Hd Ho).
    rewrite interpolation_below by assumption. reflexivity.
  - intros tables pre k v Hd Ho Hx.
    pose proof (pf_lut_increasing _ _ _ _ Hd Ho) as Hinc.
    split; [apply (neighbours_above x k v pre 0 0); auto; lia|].
    split; [apply (table_at_absent_high 0); [assumption | lia]|].
    rewrite (getValue_found lut fp_comp tables _ Hd Ho).
    rewrite interpolation_above by assumption. reflexivity.
  - intros H8.
    rewrite (getValue_found (mkLUT 8 CONVOLUTION VPU_2_0) fp_comp
               vpu_2_0_values _ ltac:(left; reflexivity)
               ltac:(left; reflexivity)).
    rewrite interpolation_below.
    + reflexivity.
    + simpl. unfold max_ch_log2. lia.
    + simpl input_ch. rewrite H8. reflexivity.
Qed.

End WithLog2.

Lemma getValue_lookup_witness :
  getValue Demo.log2_linear (mkLUT 64 CONVOLUTION VPU_2_0) false
    = Returns (of_uint 1) /\
  getValue Demo.log2_linear (mkLUT 48 CONVOLUTION VPU_2_0) false
    = Returns (S754_finite false 16106128 (-24)) /\
  getValue Demo.log2_linear (mkLUT 64 CM_CONVOLUTION VPU_2_0) false
    = Returns zero.
Proof.
  pose proof (getValue_lookup Demo.log2_linear (mkLUT 64 CONVOLUTION VPU_2_0) false)
    as (_ & _ & _ & _ & H1).
  pose proof (getValue_lookup Demo.log2_linear (mkLUT 48 CONVOLUTION VPU_2_0) false)
    as (_ & H2 & _).
  pose proof (getValue_lookup Demo.log2_linear (mkLUT 64 CM_CONVOLUTION VPU_2_0) false)
    as (_ & _ & H3 & _).
  split; [|split].
  - apply H1. reflexivity.
  - rewrite (H2 vpu_2_0_values [(4, dec 87 100)] 5 (dec 92 100) 6 (one)
               [(7, dec 95 100); (8, dec 86 100); (9, dec 87 100)]
               ltac:(left; reflexivity) ltac:(left; reflexivity)
               eq_refl eq_refl).
    reflexivity.
  - apply H3. simpl. intros tables table [[= <-] | [[=] | []]] Hin.
    simpl in Hin. repeat (destruct Hin as [[=] | Hin]). destruct Hin.
Defined.

Lemma getValue_outside_keys_witness :
  getValue Demo.log2_linear (mkLUT 8 CONVOLUTION VPU_2_0) false
    = Raises std_out_of_range /\
  getValue Demo.log2_linear (mkLUT 1024 CONVOLUTION VPU_2_0) false
    = Raises std_out_of_range.
Proof.
  split.
  - apply (getValue_outside_keys Demo.log2_linear (mkLUT 8 CONVOLUTION VPU_2_0) false).
    reflexivity.
  - pose proof (getValue_outside_keys Demo.log2_linear (mkLUT 1024 CONVOLUTION VPU_2_0) false)
      as (_ & H & _).
    apply (H vpu_2_0_values
             [(4, dec 87 100); (5, dec 92 100); (6, one);
              (7, dec 95 100); (8, dec 86 100)] 9 (dec 87 100)
             ltac:(left; reflexivity) ltac:(left; reflexivity) eq_refl).
Defined.

End PowerFacts.

(** ** SHAVE element-wise kernels *)

Module ShaveFacts.
Import F32 F32Facts Shave.

(** C5, as the code has it.  With [q] the binary32 quotient of the output
    byte size by the kernel efficiency, [cycles()] is [round(q)] plus the
    latency (on 32 bits), [round] going to the nearest integer with halves
    away from zero.  That is the ceiling of [q] plus the latency only when
    the fractional part of [q] is zero or at least one half, and one less
    otherwise.  An empty output costs the latency. *)
Theorem SHV_cycles_rounds (k : SHVElementwise) (output : VPUTensor)
    (rest : list VPUTensor) :
  outputs k = output :: rest ->
  let q := div (of_uint (tensor_size output)) (getKernelEfficiency k) in
  (forall m e, q = S754_finite false m e ->
     exists n c,
       Zround q = Some n /\
       Zceil q = Some c /\
       (if 0 <=? e then n = Zpos m * 2 ^ e
        else (2 * n - 1) * 2 ^ (- e) <= 2 * Zpos m < (2 * n + 1) * 2 ^ (- e)) /\
       (if (0 <=? e) || (Zpos m mod 2 ^ (- e) =? 0) ||
           (2 ^ (- e) <=? 2 * (Zpos m mod 2 ^ (- e)))
        then n = c else n = c - 1) /\
       (0 <= n < 2 ^ 32 -> cycles k = Some (wrap32 (n + latency k))) /\
       (0 <= c < 2 ^ 32 -> cycles_spec k = Some (wrap32 (c + latency k)))) /\
  (q = zero -> cycles k = Some (wrap32 (latency k))).
Proof.
  intros Hout q. split.
  - intros m e Hq. rewrite Hq.
    destruct (Zround_vs_Zceil_pos m e) as (n & c & Hn & Hc & Hnc).
    exists n, c. split; [exact Hn|]. split; [exact Hc|].
    split; [apply Zround_pos_spec; exact Hn|].
    split; [exact Hnc|].
    split.
    + intros Hb. unfold cycles, round_cycles, getLatency. rewrite Hout. simpl.
      fold q. rewrite Hq, Hn. unfold to_uint32.
      rewrite (proj2 (Z.leb_le 0 n)) by lia.
      rewrite (proj2 (Z.ltb_lt n (2 ^ 32))) by lia. reflexivity.
    + intros Hb. unfold cycles_spec, getLatency. rewrite Hout. simpl.
      fold q. rewrite Hq, Hc. unfold to_uint32.
      rewrite (proj2 (Z.leb_le 0 c)) by lia.
      rewrite (proj2 (Z.ltb_lt c (2 ^ 32))) by lia. reflexivity.
  - intros Hq. unfold cycles, round_cycles, getLatency. rewrite Hout. simpl.
    fold q. rewrite Hq. reflexivity.
Qed.

Lemma SHV_cycles_rounds_witness :
  cycles (SHVElementwise_new 1500 7 VPU_2_7 [] (mkTensor 2 1 1 1 UINT8 false))
    = Some 8.
Proof.
  destruct (proj1 (SHV_cycles_rounds
              (SHVElementwise_new 1500 7 VPU_2_7 []
                 (mkTensor 2 1 1 1 UINT8 false))
              (mkTensor 2 1 1 1 UINT8 false) [] eq_refl)
              11184811%positive (-23) eq_refl) as (n & c & Hn & _ & _ & _ & H & _).
  injection Hn as <-. apply H. vm_compute.
  split; [discriminate | reflexivity].
Defined.

(** Against C5 as worded: one byte at 4 bytes per cycle costs
    [round(0.25) = 0] cycles, where the ceiling is 1. *)
Lemma SHV_cycles_not_ceiling :
  getKernelEfficiency
    (SHVElementwise_new 4000 0 VPU_2_7 [] (mkTensor 1 1 1 1 UINT8 false))
    = of_uint 4 /\
  cycles (SHVElementwise_new 4000 0 VPU_2_7 [] (mkTensor 1 1 1 1 UINT8 false))
    = Some 0 /\
  cycles_spec
    (SHVElementwise_new 4000 0 VPU_2_7 [] (mkTensor 1 1 1 1 UINT8 false))
    = Some 1.
Proof. repeat split. Qed.

End ShaveFacts.

(** ** The batched path *)

Module BatchFacts.
Import F32 CostModel RewritesFacts SinglePathFacts.

Section Lists.
Context {A : Type}.

(** Descriptors of one width laid end to end: dropping and taking whole
    descriptors. *)
Lemma drop_concat_width (ds : nat) (all : list (list A)) : forall i,
  Forall (fun d => length d = ds) all ->
  drop (i * ds) (concat all) = concat (drop i all).
Proof.
  induction all as [|d all IH]; intros i Hall.
  - simpl. rewrite !drop_nil. reflexivity.
  - inversion Hall as [|? ? Hd Hrest]; subst. destruct i as [|i].
    + reflexivity.
    + simpl. rewrite drop_app_add'. 2: reflexivity.
      apply IH. assumption.
Qed.

Lemma take_concat_width (ds : nat) (all : list (list A)) : forall k,
  Forall (fun d => length d = ds) all ->
  take (k * ds) (concat all) = concat (take k all).
Proof.
  induction all as [|d all IH]; intros k Hall.
  - simpl. rewrite !take_nil. reflexivity.
  - inversion Hall as [|? ? Hd Hrest]; subst. destruct k as [|k].
    + reflexivity.
    + simpl. rewrite take_app_add'. 2: reflexivity.
      f_equal. apply IH. assumption.
Qed.

Lemma length_concat_width (ds : nat) (all : list (list A)) :
  Forall (fun d => length d = ds) all ->
  length (concat all) = (length all * ds)%nat.
Proof.
  induction 1 as [|d all Hd Hall IH]; simpl; [reflexivity|].
  rewrite length_app, IH, Hd. reflexivity.
Qed.

Lemma concat_replicate_replicate (k ds : nat) (z : A) :
  concat (replicate k (replicate ds z)) = replicate (k * ds) z.
Proof.
  induction k as [|k IH]; simpl; [reflexivity|].
  rewrite IH, replicate_add. reflexivity.
Qed.

End Lists.

Lemma map_is_fmap {A B} (f : A -> B) (l : list A) : map f l = f <$> l.
Proof. reflexivity. Qed.

(** The inner loop writes [hw_overhead_arr[idx - wl_idx]] at each index of
    the range and nothing else. *)
Lemma fill_results_seq (hw : list float) (wl_idx : nat) : forall cnt start buf,
  (forall j, (start <= j < start + cnt)%nat -> is_Some (hw !! (j - wl_idx)%nat)) ->
  (start + cnt <= length buf)%nat ->
  exists buf',
    fill_results hw wl_idx (seq start cnt) buf = Some buf' /\
    length buf' = length buf /\
    (forall i, (i < start \/ start + cnt <= i)%nat -> buf' !! i = buf !! i) /\
    (forall i, (start <= i < start + cnt)%nat ->
               buf' !! i = hw !! (i - wl_idx)%nat).
Proof.
  induction cnt as [|cnt IH]; intros start buf Hhw Hlen.
  - exists buf. simpl. repeat split; auto. intros i Hi. lia.
  - simpl. destruct (Hhw start ltac:(lia)) as [v Hv]. rewrite Hv.
    destruct (IH (S start) (<[start := v]> buf)) as (buf' & Hf & Hl & Hout & Hin).
    { intros j Hj. apply Hhw. lia. }
    { rewrite length_insert. lia. }
    exists buf'. split; [exact Hf|]. rewrite length_insert in Hl.
    split; [exact Hl|]. split.
    + intros i Hi. rewrite Hout by lia.
      apply list_lookup_insert_ne. lia.
    + intros i Hi. destruct (decide (i = start)) as [-> | Hne].
      * rewrite Hout by lia. rewrite list_lookup_insert_eq by lia.
        symmetry. exact Hv.
      * apply Hin. lia.
Qed.

Lemma mapM_lookup_seq {A B} (h : A -> option B) (l : list A) : forall pre,
  mapM (fun i => (pre ++ l) !! i ≫= h) (seq (length pre) (length l)) = mapM h l.
Proof.
  induction l as [|x l IH]; intros pre; [reflexivity|].
  simpl. rewrite list_lookup_middle by reflexivity. simpl.
  destruct (h x) as [y|]; [|reflexivity]. simpl.
  specialize (IH (pre ++ [x])).
  rewrite length_app, Nat.add_1_r, <- app_assoc in IH. simpl in IH.
  rewrite IH. reflexivity.
Qed.

Lemma find_take_Some {A} (p : A -> bool) (l : list A) : forall n x,
  find p (take n l) = Some x -> find p l = Some x.
Proof.
  induction l as [|a l IH]; intros [|n] x; simpl; try discriminate.
  destruct (p a); [auto | apply IH].
Qed.

Lemma find_filter_implied {A} (p : A -> bool) (Q : A -> Prop)
    `{forall a, Decision (Q a)} (l : list A) :
  (forall a, p a = true -> Q a) -> find p (filter Q l) = find p l.
Proof.
  intros Himp. induction l as [|a l IH]; [reflexivity|].
  rewrite filter_cons. simpl. destruct (p a) eqn:Hp.
  - rewrite decide_True by auto. simpl. rewrite Hp. reflexivity.
  - case_decide; simpl; [rewrite Hp|]; exact IH.
Qed.

(** What [add] leaves in the cache: the new entry, and old entries. *)
Lemma cache_add_get c k v d v' :
  cache_get (cache_add c k v) d = Some v' ->
  (d = k /\ v' = v) \/ cache_get c d = Some v'.
Proof.
  unfold cache_get, cache_add. simpl. intros Hget.
  destruct (find _ (take _ _)) as [e|] eqn:Hfind; [|discriminate].
  injection Hget as <-. apply find_take_Some in Hfind. simpl in Hfind.
  case_bool_decide as Hk.
  - injection Hfind as <-. left. auto.
  - right. rewrite find_filter_implied in Hfind.
    + rewrite Hfind. reflexivity.
    + intros a Ha. apply bool_decide_eq_true in Ha. congruence.
Qed.

Lemma empty_cache_consistent nn cap buffer log :
  cache_consistent nn (mkState (mkCache cap []) buffer log).
Proof. intros d v H. discriminate. Qed.

Section Batch.

Variable m : VPUCostModel.
Variable nn : list float -> float.

Hypothesis deterministic : deterministic_predictor m nn.
Hypothesis descriptor_width :
  forall wl, length (transform (preprocessing m) wl) = output_size (preprocessing m).
Hypothesis batch_positive : (0 < model_batch_size (vpunn_runtime m))%nat.

Let ds := output_size (preprocessing m).
Let bs := model_batch_size (vpunn_runtime m).

(** The single path through a consistent cache yields the answer of the
    network. *)
Lemma run_NN_value wl st :
  cache_consistent nn st ->
  exists st', run_NN m wl st = Some (nn (transform (preprocessing m) wl), st').
Proof.
  intros Hc. unfold run_NN.
  destruct (cache_get (cache st) (transform (preprocessing m) wl)) as [v|] eqn:Hget.
  - rewrite (Hc _ _ Hget). eauto.
  - pose proof (deterministic [transform (preprocessing m) wl]) as Hp.
    simpl in Hp. rewrite app_nil_r in Hp. rewrite Hp.
    + simpl. eauto.
    + constructor; [apply descriptor_width | constructor].
Qed.

(** [run_NN] keeps the cache consistent: consistency is an invariant of
    the states the single path goes through. *)
Lemma run_NN_keeps_consistent wl st v st' :
  cache_consistent nn st -> run_NN m wl st = Some (v, st') ->
  cache_consistent nn st'.
Proof.
  intros Hc Hrun. destruct (run_NN_value wl st Hc) as [st2 Hval].
  rewrite Hval in Hrun. injection Hrun as <- <-.
  unfold run_NN in Hval.
  destruct (cache_get (cache st) (transform (preprocessing m) wl)) as [v|] eqn:Hget.
  - injection Hval as _ <-. exact Hc.
  - destruct (predict _ _ !! 0%nat) as [v|]; [|discriminate].
    injection Hval as Hv <-. intros d v' Hd. simpl in Hd.
    apply cache_add_get in Hd as [[-> ->] | Hd]; [exact Hv|].
    apply Hc. exact Hd.
Qed.

Lemma DPU_keeps_consistent wl st c st' :
  cache_consistent nn st -> DPU m wl st = Some (c, st') ->
  cache_consistent nn st'.
Proof.
  intros Hc. rewrite DPU_unfold. simpl.
  destruct (is_usable _ _); [|intros [= _ <-]; exact Hc].
  destruct (nn_initialized m); [|intros [= _ <-]; exact Hc].
  destruct (run_NN m _ st) as [[v st2]|] eqn:Hrun; [|discriminate].
  pose proof (run_NN_keeps_consistent _ _ _ _ Hc Hrun) as Hc2.
  destruct (is_NN_value_invalid v); [intros [= _ <-]; exact Hc2|].
  destruct (ceil_cycles v); [intros [= _ <-]; exact Hc2 | discriminate].
Qed.

Abbreviation padded := (padded_count bs).
Abbreviation descriptors := (fun workloads =>
  all_descriptors (preprocessing m) workloads bs).
Abbreviation target := (network_answers m nn).

Lemma padded_count_ge n : (n <= padded n)%nat.
Proof.
  unfold padded_count.
  pose proof (Nat.div_mod_eq (n + bs - 1) bs) as Hdm.
  pose proof (Nat.mod_upper_bound (n + bs - 1) bs ltac:(unfold bs; lia)) as Hr.
  nia.
Qed.

Lemma padded_count_batch n j :
  (j * bs < n)%nat -> (j * bs + bs <= padded n)%nat.
Proof.
  intros Hj. pose proof (padded_count_ge n) as Hn. unfold padded_count in *.
  set (q := Nat.div (n + bs - 1) bs) in *.
  assert (j < q)%nat by nia. nia.
Qed.

Lemma all_descriptors_width workloads :
  Forall (fun d => length d = ds) (descriptors workloads).
Proof.
  unfold all_descriptors. apply Forall_app. split.
  - rewrite map_is_fmap. apply Forall_fmap, Forall_forall.
    intros wl _. apply descriptor_width.
  - apply Forall_replicate. apply length_replicate.
Qed.

Lemma all_descriptors_length workloads :
  length (descriptors workloads) = padded (length workloads).
Proof.
  unfold all_descriptors. rewrite length_app, length_map, length_replicate.
  pose proof (padded_count_ge (length workloads)). lia.
Qed.

Lemma transform_batch_concat workloads :
  transform_batch (preprocessing m) workloads bs
  = concat (descriptors workloads).
Proof.
  unfold transform_batch, all_descriptors. rewrite concat_app.
  rewrite concat_replicate_replicate. reflexivity.
Qed.

Lemma all_descriptors_lookup workloads i wl :
  workloads !! i = Some wl ->
  descriptors workloads !! i = Some (transform (preprocessing m) wl).
Proof.
  intros Hi. unfold all_descriptors. rewrite lookup_app_l.
  - rewrite map_is_fmap, list_lookup_fmap, Hi. reflexivity.
  - rewrite length_map. eapply lookup_lt_Some. exact Hi.
Qed.

(** One slice of the descriptor buffer and the answer of the network on
    it. *)
Lemma slice_predict workloads j :
  (j * bs < length workloads)%nat ->
  let slice := take (ds * bs) (drop (j * bs * ds)
                 (transform_batch (preprocessing m) workloads bs)) in
  length slice = (ds * bs)%nat /\
  forall i wl, (j * bs <= i < j * bs + bs)%nat -> workloads !! i = Some wl ->
    predict (vpunn_runtime m) slice !! (i - j * bs)%nat
    = Some (nn (transform (preprocessing m) wl)).
Proof.
  intros Hj slice.
  pose proof (all_descriptors_width workloads) as Hw.
  pose proof (padded_count_batch _ _ Hj) as Hpad.
  assert (Hslice : slice = concat (take bs (drop (j * bs) (descriptors workloads)))).
  { unfold slice. rewrite transform_batch_concat.
    rewrite (drop_concat_width ds) by assumption.
    rewrite (Nat.mul_comm ds bs).
    rewrite (take_concat_width ds); [reflexivity|].
    apply Forall_drop. assumption. }
  assert (Hw' : Forall (fun d => length d = ds)
                  (take bs (drop (j * bs) (descriptors workloads))))
    by (apply Forall_take, Forall_drop; assumption).
  split.
  - rewrite Hslice, (length_concat_width ds) by assumption.
    rewrite length_take, length_drop, all_descriptors_length.
    rewrite Nat.min_l by lia. apply Nat.mul_comm.
  - intros i wl Hi Hwl. rewrite Hslice.
    rewrite (deterministic _ Hw').
    rewrite map_is_fmap, list_lookup_fmap, lookup_take.
    case_decide; [|lia].
    rewrite lookup_drop.
    replace (j * bs + (i - j * bs))%nat with i by lia.
    rewrite (all_descriptors_lookup _ _ _ Hwl). reflexivity.
Qed.

Lemma target_lookup workloads i wl :
  workloads !! i = Some wl ->
  target workloads !! i = Some (nn (transform (preprocessing m) wl)).
Proof.
  intros Hi. unfold network_answers.
  rewrite map_is_fmap, list_lookup_fmap, Hi. reflexivity.
Qed.

Lemma target_length workloads : length (target workloads) = length workloads.
Proof. apply length_map. Qed.

(** The outer loop, started at a batch boundary with the earlier results
    in place and enough fuel, ends with all the results in place. *)
Lemma run_NN_loop_spec workloads : forall fuel j st,
  (length workloads - j * bs < fuel)%nat ->
  length (workloads_results_buffer st) = length workloads ->
  take (j * bs) (workloads_results_buffer st) = take (j * bs) (target workloads) ->
  exists st',
    run_NN_loop m (length workloads)
      (transform_batch (preprocessing m) workloads bs) fuel (j * bs)%nat st
    = Some (tt, st') /\
    cache st' = cache st /\
    workloads_results_buffer st' = target workloads.
Proof.
  induction fuel as [|fuel IH]; intros j st Hfuel Hlen Hpre; [lia|].
  cbn [run_NN_loop].
  destruct (Nat.ltb_spec (j * bs) (length workloads)) as [Hlt | Hge].
  - destruct (slice_predict workloads j Hlt) as [Hsl Hpred].
    fold ds bs. rewrite Hsl.
    rewrite (proj2 (Nat.ltb_ge _ _) (Nat.le_refl _)).
    set (slice := take (ds * bs) (drop (j * bs * ds) _)) in *.
    set (end_idx := if (length workloads <? j * bs + bs)%nat
                    then length workloads else (j * bs + bs)%nat).
    assert (Hend : (j * bs < end_idx /\ end_idx <= length workloads /\
                    end_idx <= j * bs + bs)%nat).
    { unfold end_idx.
      destruct (Nat.ltb_spec (length workloads) (j * bs + bs)); unfold bs in *; lia. }
    destruct (fill_results_seq (predict (vpunn_runtime m) slice) (j * bs)
                (end_idx - j * bs) (j * bs) (workloads_results_buffer st))
      as (buf' & Hfill & Hlen' & Hout & Hin).
    { intros i Hi.
      destruct (lookup_lt_is_Some_2 workloads i ltac:(lia)) as [wl Hwl].
      rewrite (Hpred i wl) by (auto; lia). eauto. }
    { lia. }
    rewrite Hfill.
    replace (j * bs + bs)%nat with (S j * bs)%nat by lia.
    destruct (IH (S j)
                {| cache := cache st; workloads_results_buffer := buf';
                   inferences := inferences st ++ [slice] |})
      as (st' & Hrun & Hcache & Hbuf).
    + unfold bs in *. simpl. lia.
    + simpl. lia.
    + simpl. apply list_eq. intros i. rewrite !lookup_take.
      case_decide as Hi; [|reflexivity].
      destruct (decide (i < j * bs)%nat) as [Hi1 | Hi1].
      * rewrite Hout by lia.
        pose proof (f_equal (fun l => l !! i) Hpre) as Hp. simpl in Hp.
        rewrite !lookup_take in Hp. case_decide; [exact Hp | lia].
      * destruct (decide (i < end_idx)%nat) as [Hi2 | Hi2].
        -- rewrite Hin by lia.
           destruct (lookup_lt_is_Some_2 workloads i ltac:(lia)) as [wl Hwl].
           rewrite (Hpred i wl) by (auto; lia).
           symmetry. apply target_lookup. exact Hwl.
        -- assert (Hn : (length workloads <= i)%nat).
           { unfold end_idx in Hi2.
             destruct (Nat.ltb_spec (length workloads) (j * bs + bs)); lia. }
           rewrite (lookup_ge_None_2 buf') by lia.
           rewrite lookup_ge_None_2; [reflexivity|].
           rewrite target_length. exact Hn.
    + exists st'. split; [exact Hrun|]. split; [exact Hcache | exact Hbuf].
  - exists st. split; [reflexivity|]. split; [reflexivity|].
    rewrite <- (take_ge (workloads_results_buffer st) (j * bs)) by lia.
    rewrite Hpre. apply take_ge. rewrite target_length. lia.
Qed.

(** The batched [run_NN] returns the answers of the network in the order
    of the workloads, and the default output when there is no network. *)
Lemma run_NN_batch_spec workloads st :
  exists st',
    run_NN_batch m workloads st
    = Some ((if nn_initialized m then target workloads
             else replicate (length workloads) default_NN_output), st') /\
    cache st' = cache st.
Proof.
  unfold run_NN_batch. destruct (nn_initialized m); cbn [negb].
  - destruct (run_NN_loop_spec workloads (S (length workloads)) 0
                {| cache := cache st;
                   workloads_results_buffer :=
                     resize (length workloads) F32.zero
                       (workloads_results_buffer st);
                   inferences := inferences st |})
      as (st' & Hrun & Hcache & Hbuf).
    + lia.
    + simpl. apply length_resize.
    + reflexivity.
    + change (0 * bs)%nat with 0%nat in Hrun. fold bs. cbn [cache inferences].
      rewrite Hrun. exists st'. rewrite Hbuf. auto.
  - eexists. split; reflexivity.
Qed.

(** The last loop writes the decisions of the indices in order. *)
Lemma decide_cycles_seq workloads sres NN : forall cnt start cv,
  (start + cnt <= length cv)%nat ->
  decide_cycles m workloads sres NN (seq start cnt) cv =
  rs ← mapM (decide_at m workloads sres NN) (seq start cnt);
  Some (take start cv ++ rs ++ drop (start + cnt) cv).
Proof.
  induction cnt as [|cnt IH]; intros start cv Hlen.
  - simpl. rewrite Nat.add_0_r, take_drop. reflexivity.
  - simpl. destruct (decide_at m workloads sres NN start) as [c|]; [|reflexivity].
    simpl. rewrite IH by (rewrite length_insert; lia).
    destruct (mapM _ (seq (S start) cnt)) as [rs|]; [|reflexivity].
    simpl. f_equal.
    rewrite (take_S_r (<[start:=c]> cv) start c)
      by (apply list_lookup_insert_eq; lia).
    rewrite take_insert_ge by lia.
    rewrite drop_insert_lt by lia.
    rewrite <- app_assoc. simpl.
    replace (start + S cnt)%nat with (S start + cnt)%nat by lia.
    reflexivity.
Qed.

(** The decision the batched path takes for one workload is the answer of
    the single path on it. *)
Lemma decide_at_single B st i :
  cache_consistent nn st ->
  let sanitized := map (sanitize_workload m) B in
  decide_at m (map (fun r => r.1.1) sanitized)
    (map (fun r => (r.2, r.1.2)) sanitized)
    (if nn_initialized m then target (map (fun r => r.1.1) sanitized)
     else replicate (length (map (fun r => r.1.1) sanitized)) default_NN_output)
    i
  = B !! i ≫= (fun wl => fst <$> DPU m wl st).
Proof.
  intros Hc sanitized. unfold decide_at, sanitized.
  rewrite !map_is_fmap, !list_lookup_fmap.
  destruct (B !! i) as [wl|] eqn:Hwl; [|reflexivity].
  simpl. rewrite DPU_unfold, sanitize_workload_unfold. simpl.
  unfold decide_one. simpl.
  destruct (is_usable _ _); [|reflexivity].
  destruct (nn_initialized m); [|reflexivity].
  rewrite <- !map_is_fmap.
  erewrite target_lookup.
  2: { rewrite !map_is_fmap, !list_lookup_fmap, Hwl. simpl.
       rewrite sanitize_workload_unfold. reflexivity. }
  simpl.
  destruct (run_NN_value (check_and_sanitize (sanitizer m)
               (Rewrites.presanitize wl)).1 st Hc) as [st' ->].
  destruct (is_NN_value_invalid _); [reflexivity|].
  destruct (ceil_cycles _); reflexivity.
Qed.

(** The single path returns whenever the network answers a number of the
    format. *)
Lemma DPU_defined wl st :
  cache_consistent nn st ->
  (forall d, valid (nn d) = true /\ is_nan (nn d) = false) ->
  is_Some (fst <$> DPU m wl st).
Proof.
  intros Hc Hnum. rewrite DPU_unfold. simpl.
  destruct (is_usable _ _); [|eauto].
  destruct (nn_initialized m); [|eauto].
  destruct (run_NN_value (check_and_sanitize (sanitizer m)
               (Rewrites.presanitize wl)).1 st Hc) as [st' ->].
  destruct (is_NN_value_invalid _) eqn:Hi; [eauto|].
  destruct (Hnum (transform (preprocessing m)
              (check_and_sanitize (sanitizer m) (Rewrites.presanitize wl)).1))
    as [Hv Hn].
  destruct (accepted_ceil _ Hv Hn Hi) as (n & Hceil & Hb).
  unfold ceil_cycles, to_uint32. rewrite Hceil.
  rewrite (proj2 (Z.leb_le 0 n)) by lia.
  rewrite (proj2 (Z.ltb_lt n (2 ^ 32))) by (change (2 ^ 32) with 4294967296; lia).
  simpl. eauto.
Qed.

(** C2.  With a network that answers each descriptor by a function of that
    descriptor, descriptors of the declared width, a positive batch size
    and a cache that only holds answers of the network: the batched [DPU]
    is the single [DPU] applied to each workload in order.  It returns one
    value per workload, the value at position [i] being that of the single
    call on [B[i]]; and it returns whenever the network answers numbers. *)
Theorem DPU_batch_agrees (B : list DPUWorkload) (st : ModelState) :
  cache_consistent nn st ->
  fst <$> DPU_batch m B st = mapM (fun wl => fst <$> DPU m wl st) B /\
  (forall cycles, fst <$> DPU_batch m B st = Some cycles ->
     length cycles = length B /\
     forall i wl, B !! i = Some wl ->
       exists c, cycles !! i = Some c /\ fst <$> DPU m wl st = Some c) /\
  ((forall d, valid (nn d) = true /\ is_nan (nn d) = false) ->
   is_Some (fst <$> DPU_batch m B st)).
Proof.
  intros Hc.
  assert (Heq : fst <$> DPU_batch m B st
                = mapM (fun wl => fst <$> DPU m wl st) B).
  { unfold DPU_batch, bind.
    set (sanitized := map (sanitize_workload m) B).
    destruct (run_NN_batch_spec (map (fun r => r.1.1) sanitized) st)
      as (st' & -> & _).
    unfold lift. rewrite decide_cycles_seq.
    2: { rewrite length_replicate. unfold sanitized. rewrite !length_map. lia. }
    rewrite (mapM_ext _ (fun i => B !! i ≫= (fun wl => fst <$> DPU m wl st)))
      by (intros i; apply decide_at_single; exact Hc).
    assert (Hlen : length (map (fun r => r.1.1) sanitized) = length B)
      by (unfold sanitized; rewrite !length_map; reflexivity).
    rewrite Hlen.
    rewrite (mapM_lookup_seq (fun wl => fst <$> DPU m wl st) B []).
    destruct (mapM _ B) as [rs|] eqn:Hrs; [|reflexivity].
    simpl. rewrite drop_ge by (rewrite length_replicate; lia).
    rewrite app_nil_r. reflexivity. }
  split; [exact Heq|]. split.
  - intros cycles Hcycles. rewrite Heq in Hcycles.
    apply mapM_Some in Hcycles. split.
    + symmetry. eapply Forall2_length. exact Hcycles.
    + intros i wl Hwl.
      destruct (Forall2_lookup_l _ _ _ _ _ Hcycles Hwl) as (c & Hci & Hd).
      exists c. auto.
  - intros Hnum. rewrite Heq. apply mapM_is_Some_2.
    apply Forall_forall. intros wl _. apply DPU_defined; assumption.
Qed.

End Batch.

Lemma demo_deterministic init out :
  deterministic_predictor (Demo.model init out) (Demo.answer out).
Proof.
  intros descs Hall. simpl in *.
  induction Hall as [|d descs Hd Hall IH]; [reflexivity|].
  destruct d as [|x [|y d]]; try discriminate. simpl. rewrite IH. reflexivity.
Qed.

Lemma DPU_batch_agrees_witness :
  fst <$> DPU_batch (Demo.model true (fun x => F32.mul x (F32.dec 25 10)))
            [ Demo.workload VPU_2_7 CONVOLUTION 64 64;
              Demo.workload VPU_2_7 OP_Invalid 64 64;
              Demo.workload VPU_2_7 MAXPOOL 3 5 ]
            Demo.state0
  = Some [160; 4294967293; 13].
Proof.
  rewrite (proj1 (DPU_batch_agrees
                    (Demo.model true (fun x => F32.mul x (F32.dec 25 10)))
                    (Demo.answer (fun x => F32.mul x (F32.dec 25 10)))
                    (demo_deterministic _ _) (fun wl => eq_refl)
                    (Nat.lt_0_succ 1) _ Demo.state0
                    (empty_cache_consistent _ _ _ _))).
  reflexivity.
Defined.

End BatchFacts.

(** ** Activity factors *)

Module ActivityFacts.
Import F32 F32Order F32Valid CostModel.

Lemma lt_irrefl a : lt a a = false.
Proof.
  destruct (lt a a) eqn:H; [|reflexivity].
  pose proof (lt_not_le _ _ H) as Hn. rewrite (lt_le _ _ H) in Hn.
  discriminate.
Qed.

(** [std::min(a, b)] is never greater than [b]. *)
Lemma min_not_gt a b : gt (min a b) b = false.
Proof.
  unfold min, gt. destruct (lt b a) eqn:H; [apply lt_irrefl | exact H].
Qed.

Lemma relative_mac_hw_utilization_valid m real_cycles ideal_cycles :
  valid (relative_mac_hw_utilization m real_cycles ideal_cycles) = true.
Proof.
  unfold relative_mac_hw_utilization.
  destruct (_ && _); [apply div_valid | reflexivity].
Qed.

Lemma mac_hw_utilization_valid m wl f st u st' :
  mac_hw_utilization m wl f st = Some (u, st') -> valid u = true.
Proof.
  unfold mac_hw_utilization, bind, ret.
  destruct (DPU_and_sanitize m wl st) as [[r st2]|]; [|discriminate].
  intros [= <- _]. apply relative_mac_hw_utilization_valid.
Qed.

(** The default correction factor 1 leaves the product as it is. *)
Lemma agnostic_factor_product m wl u :
  valid (getOperationAndPowerVirusAdjustementFactor (power_factor_lut m) wl) = true ->
  valid u = true ->
  DPU_AgnosticActivityFactor m wl u
  = mul u (getOperationAndPowerVirusAdjustementFactor (power_factor_lut m) wl).
Proof.
  intros Hpf Hu. unfold DPU_AgnosticActivityFactor,
    DPU_AgnosticActivityFactor_formula.
  apply mul_one_r. apply mul_valid; assumption.
Qed.

(** C7.  [DPU_PowerActivityFactor] is the minimum of the product
    [mac_utilization * power_factor] and the ceiling
    [get_PowerVirus_exceed_factor(device)]: it is the ceiling when the
    ceiling is below the product and the product otherwise, so it is the
    product itself whenever the product is not above the ceiling; when
    both are numbers it is at most each of them, and it is never greater
    than the ceiling.  [DPU_EfficiencyActivityFactor] is the product
    itself, with no ceiling.  (The power factor is a datum of the format;
    each function returns exactly when its utilization does, and leaves
    the state its utilization leaves.) *)
Theorem activity_factors (m : VPUCostModel) (wl : DPUWorkload)
    (st : ModelState) :
  let power_factor :=
    getOperationAndPowerVirusAdjustementFactor (power_factor_lut m) wl in
  let ceiling := get_PowerVirus_exceed_factor (power_factor_lut m) (device wl) in
  valid power_factor = true ->
  DPU_PowerActivityFactor m wl st
  = prod_map (fun u => if lt ceiling (mul u power_factor) then ceiling
                       else mul u power_factor) id
      <$> power_mac_hw_utilization m wl st /\
  (forall u st', power_mac_hw_utilization m wl st = Some (u, st') ->
     exists af,
       DPU_PowerActivityFactor m wl st = Some (af, st') /\
       (lt ceiling (mul u power_factor) = true -> af = ceiling) /\
       (lt ceiling (mul u power_factor) = false -> af = mul u power_factor) /\
       (is_nan (mul u power_factor) = false -> is_nan ceiling = false ->
        le af (mul u power_factor) = true /\ le af ceiling = true /\
        (af = mul u power_factor \/ af = ceiling))) /\
  (forall af st', DPU_PowerActivityFactor m wl st = Some (af, st') ->
                  gt af ceiling = false) /\
  DPU_EfficiencyActivityFactor m wl st
  = prod_map (fun u => mul u power_factor) id
      <$> efficiency_mac_hw_utilization m wl st.
Proof.
  intros power_factor ceiling Hpf.
  assert (Hpow : DPU_PowerActivityFactor m wl st
                 = prod_map (fun u => if lt ceiling (mul u power_factor)
                                      then ceiling else mul u power_factor) id
                     <$> power_mac_hw_utilization m wl st).
  { unfold DPU_PowerActivityFactor, bind, ret.
    destruct (power_mac_hw_utilization m wl st) as [[u st']|] eqn:Hu;
      [|reflexivity].
    simpl. rewrite agnostic_factor_product; [reflexivity | exact Hpf |].
    eapply mac_hw_utilization_valid. exact Hu. }
  split; [exact Hpow|]. split; [|split].
  - intros u st' Hu. rewrite Hpow, Hu. simpl.
    eexists. split; [reflexivity|].
    destruct (lt ceiling (mul u power_factor)) eqn:Hlt.
    + split; [reflexivity|]. split; [discriminate|].
      intros Hn1 Hn2. split; [apply lt_le; exact Hlt|].
      split; [apply F32Total.le_refl; exact Hn2 | right; reflexivity].
    + split; [discriminate|]. split; [reflexivity|].
      intros Hn1 Hn2. split; [apply F32Total.le_refl; exact Hn1|].
      split; [apply F32Total.not_lt_le; assumption | left; reflexivity].
  - intros af st' Haf. rewrite Hpow in Haf.
    destruct (power_mac_hw_utilization m wl st) as [[u st2]|]; [|discriminate].
    injection Haf as <- _. apply (min_not_gt (mul u power_factor) ceiling).
  - unfold DPU_EfficiencyActivityFactor, bind, ret.
    destruct (efficiency_mac_hw_utilization m wl st) as [[u st']|] eqn:Hu;
      [|reflexivity].
    simpl. rewrite agnostic_factor_product; [reflexivity | exact Hpf |].
    eapply mac_hw_utilization_valid. exact Hu.
Qed.

(** A utilization of 32 gives the product 29.44, clamped to the ceiling
    1.3; a utilization of 0.5 gives the product 0.46, returned as it is. *)
Lemma activity_factors_witness :
  fst <$> DPU_PowerActivityFactor (Demo.model true (fun _ => of_uint 2))
            (Demo.workload VPU_2_7 CONVOLUTION 64 16) Demo.state0
    = Some (dec 13 10) /\
  fst <$> DPU_PowerActivityFactor (Demo.model true (fun _ => of_uint 128))
            (Demo.workload VPU_2_7 CONVOLUTION 64 16) Demo.state0
    = Some (mul (dec 5 10) (dec 92 100)) /\
  fst <$> DPU_EfficiencyActivityFactor (Demo.model true (fun _ => of_uint 2))
            (Demo.workload VPU_2_7 CONVOLUTION 64 16) Demo.state0
    = Some (mul (of_uint 8) (dec 92 100)).
Proof.
  destruct (activity_factors (Demo.model true (fun _ => of_uint 2))
              (Demo.workload VPU_2_7 CONVOLUTION 64 16) Demo.state0 eq_refl)
    as (Hp & _ & _ & He).
  destruct (activity_factors (Demo.model true (fun _ => of_uint 128))
              (Demo.workload VPU_2_7 CONVOLUTION 64 16) Demo.state0 eq_refl)
    as (Hp' & _).
  rewrite Hp, Hp', He. repeat split.
Defined.

End ActivityFacts.

(** ** Results of binary32 operations that are finite *)

Module F32Finite.
Import F32 F32Facts F32Valid F32Class.

Local Abbreviation fexp := (SpecFloat.fexp prec emax).
Local Abbreviation emin := (SpecFloat.emin prec emax).

(** The exponent slot and the mantissa [shr_fexp] leaves. *)
Lemma shr_fexp_value m e l :
  0 <= m -> e <= fexp (Zdigits2 m + e) ->
  let '(mrs, e') := shr_fexp prec emax m e l in
  shr_m mrs = m / 2 ^ (fexp (Zdigits2 m + e) - e) /\
  e' = fexp (Zdigits2 m + e).
Proof.
  intros Hm He. unfold shr_fexp, shr.
  destruct (fexp (Zdigits2 m + e) - e) as [|n|n] eqn:Hn; try lia.
  - rewrite shr_record_of_loc_m. simpl. rewrite Z.div_1_r. lia.
  - rewrite iter_shr_1_m by (rewrite shr_record_of_loc_m; assumption).
    rewrite shr_record_of_loc_m. lia.
Qed.

(** Above the subnormal range the shift keeps the mantissa positive and
    the magnitude [digits + exponent]. *)
Lemma shr_fexp_magnitude m e l :
  0 < m -> e <= fexp (Zdigits2 m + e) -> emin < Zdigits2 m + e ->
  let '(mrs, e') := shr_fexp prec emax m e l in
  0 < shr_m mrs /\ Zdigits2 (shr_m mrs) + e' = Zdigits2 m + e /\
  e' = fexp (Zdigits2 m + e).
Proof.
  intros Hm He Hmin.
  pose proof (shr_fexp_value m e l ltac:(lia) He) as Hv.
  destruct (shr_fexp prec emax m e l) as [mrs e'].
  destruct Hv as [Hm' He'].
  set (n := fexp (Zdigits2 m + e) - e) in *.
  assert (Hn : 0 <= n) by (unfold n; lia).
  assert (Hd : Zdigits2 (shr_m mrs) = Zdigits2 m - n).
  { rewrite Hm', Zdigits2_div_pow2 by lia.
    unfold n, SpecFloat.fexp, SpecFloat.emin, prec, emax in *. lia. }
  assert (Hpos : 0 < Zdigits2 (shr_m mrs)).
  { rewrite Hd. unfold n, SpecFloat.fexp, SpecFloat.emin, prec, emax in *. lia. }
  split; [|split; [rewrite Hd, He'; unfold n; lia | exact He']].
  assert (H0 : 0 <= shr_m mrs).
  { rewrite Hm'. apply Z.div_pos; [lia | apply Z.pow_pos_nonneg; lia]. }
  destruct (shr_m mrs) as [|p|p]; simpl in Hpos; lia.
Qed.

Lemma Zdigits2_succ m : 0 <= m -> Zdigits2 (m + 1) <= Zdigits2 m + 1.
Proof.
  intros Hm. destruct (Z.eq_dec m 0) as [-> | Hne]; [simpl; lia|].
  pose proof (Zdigits2_bounds m ltac:(lia)) as [_ Hhi].
  pose proof (Zdigits2_bounds (m + 1) ltac:(lia)) as [Hlo _].
  pose proof (Zdigits2_pos m ltac:(lia)) as Hd.
  destruct (Z.le_gt_cases (Zdigits2 (m + 1)) (Zdigits2 m + 1)) as [|Hgt];
    [assumption|].
  assert (2 ^ (Zdigits2 m + 1) <= 2 ^ (Zdigits2 (m + 1) - 1))
    by (apply Z.pow_le_mono_r; lia).
  rewrite Z.pow_add_r in * by lia. change (2 ^ 1) with 2 in *. lia.
Qed.

(** The rounding step on a positive mantissa of bounded magnitude gives a
    finite, non-zero datum of nearly the same magnitude. *)
Lemma binary_round_aux_finite s m e l :
  0 < m -> e <= fexp (Zdigits2 m + e) ->
  emin < Zdigits2 m + e -> Zdigits2 m + e < emax ->
  exists m'' e'',
    binary_round_aux prec emax s m e l = S754_finite s m'' e'' /\
    Zdigits2 m + e <= Zpos (digits2_pos m'') + e'' <= Zdigits2 m + e + 1.
Proof.
  intros Hm He Hmin Hmax. unfold binary_round_aux.
  pose proof (shr_fexp_magnitude m e l Hm He Hmin) as H1.
  destruct (shr_fexp prec emax m e l) as [mrs' e'].
  destruct H1 as (Hm' & Hmag' & He').
  pose proof (round_nearest_even_range (shr_m mrs') (loc_of_shr_record mrs'))
    as Hr.
  set (m1 := round_nearest_even (shr_m mrs') (loc_of_shr_record mrs')) in *.
  pose proof (Zdigits2_mono (shr_m mrs') m1 ltac:(lia)) as Hd1.
  pose proof (Zdigits2_mono m1 (shr_m mrs' + 1) ltac:(lia)) as Hd2.
  pose proof (Zdigits2_succ (shr_m mrs') ltac:(lia)) as Hd3.
  assert (He1 : e' <= fexp (Zdigits2 m1 + e')).
  { rewrite He'. apply fexp_mono. lia. }
  pose proof (shr_fexp_magnitude m1 e' loc_Exact ltac:(lia) He1 ltac:(lia)) as H2.
  destruct (shr_fexp prec emax m1 e' loc_Exact) as [mrs'' e''].
  destruct H2 as (Hm'' & Hmag'' & He'').
  destruct (shr_m mrs'') as [|p|p] eqn:Hp; try lia.
  assert (Hle : e'' <= emax - prec).
  { rewrite He''. unfold SpecFloat.fexp, SpecFloat.emin, prec, emax in *. lia. }
  rewrite (proj2 (Z.leb_le _ _) Hle).
  exists p, e''. split; [reflexivity|]. simpl Zdigits2 in Hmag''. lia.
Qed.

Lemma Zdigits2_le_pow2 z k : 0 < z -> 0 <= k -> z < 2 ^ k -> Zdigits2 z <= k.
Proof.
  intros Hz Hk Hlt. pose proof (Zdigits2_bounds z Hz) as [Hlo _].
  destruct (Z.le_gt_cases (Zdigits2 z) k) as [|Hgt]; [assumption|].
  assert (2 ^ k <= 2 ^ (Zdigits2 z - 1)) by (apply Z.pow_le_mono_r; lia).
  lia.
Qed.

(** The conversion of a positive integer below [2^127] is finite and
    positive, of the magnitude of the integer or one more. *)
Lemma of_uint_finite z :
  0 < z < 2 ^ 127 ->
  exists m e, of_uint z = S754_finite false m e /\
              Zdigits2 z <= Zpos (digits2_pos m) + e <= Zdigits2 z + 1.
Proof.
  intros [Hz Hlt]. destruct z as [|p|p]; try lia.
  pose proof (Zdigits2_le_pow2 (Zpos p) 127 ltac:(lia) ltac:(lia) Hlt) as Hd.
  pose proof (Zdigits2_pos (Zpos p) ltac:(lia)) as Hd0.
  unfold of_uint, binary_normalize, binary_round, shl_align.
  simpl Zdigits2 in Hd, Hd0.
  destruct (fexp (Zpos (digits2_pos p) + 0) - 0) as [|d|d] eqn:Hs.
  - destruct (binary_round_aux_finite false (Zpos p) 0 loc_Exact)
      as (m & e & Hr & Hb); simpl Zdigits2;
      unfold SpecFloat.fexp, SpecFloat.emin, prec, emax in *; try lia.
    exists m, e. split; [exact Hr | simpl Zdigits2 in *; lia].
  - destruct (binary_round_aux_finite false (Zpos p) 0 loc_Exact)
      as (m & e & Hr & Hb); simpl Zdigits2;
      unfold SpecFloat.fexp, SpecFloat.emin, prec, emax in *; try lia.
    exists m, e. split; [exact Hr | simpl Zdigits2 in *; lia].
  - assert (Hdig : Zdigits2 (Zpos (Pos.iter xO p d))
                   = Zpos (digits2_pos p) + Zpos d).
    { rewrite iter_xO_value, Zdigits2_mul_pow2 by lia. reflexivity. }
    destruct (binary_round_aux_finite false (Zpos (Pos.iter xO p d))
                (fexp (Zpos (digits2_pos p) + 0)) loc_Exact)
      as (m & e & Hr & Hb); rewrite ?Hdig;
      unfold SpecFloat.fexp, SpecFloat.emin, prec, emax in *; try lia.
    exists m, e. split; [exact Hr|]. rewrite Hdig in Hb.
    simpl Zdigits2 in *. lia.
Qed.

Lemma Zdigits2_div_le a b :
  0 < b -> b <= a -> Zdigits2 (a / b) <= Zdigits2 a - Zdigits2 b + 1.
Proof.
  intros Hb Hab.
  pose proof (Zdigits2_bounds a ltac:(lia)) as [_ Hha].
  pose proof (Zdigits2_bounds b Hb) as [Hlb _].
  pose proof (Zdigits2_pos a ltac:(lia)). pose proof (Zdigits2_pos b Hb).
  assert (Hq : 0 < a / b) by (apply Z.div_str_pos; lia).
  assert (Hdb : Zdigits2 b <= Zdigits2 a) by (apply Zdigits2_mono; lia).
  apply Zdigits2_le_pow2; [assumption | lia |].
  apply Z.div_lt_upper_bound; [lia|].
  assert (Hsplit : 2 ^ Zdigits2 a
                   = 2 ^ (Zdigits2 b - 1) * 2 ^ (Zdigits2 a - Zdigits2 b + 1)).
  { rewrite <- Z.pow_add_r by lia. f_equal. lia. }
  assert (0 < 2 ^ (Zdigits2 a - Zdigits2 b + 1))
    by (apply Z.pow_pos_nonneg; lia).
  nia.
Qed.

(** The quotient of two finite data whose magnitudes are not too far
    apart is finite and non-zero. *)
Lemma div_finite sx mx ex sy my ey :
  let delta := Zpos (digits2_pos mx) + ex - (Zpos (digits2_pos my) + ey) in
  emin + prec <= delta -> delta + 1 < emax ->
  exists m e,
    div (S754_finite sx mx ex) (S754_finite sy my ey)
    = S754_finite (xorb sx sy) m e.
Proof.
  intros delta Hlo Hhi. unfold div, SFdiv, SFdiv_core_binary.
  set (d1 := Zdigits2 (Zpos mx)). set (d2 := Zdigits2 (Zpos my)).
  assert (Hdelta : delta = d1 + ex - (d2 + ey)) by reflexivity.
  set (e' := Z.min (fexp (d1 + ex - (d2 + ey))) (ex - ey)).
  set (m' := match ex - ey - e' with
             | 0 => Zpos mx
             | Zpos _ => Z.shiftl (Zpos mx) (ex - ey - e')
             | Zneg _ => 0
             end).
  assert (Hs : 0 <= ex - ey - e') by (unfold e'; lia).
  assert (Hm' : m' = Zpos mx * 2 ^ (ex - ey - e')).
  { unfold m'. destruct (ex - ey - e') as [|s|s] eqn:Hse.
    - simpl. lia.
    - rewrite Z.shiftl_mul_pow2 by lia. reflexivity.
    - lia. }
  assert (Hp : 0 < 2 ^ (ex - ey - e')) by (apply Z.pow_pos_nonneg; lia).
  assert (Hm'pos : 0 < m') by nia.
  assert (Hdm' : Zdigits2 m' = d1 + (ex - ey - e')).
  { rewrite Hm', Zdigits2_mul_pow2 by lia. reflexivity. }
  assert (He' : e' <= fexp delta) by (unfold e'; rewrite Hdelta; lia).
  assert (Hfd : fexp delta = delta - prec).
  { unfold SpecFloat.fexp, SpecFloat.emin, prec, emax in *. lia. }
  assert (Hbig : Zpos my <= m').
  { destruct (Z.le_gt_cases (Zpos my) m') as [|Hgt]; [assumption|].
    pose proof (Zdigits2_mono m' (Zpos my) ltac:(lia)) as Hmono.
    fold d2 in Hmono. rewrite Hdm' in Hmono. unfold prec in *. lia. }
  pose proof (Zdigits2_div_ge m' (Zpos my) Hm'pos ltac:(lia)) as Hge.
  pose proof (Zdigits2_div_le m' (Zpos my) ltac:(lia) Hbig) as Hle.
  fold d2 in Hge, Hle. rewrite Hdm' in Hge, Hle.
  pose proof (Z.div_pos m' (Zpos my) ltac:(lia) ltac:(lia)) as Hq0.
  unfold Z.div in Hge, Hle, Hq0.
  destruct (Z.div_eucl m' (Zpos my)) as [q r] eqn:Hqr.
  cbn [fst] in Hge, Hle, Hq0.
  assert (Hq : 0 < q).
  { assert (0 < Zdigits2 q) by (unfold prec in *; lia).
    destruct q; simpl in *; lia. }
  match goal with
  | |- context [binary_round_aux _ _ _ _ _ ?l] =>
      destruct (binary_round_aux_finite (xorb sx sy) q e' l)
        as (m & e & Hr & _)
  end.
  - exact Hq.
  - apply Z.le_trans with (fexp delta); [exact He'|].
    apply fexp_mono. lia.
  - unfold prec in *. lia.
  - lia.
  - exists m, e. exact Hr.
Qed.

(** [mul] by a zero. *)
Lemma mul_zero_l a b : is_zero a = true -> is_number b = true ->
  is_zero (mul a b) = true.
Proof. destruct a, b; try discriminate; reflexivity. Qed.

Lemma mul_zero_r a s :
  is_number a = true -> is_zero (mul a (S754_zero s)) = true.
Proof. destruct a; try discriminate; reflexivity. Qed.

Lemma lt_zero_sign a s : lt a (S754_zero s) = lt a zero.
Proof. destruct a as [[]|[]| |[] ? ?], s; reflexivity. Qed.

End F32Finite.

(** ** When the power-factor lookup returns *)

Module PowerRangeFacts.
Import F32 F32Order F32Total Power PowerFacts.

(** No key is comparable with a NaN: the loop leaves its two bounds. *)
Lemma neighbours_nan table : forall s g,
  s <> g -> neighbours S754_nan table s g = (s, g).
Proof.
  induction table as [|[k v] rest IH]; intros s g Hsg; [reflexivity|].
  cbn [neighbours]. unfold ge. rewrite le_nan_r, le_nan_l. cbn [andb].
  destruct (Z.eqb_spec s g); [contradiction|]. apply IH. assumption.
Qed.

(** A number between the first and the last key is a key or lies strictly
    between two adjacent keys. *)
Lemma locate x : forall rest k0 v0 kn vn lo,
  increasing lo ((k0, v0) :: rest) -> 0 <= lo ->
  last ((k0, v0) :: rest) = Some (kn, vn) ->
  le (of_uint k0) x = true -> le x (of_uint kn) = true ->
  (exists k v, In (k, v) ((k0, v0) :: rest) /\ x = of_uint k) \/
  (exists pre s fs g fg post,
     (k0, v0) :: rest = pre ++ (s, fs) :: (g, fg) :: post /\
     lt (of_uint s) x = true /\ lt x (of_uint g) = true).
Proof.
  induction rest as [|[k1 v1] rest IH]; intros k0 v0 kn vn lo Hinc Hlo Hlast H0 Hn.
  - simpl in Hlast. injection Hlast as <- <-.
    destruct Hinc as (Hk & Hmax & _). unfold max_ch_log2 in Hmax.
    destruct (of_uint_small_finite k0 ltac:(lia)) as (m & e & Hf).
    rewrite Hf in H0. apply le_eq_or_lt in H0 as [Hx | Hlt].
    + left. exists k0, v0. split; [left; reflexivity | congruence].
    + rewrite <- Hf in Hlt. pose proof (lt_not_le _ _ Hlt) as Hc.
      rewrite Hn in Hc. discriminate.
  - pose proof Hinc as (Hk0 & Hmax0 & Hrest).
    pose proof Hrest as (Hk1 & Hmax1 & _). unfold max_ch_log2 in *.
    destruct (le_not_nan _ _ H0) as [_ Hxn].
    destruct (lt x (of_uint k1)) eqn:H1.
    + destruct (of_uint_small_finite k0 ltac:(lia)) as (m & e & Hf).
      rewrite Hf in H0. apply le_eq_or_lt in H0 as [Hx | Hlt].
      * left. exists k0, v0. split; [left; reflexivity | congruence].
      * right. exists [], k0, v0, k1, v1, rest. rewrite Hf.
        split; [reflexivity|]. auto.
    + assert (Hle1 : le (of_uint k1) x = true).
      { apply not_lt_le; [assumption| |assumption].
        destruct (of_uint_small_finite k1 ltac:(lia)) as (m & e & ->).
        reflexivity. }
      destruct (IH k1 v1 kn vn k0 Hrest ltac:(lia) Hlast Hle1 Hn)
        as [(k & v & Hin & Hx) | (pre & s & fs & g & fg & post & Heq & Hs & Hg)].
      * left. exists k, v. split; [right; exact Hin | exact Hx].
      * right. exists ((k0, v0) :: pre), s, fs, g, fg, post.
        rewrite Heq. auto.
Qed.

Lemma last_snoc_inv {A} (l : list A) (x : A) :
  last l = Some x -> exists pre, l = pre ++ [x].
Proof.
  intros H. destruct (decide (l = [])) as [-> | Hne]; [discriminate|].
  destruct (exists_last Hne) as (pre & y & ->).
  rewrite last_snoc in H. injection H as ->. eauto.
Qed.

Section WithLog2.

Variable log2f : float -> float.

Lemma interpolation_nan lut table :
  increasing 0 table -> log2f (of_uint (input_ch lut)) = S754_nan ->
  getValueInterpolation log2f lut table = Raises std_out_of_range.
Proof.
  intros Hinc Hx. unfold getValueInterpolation. rewrite Hx.
  rewrite neighbours_nan by (unfold max_ch_log2; lia).
  unfold max_ch_log2. change (gt (of_uint (wrap32 (13 - 0))) zero) with true.
  cbv iota. rewrite (table_at_absent_low 0) by (auto; lia). reflexivity.
Qed.

(** The interpolation returns exactly on the closed range of the keys. *)
Lemma interpolation_returns_iff lut k0 v0 rest kn vn :
  let x := log2f (of_uint (input_ch lut)) in
  increasing 0 ((k0, v0) :: rest) ->
  last ((k0, v0) :: rest) = Some (kn, vn) ->
  (exists v, getValueInterpolation log2f lut ((k0, v0) :: rest) = Returns v) <->
  le (of_uint k0) x = true /\ le x (of_uint kn) = true.
Proof.
  intros x Hinc Hlast. split.
  - intros [v Hv].
    destruct (is_nan x) eqn:Hnan.
    { destruct x eqn:Hx; try discriminate.
      rewrite interpolation_nan in Hv by assumption. discriminate. }
    pose proof Hinc as (Hk0 & Hmax0 & _). unfold max_ch_log2 in Hmax0.
    destruct (last_snoc_inv _ _ Hlast) as [pre Hpre].
    assert (Hkn : 0 < kn < 13).
    { apply (increasing_In 0 ((k0, v0) :: rest) kn vn Hinc).
      rewrite Hpre. apply in_or_app. right. left. reflexivity. }
    split.
    + apply not_lt_le; [assumption| |].
      * destruct (of_uint_small_finite k0 ltac:(lia)) as (m & e & ->).
        reflexivity.
      * destruct (lt x (of_uint k0)) eqn:Hlt; [|reflexivity].
        rewrite interpolation_below in Hv by assumption. discriminate.
    + apply not_lt_le; [|assumption|].
      * destruct (of_uint_small_finite kn ltac:(lia)) as (m & e & ->).
        reflexivity.
      * destruct (lt (of_uint kn) x) eqn:Hlt; [|reflexivity].
        rewrite Hpre in Hv, Hinc.
        rewrite interpolation_above in Hv by assumption. discriminate.
  - intros [H0 Hn].
    destruct (locate x rest k0 v0 kn vn 0 Hinc ltac:(lia) Hlast H0 Hn)
      as [(k & v & Hin & Hx) | (pre & s & fs & g & fg & post & Heq & Hs & Hg)].
    + exists v. apply (interpolation_exact log2f lut _ k v); assumption.
    + rewrite Heq in Hinc |- *. eexists.
      apply interpolation_between; assumption.
Qed.

(** X1.  For a device and an operation that have a table, [getValue]
    returns a number exactly when [log2(input_ch)] lies in the closed range
    from the first to the last key of the table, and raises
    [std::out_of_range] for every other input, a NaN included.  A table of
    one key, as the pooling, element-wise and depthwise operations have,
    answers that one channel count only. *)
Theorem getValue_returns_iff (lut : VPUPowerFactorLUT) (fp_comp : bool)
    (tables : lut_t) (k0 : Z) (v0 : float) (rest : table_t)
    (kn : Z) (vn : float) :
  let x := log2f (of_uint (input_ch lut)) in
  In (vpu_device lut, tables) pf_lut ->
  In (op_type lut, (k0, v0) :: rest) tables ->
  last ((k0, v0) :: rest) = Some (kn, vn) ->
  ((exists v, getValue log2f lut fp_comp = Returns v) <->
   le (of_uint k0) x = true /\ le x (of_uint kn) = true) /\
  (le (of_uint k0) x && le x (of_uint kn) = false ->
   getValue log2f lut fp_comp = Raises std_out_of_range) /\
  (rest = [] ->
   (exists v, getValue log2f lut fp_comp = Returns v) <-> x = of_uint k0).
Proof.
  intros x Hd Ho Hlast.
  pose proof (pf_lut_increasing _ _ _ _ Hd Ho) as Hinc.
  pose proof (interpolation_returns_iff lut k0 v0 rest kn vn Hinc Hlast) as Hiff.
  rewrite (getValue_found log2f lut fp_comp tables _ Hd Ho).
  assert (Hret : (exists v,
              result_bind (getValueInterpolation log2f lut ((k0, v0) :: rest))
                (fun v => Returns (getScaledValue v fp_comp (vpu_device lut)))
              = Returns v) <->
            le (of_uint k0) x = true /\ le x (of_uint kn) = true).
  { etransitivity; [|exact Hiff]. split.
    - intros [v Hv].
      destruct (getValueInterpolation _ _ _) as [u|e]; [eauto | discriminate].
    - intros [v ->]. simpl. eauto. }
  split; [exact Hret|]. split.
  - intros Hout.
    destruct (getValueInterpolation _ _ _) as [u|[]]; simpl in *;
      [|reflexivity].
    destruct (proj1 Hret ltac:(eauto)) as [H0 Hn].
    rewrite H0, Hn in Hout. discriminate.
  - intros ->. simpl in Hlast. injection Hlast as <- <-.
    rewrite Hret. split.
    + intros [H0 Hn].
      pose proof Hinc as (Hk0 & Hmax0 & _). unfold max_ch_log2 in Hmax0.
      destruct (of_uint_small_finite k0 ltac:(lia)) as (m & e & Hf).
      rewrite Hf in H0 |- *. apply le_eq_or_lt in H0 as [Hx | Hlt]; [exact Hx|].
      rewrite <- Hf in Hlt. pose proof (lt_not_le _ _ Hlt) as Hc.
      fold x in Hc. rewrite Hn in Hc. discriminate.
    + intros ->.
      pose proof Hinc as (Hk0 & Hmax0 & _). unfold max_ch_log2 in Hmax0.
      split; apply of_uint_small_le; lia.
Qed.

End WithLog2.

Lemma getValue_returns_iff_witness :
  (exists v, getValue Demo.log2_linear (mkLUT 64 DW_CONVOLUTION VPU_2_7) false
             = Returns v) /\
  ~ (exists v, getValue Demo.log2_linear (mkLUT 32 DW_CONVOLUTION VPU_2_7) false
               = Returns v).
Proof.
  split.
  - apply (proj2 (proj2 (getValue_returns_iff Demo.log2_linear
                    (mkLUT 64 DW_CONVOLUTION VPU_2_7) false vpu_2_7_values
                    6 (dec 143 100) [] 6 (dec 143 100)
                    ltac:(right; left; reflexivity)
                    ltac:(right; left; reflexivity) eq_refl)) eq_refl).
    reflexivity.
  - intros H.
    apply (proj2 (proj2 (getValue_returns_iff Demo.log2_linear
                    (mkLUT 32 DW_CONVOLUTION VPU_2_7) false vpu_2_7_values
                    6 (dec 143 100) [] 6 (dec 143 100)
                    ltac:(right; left; reflexivity)
                    ltac:(right; left; reflexivity) eq_refl)) eq_refl) in H.
    vm_compute in H. discriminate.
Defined.

End PowerRangeFacts.

(** ** The registry of preprocessors and the constructor *)

Module FactoryFacts.
Import Factory.

(** The entries of [pp_map], in the order of the initializer list. *)
Local Abbreviation entries_of factory :=
  [ (getInterfaceVersion (pp_v00_latest factory), pp_v00_latest factory);
    (getInterfaceVersion (pp_v01_base factory), pp_v01_base factory);
    (getInterfaceVersion (pp_v10 factory), pp_v10 factory);
    (getInterfaceVersion (pp_v11 factory), pp_v11 factory) ].

(** Every entry of the map sits under the version of its preprocessor. *)
Lemma pp_map_lookup factory version preproc :
  pp_map factory !! version = Some preproc ->
  getInterfaceVersion preproc = version /\
  preproc ∈ [pp_v00_latest factory; pp_v01_base factory; pp_v10 factory;
             pp_v11 factory].
Proof.
  intros H. apply elem_of_list_to_map_2 in H.
  repeat (apply elem_of_cons in H as [[= -> ->] | H];
          [split; [reflexivity | set_solver]|]).
  inversion H.
Qed.

Lemma exists_preprocessing_iff factory version :
  exists_preprocessing factory version = true <->
  version ∈ [getInterfaceVersion (pp_v00_latest factory);
             getInterfaceVersion (pp_v01_base factory);
             getInterfaceVersion (pp_v10 factory);
             getInterfaceVersion (pp_v11 factory)].
Proof.
  unfold exists_preprocessing.
  destruct (pp_map factory !! version) as [p|] eqn:Hp.
  - split; [intros _ | reflexivity].
    apply elem_of_list_to_map_2 in Hp.
    apply (list_elem_of_fmap_2 fst) in Hp. exact Hp.
  - split; [discriminate|]. intros Hin. exfalso.
    apply (not_elem_of_list_to_map_2 (entries_of factory)) in Hp.
    apply Hp. exact Hin.
Qed.

(** X2.  [exists_preprocessing] holds exactly for the interface versions of
    the four preprocessors of the factory.  [make_preprocessing] returns
    exactly for those versions, and then returns one of the four whose own
    interface version is the requested one; for every other version it
    raises [std::out_of_range]. *)
Theorem make_preprocessing_spec (factory : RuntimeProcessingFactory)
    (version : Z) :
  (exists_preprocessing factory version = true <->
   version ∈ [getInterfaceVersion (pp_v00_latest factory);
              getInterfaceVersion (pp_v01_base factory);
              getInterfaceVersion (pp_v10 factory);
              getInterfaceVersion (pp_v11 factory)]) /\
  match make_preprocessing factory version with
  | Returns preproc =>
      exists_preprocessing factory version = true /\
      getInterfaceVersion preproc = version /\
      preproc ∈ [pp_v00_latest factory; pp_v01_base factory; pp_v10 factory;
                 pp_v11 factory]
  | Raises e =>
      e = std_out_of_range /\ exists_preprocessing factory version = false
  end.
Proof.
  split; [apply exists_preprocessing_iff|].
  unfold make_preprocessing, exists_preprocessing.
  destruct (pp_map factory !! version) as [p|] eqn:Hp.
  - split; [reflexivity|]. apply pp_map_lookup. exact Hp.
  - split; reflexivity.
Qed.

Lemma init_preproc_spec factory v :
  match init_preproc factory v with
  | Built preproc =>
      exists_preprocessing factory (get_input_interface_version v) = true /\
      getInterfaceVersion preproc = get_input_interface_version v
  | Throws e =>
      e = std_runtime_error /\
      exists_preprocessing factory (get_input_interface_version v) = false
  end.
Proof.
  unfold init_preproc, make_preprocessing, exists_preprocessing.
  destruct (pp_map factory !! get_input_interface_version v) as [p|] eqn:Hp.
  - split; [reflexivity|]. apply (pp_map_lookup factory). exact Hp.
  - split; reflexivity.
Qed.

(** X3.  The constructor binds the cost model to a preprocessor of the
    input interface version of the loaded model, and fails in two cases
    only, each time with [std::runtime_error]: the factory has no
    preprocessor of that version; or it has one, the raw name of the model
    is not ["none"], and the output interface version is not supported.
    The [std::out_of_range] of [make_preprocessing] never leaves
    [init_preproc], and a model named ["none"] is never refused for its
    output version. *)
Theorem construct_failures (factory : RuntimeProcessingFactory)
    (PostProcessSupport : Z -> bool) (v : ModelVersion) :
  let known :=
    exists_preprocessing factory (get_input_interface_version v) in
  let supported := PostProcessSupport (get_output_interface_version v) in
  match construct factory PostProcessSupport v with
  | Built preprocessing =>
      known = true /\
      getInterfaceVersion preprocessing = get_input_interface_version v /\
      (get_raw_name v = "none"%string \/ supported = true)
  | Throws e =>
      e = std_runtime_error /\
      (known = false \/
       (known = true /\ get_raw_name v <> "none"%string /\ supported = false))
  end.
Proof.
  intros known supported. unfold construct.
  pose proof (init_preproc_spec factory v) as Hinit.
  destruct (init_preproc factory v) as [p|e].
  - destruct Hinit as [Hk Hv]. unfold check_post_config. fold supported.
    case_bool_decide as Hname.
    + auto.
    + destruct supported; simpl; auto 6.
  - destruct Hinit as [-> Hk]. auto.
Qed.

End FactoryFacts.

(** ** The power model *)

Module PowerModelFacts.
Import F32 F32Class F32Order F32Total F32Finite PowerModel.

Lemma lt_irreflexive a : lt a a = false.
Proof.
  destruct (lt a a) eqn:H; [|reflexivity].
  pose proof (lt_not_le _ _ H) as Hn. rewrite (lt_le _ _ H) in Hn.
  discriminate.
Qed.

Section MaxElement.
Context {A : Type}.
Variable key : A -> float.

Local Abbreviation comp := (fun a b : A => lt (key a) (key b)).

(** [std::max_element] under a comparison of numbers: the element it stops
    at is one of the range, and no element of the range is greater. *)
Lemma max_element_from_spec (l : list A) : forall largest seen,
  (forall x, In x (largest :: seen ++ l) -> is_nan (key x) = false) ->
  (forall x, In x (largest :: seen) -> lt (key largest) (key x) = false) ->
  let r := max_element_from comp largest l in
  In r (largest :: l) /\
  forall x, In x (largest :: seen ++ l) -> lt (key r) (key x) = false.
Proof.
  induction l as [|y l IH]; intros largest seen Hnum Hmax r.
  - subst r. simpl. split; [auto|]. rewrite app_nil_r. exact Hmax.
  - subst r. cbn [max_element_from].
    destruct (lt (key largest) (key y)) eqn:Hly.
    + destruct (IH y (largest :: seen)) as [Hin Hall].
      * intros x Hx. apply Hnum. simpl in Hx |- *.
        rewrite in_app_iff in Hx |- *. simpl. tauto.
      * intros x [<- | Hx]; [apply lt_irreflexive|].
        assert (Hxl : le (key x) (key largest) = true).
        { apply not_lt_le; [apply Hnum; left; reflexivity| |apply Hmax; exact Hx].
          apply Hnum. simpl in Hx |- *. rewrite in_app_iff. tauto. }
        pose proof (le_lt_trans _ _ _ Hxl Hly) as Hxy.
        destruct (lt (key y) (key x)) eqn:Hyx; [|reflexivity].
        pose proof (lt_not_le _ _ Hxy) as Hn.
        rewrite (lt_le _ _ Hyx) in Hn. discriminate.
      * split; [right; exact Hin|].
        intros x Hx. apply Hall. simpl in Hx |- *.
        rewrite in_app_iff in Hx |- *. simpl in Hx |- *. tauto.
    + destruct (IH largest (seen ++ [y])) as [Hin Hall].
      * intros x Hx. apply Hnum. rewrite <- app_assoc in Hx. exact Hx.
      * intros x [<- | Hx]; [apply lt_irreflexive|].
        apply in_app_or in Hx as [Hx | [<- | []]];
          [apply Hmax; right; exact Hx | exact Hly].
      * split; [destruct Hin as [<- | Hin]; [left; reflexivity|right; right; exact Hin]|].
        intros x Hx. apply Hall. rewrite <- app_assoc. exact Hx.
Qed.

Lemma max_element_spec (l : list A) :
  l <> [] -> (forall x, In x l -> is_nan (key x) = false) ->
  exists r, max_element comp l = Some r /\ In r l /\
            forall x, In x l -> lt (key r) (key x) = false.
Proof.
  destruct l as [|a l]; [congruence|]. intros _ Hnum.
  destruct (max_element_from_spec l a []) as [Hin Hall].
  - exact Hnum.
  - intros x [<- | []]. apply lt_irreflexive.
  - eexists. split; [reflexivity|]. split; [exact Hin | exact Hall].
Qed.

End MaxElement.

Lemma valid_points_are_numbers device d :
  In d (getValidDVFS device) ->
  is_nan (frequency d) = false /\ is_nan (voltage d) = false.
Proof.
  destruct device; simpl; intros H;
    repeat (destruct H as [<- | H]; [split; reflexivity|]); destruct H.
Qed.

(** X4.  [getDefaultDVFS] is defined for every device: it is one of the
    points of [getValidDVFS], no point of the device has a greater
    frequency, and, the points being listed by increasing frequency, it is
    the last of them. *)
Theorem getDefaultDVFS_is_fastest (device : VPUDevice) :
  exists dvfs,
    getDefaultDVFS device = Some dvfs /\
    In dvfs (getValidDVFS device) /\
    (forall d, In d (getValidDVFS device) ->
               lt (frequency dvfs) (frequency d) = false) /\
    last (getValidDVFS device) = Some dvfs.
Proof.
  destruct (max_element_spec frequency (getValidDVFS device))
    as (r & Hr & Hin & Hmax).
  - destruct device; discriminate.
  - intros x Hx. apply (valid_points_are_numbers device x Hx).
  - exists r. split; [exact Hr|]. split; [exact Hin|]. split; [exact Hmax|].
    unfold getDefaultDVFS in Hr.
    destruct device; vm_compute in Hr; injection Hr as <-; reflexivity.
Qed.

Lemma getCDyn_zero device hw : getCDyn device hw = zero.
Proof. destruct device, hw; reflexivity. Qed.

Lemma getNominalLeakage_zero device hw : getNominalLeakage device hw = zero.
Proof. destruct device, hw; reflexivity. Qed.

(** X5.  Every capacitance of [getCDyn] is the placeholder 0, so the power
    of a DMA transfer is zero whatever the transfer: at the default
    operating point of its device [DMAPower] returns +0, and at any
    operating point whose voltage and frequency are numbers it returns a
    zero.  (At an infinite or NaN operating point the product is a NaN.) *)
Theorem DMAPower_is_zero (wl : DMAWorkload) (dvfs : DVFS) :
  DMAPower wl = Some zero /\
  (is_number (voltage dvfs) = true -> is_number (frequency dvfs) = true ->
   is_zero (DMAPower_at wl dvfs) = true) /\
  (is_number (voltage dvfs) = false \/ is_number (frequency dvfs) = false ->
   DMAPower_at wl dvfs = S754_nan).
Proof.
  split; [|split].
  - unfold DMAPower, DMAPower_at. rewrite getCDyn_zero.
    destruct (dma_device wl); reflexivity.
  - intros Hv Hf. unfold DMAPower_at, DynamicPower_at, DynamicPower.
    rewrite getCDyn_zero.
    repeat apply mul_zero_l; auto; reflexivity.
  - intros H. unfold DMAPower_at, DynamicPower_at, DynamicPower.
    rewrite getCDyn_zero.
    destruct (voltage dvfs) as [[]|[]| |[] ? ?],
             (frequency dvfs) as [[]|[]| |[] ? ?];
      try reflexivity; simpl in H; destruct H; discriminate.
Qed.

Lemma DMAPower_is_zero_witness :
  is_zero (DMAPower_at
             (mkDMAWorkload VPU_2_7 (Demo.tensor 64) (Demo.tensor 64) DRAM CMX 1)
             (mkDVFS (dec 75 100) (of_uint 1100))) = true.
Proof.
  apply (proj1 (proj2 (DMAPower_is_zero
                  (mkDMAWorkload VPU_2_7 (Demo.tensor 64) (Demo.tensor 64)
                     DRAM CMX 1)
                  (mkDVFS (dec 75 100) (of_uint 1100)))));
    reflexivity.
Defined.

(** X6.  Every leakage of [getNominalLeakage] is the placeholder 0.  For
    one of the four devices the static power is therefore zero at every
    operating point whose voltage is a number, and +0 at the default one.
    For a device outside the four the nominal voltage is the 0 of the
    value-initialized point, the quotient is 0/0, and the static power is a
    NaN at every operating point. *)
Theorem StaticPower_placeholder (device : VPUDevice) (hw : VPUSubsystem)
    (dvfs : DVFS) :
  (device <> VPU_Unknown ->
   StaticPower device hw = Some zero /\
   (is_number (voltage dvfs) = true ->
    exists z, StaticPower_at device hw dvfs = Some z /\ is_zero z = true)) /\
  (device = VPU_Unknown ->
   StaticPower device hw = Some S754_nan /\
   StaticPower_at device hw dvfs = Some S754_nan).
Proof.
  split.
  - intros Hd. split.
    + unfold StaticPower, StaticPower_at. rewrite getNominalLeakage_zero.
      destruct device; try reflexivity. contradiction.
    + intros Hv. unfold StaticPower_at. rewrite getNominalLeakage_zero.
      destruct device; try contradiction;
        (eexists; split; [reflexivity|]);
        destruct (voltage dvfs) as [[]|[]| |[] ? ?]; try discriminate;
        reflexivity.
  - intros ->. split; [reflexivity|].
    unfold StaticPower_at. simpl.
    destruct (voltage dvfs) as [[]|[]| |[] ? ?]; reflexivity.
Qed.

Lemma StaticPower_placeholder_witness :
  StaticPower VPU_4_0 VPU_DPU = Some zero /\
  StaticPower VPU_Unknown VPU_DPU = Some S754_nan.
Proof.
  split.
  - apply (proj1 (StaticPower_placeholder VPU_4_0 VPU_DPU (mkDVFS zero zero))).
    discriminate.
  - apply (proj2 (StaticPower_placeholder VPU_Unknown VPU_DPU
                    (mkDVFS zero zero))).
    reflexivity.
Defined.

End PowerModelFacts.

(** ** The published interval of valid network outputs *)

Module IntervalFacts.
Import F32 F32Order F32Total CostModel CostModelInfo.

(** X7.  [get_NN_Valid_interval] is the interval the range check of [DPU]
    accepts, both ends included: a raw output that is a number passes
    [is_NN_value_invalid] exactly when it lies between the first and the
    second component of the pair, which are 0 and 4 000 000 000.  A NaN
    lies in no interval and passes the check all the same. *)
Theorem valid_interval_is_closed (nn_output_cycles : float) :
  let lo := get_NN_Valid_interval.1 in
  let hi := get_NN_Valid_interval.2 in
  (is_nan nn_output_cycles = false ->
   (is_NN_value_invalid nn_output_cycles = false <->
    le lo nn_output_cycles = true /\ le nn_output_cycles hi = true)) /\
  lo = zero /\ hi = of_uint 4000000000 /\
  is_NN_value_invalid S754_nan = false /\
  le lo S754_nan = false.
Proof.
  intros lo hi. split; [|repeat split].
  intros Hnan. unfold is_NN_value_invalid, gt.
  change low_threshold with lo. change high_threshold with hi.
  split.
  - intros H. apply orb_false_iff in H as [Hhi Hlo].
    split; apply not_lt_le; auto.
  - intros [Hlo Hhi]. apply orb_false_iff. split.
    + destruct (lt hi nn_output_cycles) eqn:H; [|first [reflexivity | exact H]].
      pose proof (lt_not_le _ _ H) as Hn. rewrite Hhi in Hn. discriminate.
    + destruct (lt nn_output_cycles lo) eqn:H; [|first [reflexivity | exact H]].
      pose proof (lt_not_le _ _ H) as Hn. rewrite Hlo in Hn. discriminate.
Qed.

Lemma valid_interval_is_closed_witness :
  is_NN_value_invalid (of_uint 4000000000) = false.
Proof.
  apply (proj1 (valid_interval_is_closed (of_uint 4000000000)) eq_refl).
  split; reflexivity.
Defined.

End IntervalFacts.

(** ** The whole-pack query against the single queries *)

Module InfoFacts.
Import F32 CostModel CostModelInfo.

(** [DPU_and_sanitize] hands back the workload and the text that
    [sanitize_workload] left. *)
Lemma DPU_and_sanitize_outputs m wl st r st' :
  DPU_and_sanitize m wl st = Some (r, st') ->
  r.1.2 = (sanitize_workload m wl).1.1 /\
  r.2 = info (sanitize_workload m wl).1.2.
Proof.
  unfold DPU_and_sanitize.
  destruct (sanitize_workload m wl) as [[w problems] relevant]. simpl.
  destruct relevant; [|intros [= <- _]; auto].
  destruct (nn_initialized m); [|intros [= <- _]; auto].
  unfold bind. destruct (run_NN m w st) as [[v st2]|]; [|discriminate].
  destruct (is_NN_value_invalid v); [intros [= <- _]; auto|].
  unfold lift. destruct (ceil_cycles v); [intros [= <- _]; auto|discriminate].
Qed.

(** X8.  [DPUInfo] returns exactly when [DPU] does, with the same cycles
    and the same state after the call.  Its two utilizations are those of
    [power_mac_hw_utilization] and [efficiency_mac_hw_utilization] on the
    workload as passed; its text is the one of the sanitizer; its ideal
    cycles, operation counts, theoretical cycles and energy are those of
    the sanitized workload, the energy being [DPUEnergy] of the sanitized
    workload. *)
Theorem DPUInfo_agrees (m : VPUCostModel) (counters : MACCounters)
    (wl : DPUWorkload) (st : ModelState) :
  let w := (sanitize_workload m wl).1.1 in
  match DPUInfo m counters wl st with
  | Some (d, st') =>
      DPU m wl st = Some (DPUCycles d, st') /\
      hw_utilization m wl st = Some (power_mac_utilization d, st') /\
      power_mac_hw_utilization m wl st = Some (power_mac_utilization d, st') /\
      efficiency_mac_hw_utilization m wl st
        = Some (efficiency_mac_utilization d, st') /\
      errInfo d = info (sanitize_workload m wl).1.2 /\
      energy d = DPUEnergy m w /\
      power_ideal_cycles d = DPU_Power_IdealCycles (performance m) w /\
      efficiency_ideal_cycles d = DPU_Efficency_IdealCycles (performance m) w /\
      sparse_mac_operations d = compute_HW_MAC_operations_cnt counters w /\
      dense_mac_operations d = compute_Ideal_MAC_operations_cnt counters w /\
      hw_theoretical_cycles d = DPUTheoreticalCycles (performance m) w
  | None => DPU m wl st = None
  end.
Proof.
  intros w. unfold DPUInfo, DPU, hw_utilization, power_mac_hw_utilization,
    efficiency_mac_hw_utilization, mac_hw_utilization, bind, ret.
  destruct (DPU_and_sanitize m wl st) as [[r st']|] eqn:Hr; [|reflexivity].
  destruct (DPU_and_sanitize_outputs _ _ _ _ _ Hr) as [Hw Hinfo].
  fold w in Hw. cbn [DPUCycles errInfo energy power_mac_utilization
    efficiency_mac_utilization power_ideal_cycles efficiency_ideal_cycles
    sparse_mac_operations dense_mac_operations hw_theoretical_cycles].
  rewrite Hw, Hinfo. unfold DPUEnergy. repeat split; reflexivity.
Qed.

(** X9.  The two activity factors of [DPUInfo] are computed with the power
    factor and the device of the sanitized workload: the power one is the
    minimum of [DPU_AgnosticActivityFactor] and the ceiling of the device,
    the efficiency one is [DPU_AgnosticActivityFactor].  When sanitization
    leaves the workload as it was, they are the results of
    [DPU_PowerActivityFactor] (and of its proxy [DPUActivityFactor]) and of
    [DPU_EfficiencyActivityFactor], and the energy is [DPUEnergy] of the
    workload.  (The single queries read the power factor of the workload as
    passed, so after a rewrite of the operation the two may differ.) *)
Theorem DPUInfo_activity_factors (m : VPUCostModel) (counters : MACCounters)
    (wl : DPUWorkload) (st st' : ModelState) (d : DPUInfoPack) :
  let w := (sanitize_workload m wl).1.1 in
  DPUInfo m counters wl st = Some (d, st') ->
  power_activity_factor d
    = F32.min (DPU_AgnosticActivityFactor m w (power_mac_utilization d))
              (get_PowerVirus_exceed_factor (power_factor_lut m) (device w)) /\
  efficiency_activity_factor d
    = DPU_AgnosticActivityFactor m w (efficiency_mac_utilization d) /\
  (w = wl ->
   DPU_PowerActivityFactor m wl st = Some (power_activity_factor d, st') /\
   DPUActivityFactor m wl st = Some (power_activity_factor d, st') /\
   DPU_EfficiencyActivityFactor m wl st
     = Some (efficiency_activity_factor d, st') /\
   energy d = DPUEnergy m wl).
Proof.
  intros w Hd.
  unfold DPUInfo, bind, ret in Hd.
  destruct (DPU_and_sanitize m wl st) as [[r st2]|] eqn:Hr; [|discriminate].
  destruct (DPU_and_sanitize_outputs _ _ _ _ _ Hr) as [Hw Hinfo].
  fold w in Hw. injection Hd as <- <-.
  cbn [power_activity_factor efficiency_activity_factor power_mac_utilization
       efficiency_mac_utilization energy].
  rewrite Hw. split; [reflexivity|]. split; [reflexivity|].
  intros Heq.
  unfold DPUActivityFactor, DPU_PowerActivityFactor,
    DPU_EfficiencyActivityFactor, power_mac_hw_utilization,
    efficiency_mac_hw_utilization, mac_hw_utilization, bind, ret.
  rewrite Hr, Hw, Heq. unfold DPUEnergy. repeat split; reflexivity.
Qed.

Lemma DPUInfo_activity_factors_witness :
  (power_activity_factor <$>
     (fst <$> DPUInfo (Demo.model true (fun _ => F32.of_uint 128))
                DemoInfo.the_counters
                (Demo.workload VPU_2_7 CONVOLUTION 64 64) Demo.state0))
  = fst <$> DPU_PowerActivityFactor (Demo.model true (fun _ => F32.of_uint 128))
              (Demo.workload VPU_2_7 CONVOLUTION 64 64) Demo.state0.
Proof.
  destruct (DPUInfo (Demo.model true (fun _ => F32.of_uint 128))
              DemoInfo.the_counters
              (Demo.workload VPU_2_7 CONVOLUTION 64 64) Demo.state0)
    as [[d st']|] eqn:Hd; [|vm_compute in Hd; discriminate].
  destruct (DPUInfo_activity_factors _ _ _ _ _ _ Hd) as (_ & _ & H).
  destruct (H eq_refl) as (Hp & _). rewrite Hp. reflexivity.
Defined.

(** The single queries and the pack can differ after a rewrite: for an
    average pooling the pack reads the power factor of the depthwise
    convolution and [DPUEnergy] that of the pooling. *)
Example DPUInfo_energy_after_rewrite :
  energy <$> (fst <$> DPUInfo (DemoInfo.model_by_op false id)
                        DemoInfo.the_counters
                        (Demo.workload VPU_2_0 AVEPOOL 64 64) Demo.state0)
    = Some (F32.mul (of_uint 64) (dec 584 100)) /\
  DPUEnergy (DemoInfo.model_by_op false id)
    (Demo.workload VPU_2_0 AVEPOOL 64 64)
    = F32.mul (of_uint 64) (dec 3260 100).
Proof. split; reflexivity. Qed.

End InfoFacts.

(** ** Effects of the queries on the cache and on the network *)

Module EffectFacts.
Import F32 CostModel RewritesFacts SinglePathFacts BatchFacts.

(** What [add] has put in a cache that holds at least one entry is what
    [get] finds next. *)
Lemma cache_get_add_same c k v :
  (0 < capacity c)%nat -> cache_get (cache_add c k v) k = Some v.
Proof.
  intros Hcap. unfold cache_get, cache_add. simpl.
  destruct (capacity c) as [|n]; [lia|]. simpl.
  rewrite bool_decide_eq_true_2 by reflexivity. reflexivity.
Qed.

Lemma run_NN_again m wl st v st1 :
  (0 < capacity (cache st))%nat ->
  run_NN m wl st = Some (v, st1) ->
  run_NN m wl st1 = Some (v, st1) /\
  capacity (cache st1) = capacity (cache st) /\
  (inferences st1 = inferences st \/
   inferences st1 = inferences st ++ [transform (preprocessing m) wl]).
Proof.
  intros Hcap. unfold run_NN.
  destruct (cache_get (cache st) (transform (preprocessing m) wl))
    as [cached|] eqn:Hget.
  - intros [= <- <-]. rewrite Hget. auto.
  - destruct (predict _ _ !! 0%nat) as [inferred|]; [|discriminate].
    intros [= <- <-]. simpl.
    rewrite cache_get_add_same by assumption. auto.
Qed.

(** X10.  With a cache of positive capacity, a single [DPU] query that has
    returned is answered the same when asked again right away, and the
    second call changes nothing: no inference is run and the cache is as
    the first call left it.  The first call itself runs at most one
    inference, on the descriptor of the sanitized workload. *)
Theorem DPU_again_from_cache (m : VPUCostModel) (wl : DPUWorkload)
    (st st1 : ModelState) (c : Z) :
  let w := (sanitize_workload m wl).1.1 in
  (0 < capacity (cache st))%nat ->
  DPU m wl st = Some (c, st1) ->
  DPU m wl st1 = Some (c, st1) /\
  capacity (cache st1) = capacity (cache st) /\
  (inferences st1 = inferences st \/
   inferences st1 = inferences st ++ [transform (preprocessing m) w]).
Proof.
  intros w Hcap. subst w. rewrite !DPU_unfold, sanitize_workload_unfold.
  cbv zeta. cbn [fst snd].
  destruct (is_usable _ _); [|intros [= <- <-]; auto].
  destruct (nn_initialized m); [|intros [= <- <-]; auto].
  destruct (run_NN m _ st) as [[v st2]|] eqn:Hrun; [|discriminate].
  destruct (run_NN_again _ _ _ _ _ Hcap Hrun) as (Hagain & Hc & Hlog).
  destruct (is_NN_value_invalid v) eqn:Hi.
  - intros [= <- <-]. rewrite Hagain, Hi. auto.
  - destruct (ceil_cycles v) eqn:Hceil; [|discriminate].
    intros [= <- <-]. rewrite Hagain, Hi, Hceil. auto.
Qed.

Lemma DPU_again_from_cache_witness :
  DPU (Demo.model true (fun _ => F32.dec 25 10))
      (Demo.workload VPU_2_7 CONVOLUTION 64 64)
      (mkState (mkCache (Z.to_nat 16384) [([F32.of_uint 64], F32.dec 25 10)])
         [] [[F32.of_uint 64]])
  = Some (3, mkState
               (mkCache (Z.to_nat 16384) [([F32.of_uint 64], F32.dec 25 10)])
               [] [[F32.of_uint 64]]).
Proof.
  apply (DPU_again_from_cache (Demo.model true (fun _ => F32.dec 25 10))
           (Demo.workload VPU_2_7 CONVOLUTION 64 64) Demo.state0).
  - vm_compute. lia.
  - reflexivity.
Defined.

(** The number of batches of [bs] workloads that cover [n] workloads. *)
Local Abbreviation batches n bs := (Nat.div (n + bs - 1) bs).

Lemma batches_step n j bs :
  (0 < bs)%nat -> (j < n)%nat ->
  batches (n - j) bs = S (batches (n - (j + bs)) bs).
Proof.
  intros Hbs Hj.
  destruct (Nat.le_gt_cases (j + bs) n) as [Hle | Hgt].
  - replace (n - j + bs - 1)%nat with (n - (j + bs) + bs - 1 + 1 * bs)%nat by lia.
    rewrite Nat.div_add by lia. lia.
  - replace (n - (j + bs))%nat with 0%nat by lia.
    rewrite (Nat.div_small (0 + bs - 1) bs) by lia.
    symmetry. apply (Nat.div_unique _ _ 1 (n - j - 1)); lia.
Qed.

Lemma batches_done n j bs : (n <= j)%nat -> batches (n - j) bs = 0%nat.
Proof.
  intros H. replace (n - j)%nat with 0%nat by lia.
  destruct bs as [|bs]; [reflexivity|]. apply Nat.div_small. lia.
Qed.

(** A batch size of zero never advances the outer loop. *)
Lemma run_NN_loop_stuck m n vector : forall fuel j st,
  model_batch_size (vpunn_runtime m) = 0%nat -> (j < n)%nat ->
  run_NN_loop m n vector fuel j st = None.
Proof.
  induction fuel as [|fuel IH]; intros j st Hbs Hj; [reflexivity|].
  cbn [run_NN_loop]. rewrite (proj2 (Nat.ltb_lt j n) Hj).
  rewrite Hbs, Nat.mul_0_r, Nat.add_0_r.
  destruct (length _ <? 0)%nat; [reflexivity|].
  destruct (fill_results _ _ _ _); [|reflexivity].
  apply IH; assumption.
Qed.

(** The outer loop of the batched [run_NN], whenever it ends: the cache is
    as before, the buffer keeps its length, and the network has been
    handed one full batch per step. *)
Lemma fill_results_length hw wl_idx : forall idxs buf buf',
  fill_results hw wl_idx idxs buf = Some buf' -> length buf' = length buf.
Proof.
  induction idxs as [|i idxs IH]; intros buf buf'; simpl.
  - intros [= <-]. reflexivity.
  - destruct (hw !! _); [|discriminate]. intros H.
    rewrite (IH _ _ H), length_insert. reflexivity.
Qed.

Lemma run_NN_loop_effects m n vector : forall fuel j st st',
  run_NN_loop m n vector fuel j st = Some (tt, st') ->
  let bs := model_batch_size (vpunn_runtime m) in
  let ds := output_size (preprocessing m) in
  cache st' = cache st /\
  length (workloads_results_buffer st') = length (workloads_results_buffer st) /\
  exists slices,
    inferences st' = inferences st ++ slices /\
    Forall (fun s => length s = (ds * bs)%nat) slices /\
    length slices = batches (n - j) bs.
Proof.
  induction fuel as [|fuel IH]; intros j st st' Hrun bs ds; [discriminate|].
  cbn [run_NN_loop] in Hrun.
  destruct (Nat.ltb_spec j n) as [Hj | Hj].
  - fold bs ds in Hrun.
    destruct (Nat.ltb_spec (length (take (ds * bs) (drop (j * ds) vector)))
                (ds * bs)) as [Hshort | Hfull]; [discriminate|].
    destruct (fill_results _ _ _ _) as [buffer|] eqn:Hfill; [|discriminate].
    destruct (Nat.eq_dec bs 0%nat) as [Hz | Hnz].
    { rewrite run_NN_loop_stuck in Hrun; [discriminate | exact Hz|].
      rewrite Hz. lia. }
    apply IH in Hrun as (Hc & Hl & slices & Hlog & Hall & Hlen).
    cbn [cache workloads_results_buffer inferences] in *.
    split; [exact Hc|]. split.
    { rewrite Hl. eapply fill_results_length. exact Hfill. }
    exists (take (ds * bs) (drop (j * ds) vector) :: slices).
    split; [rewrite Hlog, <- app_assoc; reflexivity|]. split.
    + constructor; [|exact Hall].
      pose proof (length_take_le (drop (j * ds) vector) (ds * bs)).
      rewrite length_take in *. lia.
    + cbn [length]. fold bs in Hlen. rewrite Hlen.
      symmetry. apply batches_step; lia.
  - injection Hrun as <-. split; [reflexivity|]. split; [reflexivity|].
    exists []. rewrite app_nil_r. split; [reflexivity|].
    split; [constructor|]. symmetry. apply batches_done. lia.
Qed.

Lemma decide_cycles_length m ws sres NN : forall idxs cv cv',
  decide_cycles m ws sres NN idxs cv = Some cv' -> length cv' = length cv.
Proof.
  induction idxs as [|i idxs IH]; intros cv cv'; simpl.
  - intros [= <-]. reflexivity.
  - destruct (decide_at _ _ _ _ _); [|discriminate]. intros H.
    rewrite (IH _ _ H), length_insert. reflexivity.
Qed.

(** X11.  Whenever the batched [DPU] returns: it returns one value per
    workload; the cache is exactly as before the call; and the network has
    been run [ceil(n / batch)] times for [n] workloads, each time on a
    buffer of [batch] whole descriptors ([batch] being the batch size of
    the model), or not at all when it is not initialized. *)
Theorem DPU_batch_effects (m : VPUCostModel) (B : list DPUWorkload)
    (st st' : ModelState) (cycles : list Z) :
  let bs := model_batch_size (vpunn_runtime m) in
  let ds := output_size (preprocessing m) in
  DPU_batch m B st = Some (cycles, st') ->
  length cycles = length B /\
  cache st' = cache st /\
  length (workloads_results_buffer st') = length B /\
  exists slices,
    inferences st' = inferences st ++ slices /\
    Forall (fun s => length s = (ds * bs)%nat) slices /\
    length slices = if nn_initialized m then batches (length B) bs else 0%nat.
Proof.
  intros bs ds. unfold DPU_batch, bind, lift.
  set (ws := map (fun r => r.1.1) (map (sanitize_workload m) B)).
  assert (Hws : length ws = length B) by (unfold ws; rewrite !length_map; reflexivity).
  destruct (run_NN_batch m ws st) as [[NN st2]|] eqn:Hrun; [|discriminate].
  destruct (decide_cycles _ _ _ _ _ _) as [cv|] eqn:Hdec; [|discriminate].
  intros [= <- <-].
  apply decide_cycles_length in Hdec. rewrite length_replicate in Hdec.
  split; [lia|].
  unfold run_NN_batch in Hrun. destruct (nn_initialized m); cbn [negb] in Hrun.
  - destruct (run_NN_loop _ _ _ _ _ _) as [[[] st3]|] eqn:Hloop; [|discriminate].
    injection Hrun as _ <-.
    apply run_NN_loop_effects in Hloop as (Hc & Hl & slices & Hlog & Hall & Hlen).
    cbn [cache workloads_results_buffer inferences] in *.
    split; [exact Hc|]. split; [rewrite Hl, length_resize; exact Hws|].
    exists slices. rewrite Nat.sub_0_r, Hws in Hlen. auto.
  - injection Hrun as _ <-. cbn [cache workloads_results_buffer inferences].
    split; [reflexivity|]. split; [rewrite length_replicate; exact Hws|].
    exists []. rewrite app_nil_r. auto.
Qed.

Lemma DPU_batch_effects_witness :
  (length <$> (inferences <$>
     (snd <$> DPU_batch (Demo.model true (fun x => F32.mul x (F32.dec 25 10)))
                [ Demo.workload VPU_2_7 CONVOLUTION 64 64;
                  Demo.workload VPU_2_7 OP_Invalid 64 64;
                  Demo.workload VPU_2_7 MAXPOOL 3 5 ]
                Demo.state0))) = Some 2%nat.
Proof.
  destruct (DPU_batch (Demo.model true (fun x => F32.mul x (F32.dec 25 10)))
              [ Demo.workload VPU_2_7 CONVOLUTION 64 64;
                Demo.workload VPU_2_7 OP_Invalid 64 64;
                Demo.workload VPU_2_7 MAXPOOL 3 5 ]
              Demo.state0) as [[cycles st']|] eqn:Hd;
    [|vm_compute in Hd; discriminate].
  destruct (DPU_batch_effects _ _ _ _ _ Hd)
    as (_ & _ & _ & slices & Hlog & _ & Hlen).
  simpl. rewrite Hlog, length_app, Hlen. reflexivity.
Defined.

Lemma decide_cycles_mapM m ws sres NN : forall cnt start cv,
  (start + cnt <= length cv)%nat ->
  decide_cycles m ws sres NN (seq start cnt) cv =
  rs ← mapM (decide_at m ws sres NN) (seq start cnt);
  Some (take start cv ++ rs ++ drop (start + cnt) cv).
Proof.
  induction cnt as [|cnt IH]; intros start cv Hlen.
  - simpl. rewrite Nat.add_0_r, take_drop. reflexivity.
  - simpl. destruct (decide_at m ws sres NN start) as [c|]; [|reflexivity].
    simpl. rewrite IH by (rewrite length_insert; lia).
    destruct (mapM _ (seq (S start) cnt)) as [rs|]; [|reflexivity].
    simpl. f_equal.
    rewrite (take_S_r (<[start:=c]> cv) start c)
      by (apply list_lookup_insert_eq; lia).
    rewrite take_insert_ge by lia.
    rewrite drop_insert_lt by lia.
    rewrite <- app_assoc. simpl.
    replace (start + S cnt)%nat with (S start + cnt)%nat by lia.
    reflexivity.
Qed.

Lemma mapM_total {A B} (h : A -> B) (l : list A) :
  mapM (fun a => Some (h a)) l = Some (map h l).
Proof.
  induction l as [|a l IH]; [reflexivity|].
  simpl. rewrite IH. reflexivity.
Qed.

(** X12.  When the network is not initialized, the batched [DPU] returns
    for every batch and every state, without any assumption: the value at
    each position is the report of the sanitizer when it is not usable, and
    otherwise [DPUTheoreticalCycles] of the sanitized workload on 32 bits;
    no inference is run, the cache is untouched, and the results buffer is
    left filled with the default output -1. *)
Theorem DPU_batch_without_network (m : VPUCostModel) (B : list DPUWorkload)
    (st : ModelState) :
  nn_initialized m = false ->
  DPU_batch m B st =
  Some (map (fun wl =>
               let r := sanitize_workload m wl in
               if r.2 then wrap32 (DPUTheoreticalCycles (performance m) r.1.1)
               else value r.1.2) B,
        {| cache := cache st;
           workloads_results_buffer :=
             replicate (length B) default_NN_output;
           inferences := inferences st |}).
Proof.
  intros Hinit. unfold DPU_batch, bind, lift, run_NN_batch.
  rewrite Hinit. cbn [negb cache workloads_results_buffer inferences].
  set (S := map (sanitize_workload m) B).
  assert (HS : length S = length B) by (unfold S; apply length_map).
  rewrite !length_map. fold S. rewrite HS.
  rewrite decide_cycles_mapM by (rewrite length_replicate; lia).
  set (h := fun r : DPUWorkload * SanityReport * bool =>
              if r.2 then wrap32 (DPUTheoreticalCycles (performance m) r.1.1)
              else value r.1.2).
  rewrite (mapM_ext _ (fun i => S !! i ≫= (fun r => Some (h r)))).
  2: { intros i. unfold decide_at. rewrite !map_is_fmap, !list_lookup_fmap.
       destruct (S !! i) as [r|]; [|reflexivity]. simpl.
       unfold decide_one, h. simpl. rewrite Hinit.
       destruct r.2; reflexivity. }
  rewrite <- HS.
  pose proof (mapM_lookup_seq (fun r => Some (h r)) S []) as Hm.
  cbn [app length] in Hm. rewrite Hm.
  rewrite mapM_total. simpl.
  rewrite drop_ge by (rewrite length_replicate; lia).
  rewrite app_nil_r. unfold S. rewrite map_map. rewrite length_map.
  reflexivity.
Qed.

Lemma DPU_batch_without_network_witness :
  fst <$> DPU_batch (Demo.model false id)
            [ Demo.workload VPU_2_7 CONVOLUTION 64 64;
              Demo.workload VPU_2_7 OP_Invalid 64 64 ]
            Demo.state0
  = Some [4096; 4294967293].
Proof.
  rewrite (DPU_batch_without_network (Demo.model false id) _ Demo.state0 eq_refl).
  reflexivity.
Defined.

End EffectFacts.

(** ** The three rewrites taken together *)

Module PresanitizeFacts.
Import Rewrites RewritesFacts.

Lemma channels_check_fixed w :
  (is_channels_preserving (op w) = true ->
   t_channels (inputs_0 w) = t_channels (outputs_0 w)) ->
  channels_preserving_operations_consistency_check w = w.
Proof.
  intros H. unfold channels_preserving_operations_consistency_check.
  destruct (is_channels_preserving (op w)); [|reflexivity].
  rewrite (H eq_refl), Z.eqb_refl. reflexivity.
Qed.

Lemma compress_other w :
  op w <> CONVOLUTION -> compressConv_replace_by_CM_CONV_VPU27 w = w.
Proof.
  intros H. unfold compressConv_replace_by_CM_CONV_VPU27.
  rewrite (bool_decide_eq_false_2 _ H). simpl.
  destruct (_ <=? _); reflexivity.
Qed.

(** The compressed-convolution rewrite either leaves the workload or
    turns a CONVOLUTION into a CM_CONVOLUTION. *)
Lemma compress_cases w :
  compressConv_replace_by_CM_CONV_VPU27 w = w \/
  (op w = CONVOLUTION /\
   compressConv_replace_by_CM_CONV_VPU27 w = set_op CM_CONVOLUTION w).
Proof.
  unfold compressConv_replace_by_CM_CONV_VPU27.
  destruct (_ <=? _); [|auto].
  case_bool_decide as Hop; simpl; [|auto].
  destruct (_ && _); auto.
Qed.

Lemma avgpool_cases w :
  avgpool_replace_by w = w \/
  (op w = AVEPOOL /\ avgpool_replace_by w = set_op DW_CONVOLUTION w).
Proof. unfold avgpool_replace_by. case_bool_decide; auto. Qed.

Lemma rewritten_not_avepool w : op (rewritten w) <> AVEPOOL.
Proof.
  unfold rewritten. pose proof (avgpool_never_gives_avepool w) as Ha.
  destruct (compress_cases (avgpool_replace_by w)) as [-> | [_ ->]];
    [exact Ha | discriminate].
Qed.

(** X13.  The rewrites that [sanitize_workload] applies before the device
    sanitizer are idempotent: applied to their own result they change
    nothing.  Their result is never an average pooling, and a
    channel-preserving operation leaves them with as many input as output
    channels. *)
Theorem presanitize_idempotent (wl : DPUWorkload) :
  presanitize (presanitize wl) = presanitize wl /\
  op (presanitize wl) <> AVEPOOL /\
  (is_channels_preserving (op (presanitize wl)) = true ->
   t_channels (inputs_0 (presanitize wl))
   = t_channels (outputs_0 (presanitize wl))).
Proof.
  set (p := presanitize wl).
  assert (Hop : op p = op (rewritten wl)) by apply channels_check_op.
  assert (Hnot : op p <> AVEPOOL)
    by (rewrite Hop; apply rewritten_not_avepool).
  assert (Hch : is_channels_preserving (op p) = true ->
                t_channels (inputs_0 p) = t_channels (outputs_0 p)).
  { intros Hp. rewrite Hop in Hp.
    destruct (channels_check_preserving (rewritten wl) Hp) as [Hc _].
    unfold p, presanitize. rewrite Hc, channels_check_outputs. reflexivity. }
  split; [|split; assumption].
  assert (Hcompress : compressConv_replace_by_CM_CONV_VPU27 p = p).
  { destruct (Operation_eq_dec (op p) CONVOLUTION) as [Hconv | Hother];
      [|apply compress_other; exact Hother].
    assert (Hp : p = rewritten wl).
    { unfold p, presanitize. apply channels_check_fixed.
      rewrite <- Hop, Hconv. discriminate. }
    rewrite Hp. unfold rewritten.
    destruct (compress_cases (avgpool_replace_by wl)) as [Hsame | [_ Hfired]].
    - rewrite Hsame. exact Hsame.
    - rewrite Hp in Hconv. unfold rewritten in Hconv.
      rewrite Hfired in Hconv. discriminate. }
  unfold presanitize at 1. unfold rewritten.
  rewrite (avgpool_other p Hnot), Hcompress.
  apply channels_check_fixed. exact Hch.
Qed.

Lemma presanitize_idempotent_witness :
  t_channels (inputs_0 (presanitize (Demo.workload VPU_2_7 AVEPOOL 3 5))) = 5 /\
  op (presanitize (Demo.workload VPU_2_7 AVEPOOL 3 5)) = DW_CONVOLUTION.
Proof.
  split; [|reflexivity].
  apply (proj2 (proj2 (presanitize_idempotent
                         (Demo.workload VPU_2_7 AVEPOOL 3 5)))).
  reflexivity.
Defined.

(** What none of the rewrites touches. *)
Local Abbreviation same_frame w w' :=
  (device w' = device w /\ outputs_0 w' = outputs_0 w /\
   kernels w' = kernels w /\ strides w' = strides w /\
   padding w' = padding w /\ execution_mode w' = execution_mode w /\
   output_write_tiles w' = output_write_tiles w /\
   t_x (inputs_0 w') = t_x (inputs_0 w) /\
   t_y (inputs_0 w') = t_y (inputs_0 w) /\
   t_b (inputs_0 w') = t_b (inputs_0 w) /\
   t_dtype (inputs_0 w') = t_dtype (inputs_0 w) /\
   t_sparsity (inputs_0 w') = t_sparsity (inputs_0 w)).

Lemma avgpool_frame w :
  same_frame w (avgpool_replace_by w) /\
  inputs_0 (avgpool_replace_by w) = inputs_0 w.
Proof.
  destruct (avgpool_cases w) as [-> | [_ ->]]; repeat split; reflexivity.
Qed.

Lemma compress_frame w :
  same_frame w (compressConv_replace_by_CM_CONV_VPU27 w) /\
  inputs_0 (compressConv_replace_by_CM_CONV_VPU27 w) = inputs_0 w.
Proof.
  destruct (compress_cases w) as [-> | [_ ->]]; repeat split; reflexivity.
Qed.

Lemma channels_check_frame w :
  let w' := channels_preserving_operations_consistency_check w in
  same_frame w w' /\
  (t_channels (inputs_0 w') = t_channels (inputs_0 w) \/
   t_channels (inputs_0 w') = t_channels (outputs_0 w)).
Proof.
  unfold channels_preserving_operations_consistency_check.
  destruct (is_channels_preserving (op w)); [|repeat split; auto].
  destruct (negb _); repeat split; auto.
Qed.

(** X14.  The rewrites touch the operation and the channel count of the
    first input and nothing else: device, output tensor, kernel, strides,
    padding, execution mode, output write tiles and the other dimensions,
    the element type and the sparsity of the input are as passed.  The
    operation changes only from AVEPOOL to DW_CONVOLUTION and from
    CONVOLUTION to CM_CONVOLUTION, and the channel count only to that of
    the output. *)
Theorem presanitize_frame (wl : DPUWorkload) :
  let w := presanitize wl in
  device w = device wl /\ outputs_0 w = outputs_0 wl /\
  kernels w = kernels wl /\ strides w = strides wl /\
  padding w = padding wl /\ execution_mode w = execution_mode wl /\
  output_write_tiles w = output_write_tiles wl /\
  t_x (inputs_0 w) = t_x (inputs_0 wl) /\
  t_y (inputs_0 w) = t_y (inputs_0 wl) /\
  t_b (inputs_0 w) = t_b (inputs_0 wl) /\
  t_dtype (inputs_0 w) = t_dtype (inputs_0 wl) /\
  t_sparsity (inputs_0 w) = t_sparsity (inputs_0 wl) /\
  (op w = op wl \/ (op wl = AVEPOOL /\ op w = DW_CONVOLUTION) \/
   (op wl = CONVOLUTION /\ op w = CM_CONVOLUTION)) /\
  (t_channels (inputs_0 w) = t_channels (inputs_0 wl) \/
   t_channels (inputs_0 w) = t_channels (outputs_0 wl)).
Proof.
  intros w. subst w. unfold presanitize, rewritten.
  set (a := avgpool_replace_by wl).
  set (c := compressConv_replace_by_CM_CONV_VPU27 a).
  destruct (avgpool_frame wl)
    as [(A1 & A2 & A3 & A4 & A5 & A6 & A7 & A8 & A9 & A10 & A11 & A12) Ain].
  destruct (compress_frame a)
    as [(B1 & B2 & B3 & B4 & B5 & B6 & B7 & B8 & B9 & B10 & B11 & B12) Bin].
  destruct (channels_check_frame c)
    as [(C1 & C2 & C3 & C4 & C5 & C6 & C7 & C8 & C9 & C10 & C11 & C12) Cch].
  fold a in A1, A2, A3, A4, A5, A6, A7, A8, A9, A10, A11, A12, Ain.
  fold c in B1, B2, B3, B4, B5, B6, B7, B8, B9, B10, B11, B12, Bin.
  cbv zeta in *.
  repeat (split; [congruence|]).
  split.
  - rewrite channels_check_op.
    destruct (avgpool_cases wl) as [Ha | [Hop Ha]]; fold a in Ha.
    + destruct (compress_cases a) as [Hc | [Hconv Hc]]; fold c in Hc.
      * left. rewrite Hc, Ha. reflexivity.
      * right. right. rewrite Hc. rewrite Ha in Hconv. auto.
    + right. left. split; [exact Hop|].
      unfold c. rewrite compress_other; rewrite Ha; [reflexivity|discriminate].
  - destruct Cch as [Cch | Cch]; [left | right]; congruence.
Qed.

End PresanitizeFacts.

(** ** Utilization, activity factor and energy at the edges *)

Module UtilizationFacts.
Import F32 F32Class F32Order F32Finite CostModel CostModelInfo.

Lemma Zdigits2_range z k : 0 < z < 2 ^ k -> 0 <= k -> 0 < Zdigits2 z <= k.
Proof.
  intros [Hz Hlt] Hk. split; [apply F32Valid.Zdigits2_pos; lia|].
  apply Zdigits2_le_pow2; assumption.
Qed.

(** X15.  For cycles on 32 bits and ideal cycles on 64 bits,
    [relative_mac_hw_utilization] is always a number, never an infinity or
    a NaN, and never negative; it is zero exactly when the cycles are an
    error code, the cycles are 0, or the ideal cycles are 0. *)
Theorem utilization_is_a_number (m : VPUCostModel) (real_cycles : Z)
    (ideal_cycles : Z) :
  let u := relative_mac_hw_utilization m real_cycles ideal_cycles in
  0 <= real_cycles < 2 ^ 32 -> 0 <= ideal_cycles < 2 ^ 64 ->
  is_number u = true /\
  lt u zero = false /\
  (is_zero u = true <->
   isErrorCode (cycles_codes m) real_cycles = true \/ real_cycles = 0 \/
   ideal_cycles = 0).
Proof.
  intros u Hreal Hideal. subst u. unfold relative_mac_hw_utilization.
  destruct (isErrorCode (cycles_codes m) real_cycles); cbn [negb andb];
    [repeat split; auto|].
  destruct (Z.eqb_spec real_cycles 0) as [-> | Hnz]; cbn [negb];
    [repeat split; auto|].
  destruct (of_uint_finite real_cycles) as (m2 & e2 & Hr2 & Hmag2).
  { split; [lia|]. apply Z.lt_trans with (2 ^ 32); [lia | reflexivity]. }
  pose proof (Zdigits2_range real_cycles 32 ltac:(lia) ltac:(lia)) as Hd2.
  rewrite Hr2.
  destruct (Z.eq_dec ideal_cycles 0) as [-> | Hinz].
  - repeat split; auto.
  - destruct (of_uint_finite ideal_cycles) as (m1 & e1 & Hr1 & Hmag1).
    { split; [lia|]. apply Z.lt_trans with (2 ^ 64); [lia | reflexivity]. }
    pose proof (Zdigits2_range ideal_cycles 64 ltac:(lia) ltac:(lia)) as Hd1.
    rewrite Hr1.
    destruct (div_finite false m1 e1 false m2 e2) as (mq & eq & ->).
    + unfold SpecFloat.emin, prec, emax. lia.
    + unfold emax. lia.
    + split; [reflexivity|]. split; [reflexivity|].
      split; [discriminate|]. intros [H | [H | H]]; [discriminate | lia | lia].
Qed.

Lemma utilization_is_a_number_witness :
  is_number (relative_mac_hw_utilization (Demo.model true id) 4096 1024) = true /\
  is_zero (relative_mac_hw_utilization (Demo.model true id) 4294967293 1024)
    = true.
Proof.
  split.
  - apply (utilization_is_a_number (Demo.model true id) 4096 1024); lia.
  - apply (proj2 (proj2 (utilization_is_a_number (Demo.model true id)
                           4294967293 1024 ltac:(lia) ltac:(lia)))).
    left. reflexivity.
Defined.

Lemma DPU_cycles_of m wl st c st' :
  DPU m wl st = Some (c, st') ->
  exists r, DPU_and_sanitize m wl st = Some (r, st') /\ r.1.1 = c.
Proof.
  unfold DPU, bind, ret.
  destruct (DPU_and_sanitize m wl st) as [[r st2]|]; [|discriminate].
  intros [= <- <-]. eauto.
Qed.

Lemma relative_zero m c ideal :
  isErrorCode (cycles_codes m) c = true \/ c = 0 ->
  relative_mac_hw_utilization m c ideal = zero.
Proof.
  intros [H | ->]; unfold relative_mac_hw_utilization.
  - rewrite H. reflexivity.
  - rewrite andb_false_r. reflexivity.
Qed.

Lemma agnostic_of_zero m wl :
  is_number (getOperationAndPowerVirusAdjustementFactor (power_factor_lut m) wl)
    = true ->
  is_zero (DPU_AgnosticActivityFactor m wl zero) = true.
Proof.
  intros Hpf. unfold DPU_AgnosticActivityFactor,
    DPU_AgnosticActivityFactor_formula.
  apply mul_zero_l; [|reflexivity]. apply mul_zero_l; [reflexivity | exact Hpf].
Qed.

(** X16.  An error of [DPU] propagates as zero: when [DPU] answers an
    error code (or 0 cycles), [hw_utilization] and
    [efficiency_mac_hw_utilization] answer +0 in the same state; and, the
    power factor of the workload being a number, so do the activity
    factors: [DPU_EfficiencyActivityFactor] answers a zero, and
    [DPUActivityFactor] answers a zero provided the ceiling of the device
    is not negative. *)
Theorem error_propagates_as_zero (m : VPUCostModel) (wl : DPUWorkload)
    (st st' : ModelState) (c : Z) :
  let power_factor :=
    getOperationAndPowerVirusAdjustementFactor (power_factor_lut m) wl in
  let ceiling := get_PowerVirus_exceed_factor (power_factor_lut m) (device wl) in
  DPU m wl st = Some (c, st') ->
  isErrorCode (cycles_codes m) c = true \/ c = 0 ->
  hw_utilization m wl st = Some (zero, st') /\
  efficiency_mac_hw_utilization m wl st = Some (zero, st') /\
  (is_number power_factor = true ->
   exists z, DPU_EfficiencyActivityFactor m wl st = Some (z, st') /\
             is_zero z = true) /\
  (is_number power_factor = true -> lt ceiling zero = false ->
   exists z, DPUActivityFactor m wl st = Some (z, st') /\ is_zero z = true).
Proof.
  intros pf ceiling Hdpu Herr.
  destruct (DPU_cycles_of _ _ _ _ _ Hdpu) as (r & Hr & Hc).
  unfold hw_utilization, DPUActivityFactor, DPU_PowerActivityFactor,
    DPU_EfficiencyActivityFactor, power_mac_hw_utilization,
    efficiency_mac_hw_utilization, mac_hw_utilization, bind, ret.
  rewrite Hr, Hc, !(relative_zero m c _ Herr).
  split; [reflexivity|]. split; [reflexivity|]. split.
  - intros Hpf. eexists. split; [reflexivity|]. apply agnostic_of_zero.
    exact Hpf.
  - intros Hpf Hceil. eexists. split; [reflexivity|].
    pose proof (agnostic_of_zero m wl Hpf) as Hz.
    destruct (DPU_AgnosticActivityFactor m wl zero) as [s| | |]; try discriminate.
    unfold min. fold ceiling. rewrite lt_zero_sign, Hceil. reflexivity.
Qed.

Lemma error_propagates_as_zero_witness :
  fst <$> DPUActivityFactor (Demo.model true id)
            (Demo.workload VPU_2_7 OP_Invalid 64 64) Demo.state0
  = Some zero.
Proof.
  destruct (error_propagates_as_zero (Demo.model true id)
              (Demo.workload VPU_2_7 OP_Invalid 64 64) Demo.state0 Demo.state0
              4294967293 eq_refl (or_introl eq_refl))
    as (_ & _ & _ & H).
  destruct (H eq_refl eq_refl) as (z & Hz & _).
  rewrite Hz. vm_compute in Hz. injection Hz as <-. reflexivity.
Defined.

(** X17.  The energy is zero at the edges: [DPUEnergy] is +0 when the
    power factor of the workload is +0 (the answer of the table for a
    device or an operation it does not list) and the ideal cycles fit 64
    bits, and a zero when the ideal cycles are 0 and the power factor is a
    number; [calculateEnergyFromAFandTime] is a zero for an error code,
    whatever number the activity factor is. *)
Theorem energy_zero_cases (m : VPUCostModel) (wl : DPUWorkload)
    (activity_factor : float) (cycles : Z) :
  let power_factor :=
    getOperationAndPowerVirusAdjustementFactor (power_factor_lut m) wl in
  let ideal := DPU_Power_IdealCycles (performance m) wl in
  (power_factor = zero -> 0 <= ideal < 2 ^ 64 -> DPUEnergy m wl = zero) /\
  (ideal = 0 -> is_number power_factor = true ->
   is_zero (DPUEnergy m wl) = true) /\
  (isErrorCode (cycles_codes m) cycles = true ->
   is_number activity_factor = true ->
   is_zero (calculateEnergyFromAFandTime m activity_factor cycles) = true).
Proof.
  intros pf ideal. unfold DPUEnergy, calculateEnergyFromIdealCycles,
    calculateEnergyFromAFandTime. fold pf ideal.
  split; [|split].
  - intros -> Hb. destruct (Z.eq_dec ideal 0) as [-> | Hnz]; [reflexivity|].
    destruct (of_uint_finite ideal) as (mi & ei & -> & _); [|reflexivity].
    split; [lia|]. apply Z.lt_trans with (2 ^ 64); [lia | reflexivity].
  - intros -> Hpf. apply mul_zero_l; [reflexivity | exact Hpf].
  - intros -> Haf. apply mul_zero_r. exact Haf.
Qed.

Lemma energy_zero_cases_witness :
  is_zero (calculateEnergyFromAFandTime (Demo.model true id) (dec 92 100)
             4294967293) = true.
Proof.
  apply (proj2 (proj2 (energy_zero_cases (Demo.model true id)
                         (Demo.workload VPU_2_7 CONVOLUTION 64 64)
                         (dec 92 100) 4294967293))); reflexivity.
Defined.

End UtilizationFacts.

(** ** Exact conversions and the default SHAVE kernel *)

Module F32Exact.
Import F32 F32Facts F32Valid.

Local Abbreviation fexp := (SpecFloat.fexp prec emax).

(** Rounding a canonical pair changes nothing. *)
Lemma binary_round_aux_canonical s m e :
  fexp (Zpos (digits2_pos m) + e) = e -> e <= emax - prec ->
  binary_round_aux prec emax s (Zpos m) e loc_Exact = S754_finite s m e.
Proof.
  intros Hc He. unfold binary_round_aux, shr_fexp.
  simpl Zdigits2. rewrite Hc, Z.sub_diag.
  cbn -[SpecFloat.fexp Z.add Z.sub Z.leb].
  rewrite Hc, Z.sub_diag. cbn -[Z.leb Z.sub].
  rewrite (proj2 (Z.leb_le _ _) He). reflexivity.
Qed.

(** A positive integer below [2^24] converts to itself: the mantissa is
    the integer shifted to 24 digits. *)
Lemma of_uint_exact p :
  Zpos p < 2 ^ 24 ->
  exists m e,
    of_uint (Zpos p) = S754_finite false m e /\
    Zpos (digits2_pos m) = 24 /\ -23 <= e <= 0 /\
    Zpos m = Zpos p * 2 ^ (- e).
Proof.
  intros Hlt.
  pose proof (F32Finite.Zdigits2_le_pow2 (Zpos p) 24 ltac:(lia) ltac:(lia) Hlt)
    as Hd.
  pose proof (Zdigits2_pos (Zpos p) ltac:(lia)) as Hd0.
  simpl Zdigits2 in Hd, Hd0.
  unfold of_uint, binary_normalize, binary_round, shl_align.
  assert (Hf : fexp (Zpos (digits2_pos p) + 0) = Zpos (digits2_pos p) - 24).
  { unfold SpecFloat.fexp, SpecFloat.emin, prec, emax. lia. }
  rewrite Hf.
  destruct (Zpos (digits2_pos p) - 24 - 0) as [|d|d] eqn:Hs; try lia.
  - exists p, 0. split; [|split; [lia | split; [lia | simpl; lia]]].
    apply binary_round_aux_canonical; [|unfold emax, prec; lia].
    rewrite Hf. lia.
  - assert (Hdig : Zdigits2 (Zpos (Pos.iter xO p d)) = 24).
    { rewrite iter_xO_value, Zdigits2_mul_pow2 by lia. simpl Zdigits2. lia. }
    simpl Zdigits2 in Hdig.
    exists (Pos.iter xO p d), (Zpos (digits2_pos p) - 24).
    split; [|split; [exact Hdig | split; [lia|]]].
    + apply binary_round_aux_canonical; [|unfold emax, prec; lia].
      rewrite Hdig. unfold SpecFloat.fexp, SpecFloat.emin, prec, emax. lia.
    + rewrite iter_xO_value. f_equal. f_equal. lia.
Qed.

(** Dividing a normal datum by 1 changes nothing. *)
Lemma div_one_normal s m e :
  Zpos (digits2_pos m) = 24 -> -125 <= e <= emax - prec ->
  div (S754_finite s m e) one = S754_finite s m e.
Proof.
  intros Hd He. change one with (S754_finite false 8388608 (-23)).
  unfold div, SFdiv, SFdiv_core_binary. rewrite xorb_false_r.
  change (Zdigits2 (Zpos 8388608)) with 24.
  change (Zdigits2 (Zpos m)) with (Zpos (digits2_pos m)). rewrite Hd.
  cbv zeta.
  replace (Z.min (fexp (24 + e - (24 + -23))) (e - -23)) with (e - 1)
    by (unfold SpecFloat.fexp, SpecFloat.emin, prec, emax in *; lia).
  replace (e - -23 - (e - 1)) with 24 by lia.
  cbv iota.
  assert (Ha : Z.shiftl (Zpos m) 24 = Zpos m~0 * 8388608).
  { rewrite Z.shiftl_mul_pow2 by lia. change (2 ^ 24) with 16777216. lia. }
  rewrite Ha.
  pose proof (Z.div_mul (Zpos m~0) 8388608 ltac:(lia)) as Hq.
  pose proof (Z.mod_mul (Zpos m~0) 8388608 ltac:(lia)) as Hr.
  unfold Z.div in Hq. unfold Z.modulo in Hr.
  destruct (Z.div_eucl (Zpos m~0 * 8388608) 8388608) as [q r].
  cbn [fst snd] in Hq, Hr. subst q r.
  change (new_location 8388608 0) with loc_Exact.
  unfold binary_round_aux, shr_fexp.
  assert (Hd2 : Zdigits2 (Zpos m~0) = 25).
  { simpl. rewrite Pos2Z.inj_succ, Hd. reflexivity. }
  rewrite Hd2.
  replace (fexp (25 + (e - 1)) - (e - 1)) with 1
    by (unfold SpecFloat.fexp, SpecFloat.emin, prec, emax in *; lia).
  cbn -[SpecFloat.fexp Z.add Z.sub Z.leb].
  rewrite Hd.
  replace (fexp (24 + (e - 1 + 1)) - (e - 1 + 1)) with 0
    by (unfold SpecFloat.fexp, SpecFloat.emin, prec, emax in *; lia).
  cbn -[Z.leb Z.sub Z.add].
  rewrite (proj2 (Z.leb_le (e - 1 + 1) (emax - prec))) by lia.
  f_equal. lia.
Qed.

(** Rounding an integer-valued datum gives the integer. *)
Lemma Zround_exact m e n :
  e <= 0 -> Zpos m = n * 2 ^ (- e) ->
  Zround (S754_finite false m e) = Some n.
Proof.
  intros He Hm. unfold Zround.
  destruct (Z.leb_spec 0 e) as [H0 | H0].
  - replace e with 0 in * by lia. simpl in Hm. f_equal. simpl. lia.
  - assert (Hp : 0 < 2 ^ (- e)) by (apply Z.pow_pos_nonneg; lia).
    cbv zeta. rewrite Hm, Z.div_mul, Z.mod_mul by lia.
    destruct (Z.leb_spec (2 ^ (- e)) (2 * 0)); [lia | reflexivity].
Qed.

End F32Exact.

Module DefaultKernelFacts.
Import F32 F32Exact Shave.

(** X18.  A kernel of efficiency 1 byte per cycle, as
    [SHV_ELEMENTWISE_KERNEL_DEFAULT] declares, costs exactly one cycle per
    byte of its first output, plus the latency (on 32 bits), for every
    output of at most [2^24] bytes: up to there the conversion of the size
    to binary32 and the division by 1.0 are exact. *)
Theorem default_kernel_exact (k : SHVElementwise) (output : VPUTensor)
    (rest : list VPUTensor) :
  outputs k = output :: rest ->
  efficiency k = 1000 ->
  0 <= tensor_size output <= 2 ^ 24 ->
  getKernelEfficiency k = one /\
  cycles k = Some (wrap32 (tensor_size output + latency k)) /\
  (latency k = 0 -> cycles k = Some (tensor_size output)).
Proof.
  intros Hout Heff Hsize.
  assert (Hone : getKernelEfficiency k = one).
  { unfold getKernelEfficiency. rewrite Heff. reflexivity. }
  assert (Hcycles : cycles k = Some (wrap32 (tensor_size output + latency k))).
  { unfold cycles, round_cycles, getLatency. rewrite Hout. simpl.
    rewrite Hone.
    destruct (tensor_size output) as [|p|p] eqn:Hs; [reflexivity| |lia].
    destruct (Z.eq_dec (Zpos p) (2 ^ 24)) as [Heq | Hne].
    - rewrite Heq. reflexivity.
    - destruct (of_uint_exact p ltac:(lia)) as (m & e & -> & Hd & He & Hm).
      rewrite div_one_normal by (unfold emax, prec; lia).
      rewrite (Zround_exact m e (Zpos p)) by (assumption || lia).
      unfold to_uint32.
      rewrite (proj2 (Z.ltb_lt (Zpos p) (2 ^ 32)))
        by (apply Z.le_lt_trans with (2 ^ 24); [lia | reflexivity]).
      reflexivity. }
  split; [exact Hone|]. split; [exact Hcycles|].
  intros Hlat. rewrite Hcycles, Hlat, Z.add_0_r. unfold wrap32.
  rewrite Z.mod_small; [reflexivity|].
  split; [lia|]. apply Z.le_lt_trans with (2 ^ 24); [lia | reflexivity].
Qed.

Lemma default_kernel_exact_witness :
  cycles (SHVElementwise_new 1000 0 VPU_2_7 []
            (mkTensor 56 56 16 1 FLOAT16 false)) = Some 100352.
Proof.
  apply (default_kernel_exact
           (SHVElementwise_new 1000 0 VPU_2_7 []
              (mkTensor 56 56 16 1 FLOAT16 false))
           (mkTensor 56 56 16 1 FLOAT16 false) [] eq_refl eq_refl).
  - vm_compute. split; discriminate.
  - reflexivity.
Defined.

(** Past [2^24] bytes the size is rounded before it is divided: one byte
    more than [2^24] costs [2^24] cycles. *)
Example default_kernel_rounds_large_sizes :
  cycles (SHVElementwise_new 1000 0 VPU_2_7 []
            (mkTensor 16777217 1 1 1 UINT8 false)) = Some 16777216.
Proof. reflexivity. Qed.

End DefaultKernelFacts.
